(** * xcapture: the capture-and-pacing pipeline of [xcapture.go]

    A shallow embedding of the frame store ([Buffer]), the cursor
    compositor ([drawCursor]), the capture loop and the pacer goroutine of
    [main], followed by the properties of the pipeline.

    Conventions.
    - A Go [[]byte] is a [list Z] of values in [0, 256); a [nil] slice that
      has to be told apart from an empty one is an [option].
    - Go's [int] is 64 bits wide.  All [int] values computed from window
      geometry come from [uint16] fields, so their sums and products stay
      far below [2^63]; they are computed on [Z].  The conversions and the
      fixed-width arithmetic that the source writes ([uint16(..)],
      [uint32(..)], [byte(..)], [uint32] products, the time code
      [idx*int(d)]) are written out with their wrap-around.
    - A run-time panic (index or slice bound out of range, integer division
      by zero) is [None]. *)

From Stdlib Require Import ZArith Lia Bool.
From stdpp Require Import base numbers option list.

#[local] Open Scope Z_scope.

(** ** Go primitives *)

Module Go.

Definition byte (x : Z) : Z := x mod 2 ^ 8.
Definition uint16 (x : Z) : Z := x mod 2 ^ 16.
Definition uint32 (x : Z) : Z := x mod 2 ^ 32.
Definition uint64 (x : Z) : Z := x mod 2 ^ 64.
(** Two's complement reading of the low 64 bits. *)
Definition int (x : Z) : Z := (x + 2 ^ 63) mod 2 ^ 64 - 2 ^ 63.

Definition is_byte (x : Z) : Prop := 0 <= x < 256.

Definition len (s : list Z) : Z := Z.of_nat (length s).

(** [s[k]] *)
Definition index (s : list Z) (k : Z) : option Z :=
  if (0 <=? k) && (k <? len s) then s !! Z.to_nat k else None.

(** [s[k] = v] *)
Definition store (s : list Z) (k v : Z) : option (list Z) :=
  if (0 <=? k) && (k <? len s) then Some (<[Z.to_nat k := v]> s) else None.

(** [s[lo:hi]] as a value (the bytes the view covers). *)
Definition slice (s : list Z) (lo hi : Z) : option (list Z) :=
  if (0 <=? lo) && (lo <=? hi) && (hi <=? len s)
  then Some (take (Z.to_nat (hi - lo)) (drop (Z.to_nat lo) s))
  else None.

(** [copy(dst[off:], src)]: copies [min(len(dst)-off, len(src))] bytes
    into [dst] from position [off] on; [dst[off:]] panics when [off] is
    not in [0, len(dst)]. *)
Definition copyAt (dst : list Z) (off : Z) (src : list Z) : option (list Z) :=
  if (0 <=? off) && (off <=? len dst)
  then Some (list_inserts (Z.to_nat off) src dst)
  else None.

(** [copy(dst, src)] *)
Definition copy (dst src : list Z) : list Z := list_inserts 0 src dst.

End Go.

(** ** The frame store *)

Definition bytesPerPixel : Z := 4.

Record Buffer := {
  Width : Z;
  Height : Z;
  Pages : Z;
  Data : list Z;
  ShmID : Z
}.

(** [PageSize] and [PageOffset] multiply [int] values.  For a store made
    from a [uint16] geometry and for the indices of its pages the products
    are far below [2^63], and they are computed on [Z]; a property about an
    index of any size states the range in which this is the product of
    [int]. *)
Definition PageSize (b : Buffer) : Z := Width b * Height b * bytesPerPixel.

Definition PageOffset (b : Buffer) (idx : Z) : Z := PageSize b * idx.

(** [b.Data[offset : offset+size : offset+size]] *)
Definition Page (b : Buffer) (idx : Z) : option (list Z) :=
  let offset := PageOffset b idx in
  let size := PageSize b in
  Go.slice (Data b) offset (offset + size).

(** ** The cursor compositor *)

Module xfixes.
Record GetCursorImageReply := {
  X : Z;              (* int16 *)
  Y : Z;              (* int16 *)
  Width : Z;          (* uint16 *)
  Height : Z;         (* uint16 *)
  Xhot : Z;           (* uint16 *)
  Yhot : Z;           (* uint16 *)
  CursorImage : list Z  (* []uint32 *)
}.
End xfixes.

Module xproto.
Record TranslateCoordinatesReply := {
  DstX : Z;  (* int16 *)
  DstY : Z   (* int16 *)
}.
End xproto.

(** Destination of cursor sample [i] in the page. *)
Definition cursorRow (cursor : xfixes.GetCursorImageReply)
    (pos : xproto.TranslateCoordinatesReply) (i : Z) : Z :=
  i ÷ xfixes.Width cursor + xproto.DstY pos - xfixes.Yhot cursor.

Definition cursorCol (cursor : xfixes.GetCursorImageReply)
    (pos : xproto.TranslateCoordinatesReply) (i : Z) : Z :=
  Z.rem i (xfixes.Width cursor) + xproto.DstX pos - xfixes.Xhot cursor.

(** The test that ends the loop: [row >= buf.Height || col >= buf.Width ||
    row < 0 || col < 0]. *)
Definition offScreen (buf : Buffer) (row col : Z) : bool :=
  (row >=? Height buf) || (col >=? Width buf) || (row <? 0) || (col <? 0).

Definition pixelOffset (buf : Buffer) (row col : Z) : Z :=
  row * Width buf * bytesPerPixel + col * bytesPerPixel.

(** [byte((alpha*uint32(src) + invAlpha*uint32(dst)) >> 8)] in [uint32]
    arithmetic. *)
Definition blendChannel (alpha invAlpha src dst : Z) : Z :=
  Go.byte
    (Go.uint32 (Go.uint32 (alpha * Go.uint32 src)
                + Go.uint32 (invAlpha * Go.uint32 dst)) ≫ 8).

(** The body of the loop after the clip test: four stores at [off+3 .. off]. *)
Definition blendPixel (page : list Z) (off p : Z) : option (list Z) :=
  let alpha := Go.uint32 (p ≫ 24 + 1) in
  let invAlpha := Go.uint32 (Go.uint32 (256 - p ≫ 24)) in
  page ← Go.store page (off + 3) 255;
  d2 ← Go.index page (off + 2);
  page ← Go.store page (off + 2) (blendChannel alpha invAlpha (Go.byte (p ≫ 16)) d2);
  d1 ← Go.index page (off + 1);
  page ← Go.store page (off + 1) (blendChannel alpha invAlpha (Go.byte (p ≫ 8)) d1);
  d0 ← Go.index page (off + 0);
  Go.store page (off + 0) (blendChannel alpha invAlpha (Go.byte (p ≫ 0)) d0).

(** [for i, p := range cursor.CursorImage { ... }], entered at index [i]
    with the samples [img] still to visit. *)
Fixpoint cursorLoop (cursor : xfixes.GetCursorImageReply)
    (pos : xproto.TranslateCoordinatesReply) (buf : Buffer)
    (i : Z) (img : list Z) (page : list Z) : option (list Z) :=
  match img with
  | [] => Some page
  | p :: img' =>
    if xfixes.Width cursor =? 0 then None
    else
      let row := cursorRow cursor pos i in
      let col := cursorCol cursor pos i in
      if offScreen buf row col then Some page
      else
        page' ← blendPixel page (pixelOffset buf row col) p;
        cursorLoop cursor pos buf (i + 1) img' page'
  end.

(** The test before the loop: [pos.DstY < 0 || pos.DstX < 0 ||
    int(pos.DstY) > buf.Height || int(pos.DstX) > buf.Width]. *)
Definition cursorOutside (buf : Buffer) (pos : xproto.TranslateCoordinatesReply) : bool :=
  (xproto.DstY pos <? 0) || (xproto.DstX pos <? 0)
  || (xproto.DstY pos >? Height buf) || (xproto.DstX pos >? Width buf).

(** [drawCursor]: [cursor] and [pos] are the replies of the X server to
    [GetCursorImage] and [TranslateCoordinates] ([None]: the request
    failed).  The result is the page after the call. *)
Definition drawCursor (cursor : option xfixes.GetCursorImageReply)
    (pos : option xproto.TranslateCoordinatesReply)
    (buf : Buffer) (page : list Z) : option (list Z) :=
  match cursor with
  | None => Some page
  | Some cursor =>
    match pos with
    | None => Some page
    | Some pos =>
      if cursorOutside buf pos then Some page
      else cursorLoop cursor pos buf 0 (xfixes.CursorImage cursor) page
    end
  end.

(** ** The capture loop *)

(** [w := width; if int(w) > buf.Width { w = uint16(buf.Width) }] *)
Definition fetchWidth (buf : Buffer) (width : Z) : Z :=
  if width >? Width buf then Go.uint16 (Width buf) else width.

Definition fetchHeight (buf : Buffer) (height : Z) : Z :=
  if height >? Height buf then Go.uint16 (Height buf) else height.

(** The arguments of [xshm.GetImage] that vary: the source rectangle starts
    at (0, 0), has size [reqW] x [reqH], and the image is stored in the
    segment from [reqOffset] on. *)
Record GetImageRequest := {
  reqW : Z;
  reqH : Z;
  reqOffset : Z
}.

(** What the X server answers.  On success it has stored the image, packed
    rows of [reqW] pixels, in the segment; a failed request stores nothing. *)
Inductive GetImageReply :=
| FetchOk (data : list Z)
| FetchErr.

Definition withData (b : Buffer) (d : list Z) : Buffer :=
  {| Width := Width b; Height := Height b; Pages := Pages b;
     Data := d; ShmID := ShmID b |}.

(** The server's store: [reqW*reqH*4] bytes from [reqOffset] on. *)
Definition xshmStore (b : Buffer) (req : GetImageRequest) (data : list Z) : Buffer :=
  withData b
    (list_inserts (Z.to_nat (reqOffset req))
       (take (Z.to_nat (reqW req * reqH req * bytesPerPixel)) data) (Data b)).

(** [page] is a view of [b.Data]: what the loop stores through it lands in
    the segment. *)
Definition storePage (b : Buffer) (idx : Z) (page : list Z) : Buffer :=
  withData b (list_inserts (Z.to_nat (PageOffset b idx)) page (Data b)).

(** [for i := 0; i < int(h); i++ { copy(page[i*buf.Width*bytesPerPixel:],
    scratch[i*int(w)*bytesPerPixel:(i+1)*int(w)*bytesPerPixel]) }] with
    [n] iterations left. *)
Fixpoint spreadRows (buf : Buffer) (w : Z) (scratch : list Z)
    (n : nat) (i : Z) (page : list Z) : option (list Z) :=
  match n with
  | O => Some page
  | S n' =>
    src ← Go.slice scratch (i * w * bytesPerPixel) ((i + 1) * w * bytesPerPixel);
    page' ← Go.copyAt page (i * Width buf * bytesPerPixel) src;
    spreadRows buf w scratch n' (i + 1) page'
  end.

(** The reconciliation of a partial fetch; returns the scratch buffer and
    the page. *)
Definition reconcile (buf : Buffer) (w h : Z) (scratch page : list Z)
    : option (list Z * list Z) :=
  if (w <? Width buf) || (h <? Height buf) then
    let scratch := Go.copy scratch page in
    let page := replicate (length page) 0 in
    page' ← spreadRows buf w scratch (Z.to_nat h) 0 page;
    Some (scratch, page')
  else Some (scratch, page).

(** The variables of [main] that the capture loop owns. *)
Module Capture.
Record t := {
  i : Z;
  width : Z;            (* uint16 *)
  height : Z;           (* uint16 *)
  pix : Z;
  scratch : list Z
}.
End Capture.

(** A [[]byte] value as it travels over [ch]: a view of [buf.Data]. *)
Record Slice := {
  base : Z;
  size : Z
}.

Definition pageView (b : Buffer) (idx : Z) : Slice :=
  {| base := PageOffset b idx; size := PageSize b |}.

Definition getImageRequest (buf : Buffer) (st : Capture.t) : GetImageRequest :=
  {| reqW := fetchWidth buf (Capture.width st);
     reqH := fetchHeight buf (Capture.height st);
     reqOffset := Go.uint32 (PageOffset buf (Capture.i st)) |}.

(** [case ev := <-configureEvents]: [newPix] is the reply to
    [NewPixmapId]; [None] is its error, which ends the process. *)
Definition configureCase (st : Capture.t) (evW evH : Z) (newPix : option Z)
    : option Capture.t :=
  let '(width, height) :=
    if negb (evW =? Capture.width st) || negb (evH =? Capture.height st)
    then (evW, evH) else (Capture.width st, Capture.height st) in
  pix ← newPix;
  Some {| Capture.i := Capture.i st; Capture.width := width;
          Capture.height := height; Capture.pix := pix;
          Capture.scratch := Capture.scratch st |}.

(** The fetch: the segment after the request, and the clamped size when the
    request succeeded ([None]: the [continue] of the error path). *)
Definition fetchStep (buf : Buffer) (st : Capture.t) (reply : GetImageReply)
    : Buffer * option (Z * Z) :=
  let req := getImageRequest buf st in
  match reply with
  | FetchErr => (buf, None)
  | FetchOk data => (xshmStore buf req data, Some (reqW req, reqH req))
  end.

Definition reconcileStep (buf : Buffer) (st : Capture.t) (w h : Z)
    : option (Buffer * Capture.t) :=
  page ← Page buf (Capture.i st);
  '(scratch, page') ← reconcile buf w h (Capture.scratch st) page;
  Some (storePage buf (Capture.i st) page',
        {| Capture.i := Capture.i st; Capture.width := Capture.width st;
           Capture.height := Capture.height st; Capture.pix := Capture.pix st;
           Capture.scratch := scratch |}).

Definition cursorStep (buf : Buffer) (st : Capture.t)
    (cursor : option xfixes.GetCursorImageReply)
    (pos : option xproto.TranslateCoordinatesReply) : option Buffer :=
  page ← Page buf (Capture.i st);
  page' ← drawCursor cursor pos buf page;
  Some (storePage buf (Capture.i st) page').

(** [i = (i + 1) % 2] *)
Definition advance (st : Capture.t) : Capture.t :=
  {| Capture.i := Z.rem (Capture.i st + 1) 2; Capture.width := Capture.width st;
     Capture.height := Capture.height st; Capture.pix := Capture.pix st;
     Capture.scratch := Capture.scratch st |}.

(** What the environment supplies to one iteration of the loop. *)
Record IterEnv := {
  configure : option (Z * Z);     (* a pending ConfigureNotify: Width, Height *)
  newPix : option Z;
  fetch : GetImageReply;
  cursor : option xfixes.GetCursorImageReply;
  cursorPos : option xproto.TranslateCoordinatesReply
}.

(** How one iteration of [for { select { ... } }] ends. *)
Inductive IterResult :=
| Continue (buf : Buffer) (st : Capture.t)   (* back to the top of the loop *)
| Send (buf : Buffer) (st : Capture.t) (page : Slice)  (* at [ch <- page] *)
| Fatal                                      (* [log.Fatal] *)
| Panic.

Definition captureIter (buf : Buffer) (st : Capture.t) (env : IterEnv) : IterResult :=
  match configure env with
  | Some (evW, evH) =>
    match configureCase st evW evH (newPix env) with
    | Some st' => Continue buf st'
    | None => Fatal
    end
  | None =>
    match fetchStep buf st (fetch env) with
    | (buf, None) => Continue buf st
    | (buf, Some (w, h)) =>
      match reconcileStep buf st w h with
      | None => Panic
      | Some (buf, st) =>
        match cursorStep buf st (cursor env) (cursorPos env) with
        | None => Panic
        | Some buf => Send buf st (pageView buf (Capture.i st))
        end
      end
    end
  end.

(** The loop over a sequence of iterations, every send being received at
    once: the state it reaches, the pages it handed over, oldest first, and
    whether the process has stopped. *)
Inductive LoopStatus := Running | Stopped.

Fixpoint captureLoop (buf : Buffer) (st : Capture.t) (envs : list IterEnv)
    : LoopStatus * Buffer * Capture.t * list Slice :=
  match envs with
  | [] => (Running, buf, st, [])
  | env :: envs' =>
    match captureIter buf st env with
    | Continue buf' st' => captureLoop buf' st' envs'
    | Send buf' st' page =>
      let '(status, b, c, sent) := captureLoop buf' (advance st') envs' in
      (status, b, c, page :: sent)
    | Fatal | Panic => (Stopped, buf, st, [])
    end
  end.

(** ** The pacer *)

(** One [matroska.Cluster] as the encoder receives it. *)
Record Cluster := {
  Timecode : Z;
  Position : Z;
  SimpleBlock : list Z
}.

(** The bytes a slice value denotes when it is read: [nil] has none. *)
Definition sliceBytes (mem : list Z) (b : option Slice) : list Z :=
  match b with
  | None => []
  | Some v => take (Z.to_nat (size v)) (drop (Z.to_nat (base v)) mem)
  end.

(** The variables the pacer goroutine and [sendFrame] own, and [sink], the
    clusters handed to the encoder so far, oldest first. *)
Module Pacer.
Record t := {
  idx : Z;
  prevFrame : option Slice;
  dropped : Z;
  sink : list Cluster
}.
End Pacer.

(** [time.Second / time.Duration(fps)] for the value [fps] of the flag, a
    [uint] that the conversion reads as an [int64]; the quotient is
    truncated, and dividing by zero panics. *)
Definition frameInterval (fps : Z) : option Z :=
  let f := Go.int fps in
  if f =? 0 then None else Some (Go.int (1000000000 ÷ f)).

(** [sendFrame(b)]; [mem] is the segment at the time [append(block, b...)]
    reads it.  [e.Emit] hands the cluster to the encoder, here [sink]; a
    write error of the encoder ends the process ([log.Fatal]), so a run is
    a sequence of ticks whose clusters the encoder has accepted. *)
Definition sendFrame (fps : Z) (mem : list Z) (b : option Slice) (st : Pacer.t)
    : option Pacer.t :=
  let idx := Go.int (Pacer.idx st + 1) in
  let b := match b with None => Pacer.prevFrame st | Some _ => b end in
  let block := [129; 0; 0; 128] ++ sliceBytes mem b in
  d ← frameInterval fps;
  Some {| Pacer.idx := idx; Pacer.prevFrame := b; Pacer.dropped := Pacer.dropped st;
          Pacer.sink := Pacer.sink st ++
            [ {| Timecode := Go.uint64 (Go.int (idx * d));
                 Position := 0;
                 SimpleBlock := block |} ] |}.

(** The [select] of one tick: [recv] is the page received from [ch], or
    [None] when no sender is waiting (the [default] case).  Pages sent on
    [ch] are views of the segment, never [nil]. *)
Definition selectCase (recv : option Slice) (st : Pacer.t) : Pacer.t :=
  match recv with
  | Some _ => st
  | None =>
    {| Pacer.idx := Pacer.idx st; Pacer.prevFrame := Pacer.prevFrame st;
       Pacer.dropped := Go.int (Pacer.dropped st + 1); Pacer.sink := Pacer.sink st |}
  end.

Definition pacerTick (fps : Z) (mem : list Z) (recv : option Slice) (st : Pacer.t)
    : option Pacer.t :=
  sendFrame fps mem recv (selectCase recv st).

(** [idx := -1; var prevFrame []byte; ... dropped := 0], and the ticker:
    [time.NewTicker(d)] panics unless [d > 0]. *)
Definition pacerStart (fps : Z) : option Pacer.t :=
  d ← frameInterval fps;
  if d <=? 0 then None
  else Some {| Pacer.idx := -1; Pacer.prevFrame := None;
               Pacer.dropped := 0; Pacer.sink := [] |}.

(** A run of ticks; each tick comes with the segment as the pacer reads it
    and with what [ch] delivers. *)
Fixpoint pacerTicks (fps : Z) (ticks : list (list Z * option Slice)) (st : Pacer.t)
    : option Pacer.t :=
  match ticks with
  | [] => Some st
  | (mem, recv) :: ticks' =>
    st' ← pacerTick fps mem recv st;
    pacerTicks fps ticks' st'
  end.

Definition pacerRun (fps : Z) (ticks : list (list Z * option Slice)) : option Pacer.t :=
  st ← pacerStart fps;
  pacerTicks fps ticks st.

(** The ticks of a run at which [ch] had nothing to deliver. *)
Definition ticksWithoutFrame (ticks : list (list Z * option Slice)) : nat :=
  length (List.filter (fun t => match snd t with None => true | Some _ => false end) ticks).

(** The four bytes [sendFrame] puts in front of the frame. *)
Definition blockHeader : list Z := [129; 0; 0; 128].

(** ** The two goroutines together *)

(** The capture loop (the [for] at the end of [main]) and the pacer (the
    goroutine around the ticker) run concurrently and share the segment and
    the channel [ch := make(chan []byte)].  The channel has no buffer: a
    send completes only together with a receive.  The interleavings are
    the sequences of the moves below.  The moves of the capture loop are
    the fetch, the reconciliation, the cursor, and [i = (i + 1) % 2]
    after the send; those of the pacer are the [select] of a tick, which
    receives the page when the capture loop is blocked in the send and
    takes the [default] case otherwise, and the call of [sendFrame], which
    copies the frame out of the segment. *)

(** Where the capture loop stands. *)
Inductive CapturePC :=
| AtTop                      (* at [select] *)
| Fetched (w h : Z)          (* [GetImage] has replied *)
| Reconciled                 (* before [drawCursor] *)
| Sending                    (* blocked in [ch <- page] *)
| Sent.                      (* the send has completed, before [i = (i+1) % 2] *)

Module Sys.
Record t := {
  buf : Buffer;
  capture : Capture.t;
  pc : CapturePC;
  pacer : Pacer.t;
  (** [Some b]: the pacer has left its [select] and is about to call
      [sendFrame(b)] *)
  pending : option (option Slice)
}.
End Sys.

(** The moves of the scheduler and of the environment. *)
Inductive Event :=
| EConfigure (evW evH : Z) (newPix : option Z)
| EFetch (reply : GetImageReply)
| EReconcile
| ECursor (cursor : option xfixes.GetCursorImageReply)
          (pos : option xproto.TranslateCoordinatesReply)
| EAdvance
| ETick
| ESendFrame.

Definition is_uint16 (x : Z) : bool := (0 <=? x) && (x <? 2 ^ 16).

(** One atomic move; [None] when the move is not possible in this state or
    the process stops (panic, [log.Fatal]). *)
Definition step (fps : Z) (s : Sys.t) (e : Event) : option Sys.t :=
  let mk b c p pa pe :=
    {| Sys.buf := b; Sys.capture := c; Sys.pc := p; Sys.pacer := pa; Sys.pending := pe |} in
  match e, Sys.pc s with
  | EConfigure evW evH newPix, AtTop =>
    if is_uint16 evW && is_uint16 evH then
      c ← configureCase (Sys.capture s) evW evH newPix;
      Some (mk (Sys.buf s) c AtTop (Sys.pacer s) (Sys.pending s))
    else None
  | EFetch reply, AtTop =>
    match fetchStep (Sys.buf s) (Sys.capture s) reply with
    | (b, None) => Some (mk b (Sys.capture s) AtTop (Sys.pacer s) (Sys.pending s))
    | (b, Some (w, h)) => Some (mk b (Sys.capture s) (Fetched w h) (Sys.pacer s) (Sys.pending s))
    end
  | EReconcile, Fetched w h =>
    '(b, c) ← reconcileStep (Sys.buf s) (Sys.capture s) w h;
    Some (mk b c Reconciled (Sys.pacer s) (Sys.pending s))
  | ECursor cursor pos, Reconciled =>
    b ← cursorStep (Sys.buf s) (Sys.capture s) cursor pos;
    Some (mk b (Sys.capture s) Sending (Sys.pacer s) (Sys.pending s))
  | EAdvance, Sent =>
    Some (mk (Sys.buf s) (advance (Sys.capture s)) AtTop (Sys.pacer s) (Sys.pending s))
  | ETick, pc =>
    match Sys.pending s with
    | Some _ => None
    | None =>
      match pc with
      | Sending =>
        let b := pageView (Sys.buf s) (Capture.i (Sys.capture s)) in
        Some (mk (Sys.buf s) (Sys.capture s) Sent
                 (selectCase (Some b) (Sys.pacer s)) (Some (Some b)))
      | _ =>
        Some (mk (Sys.buf s) (Sys.capture s) pc
                 (selectCase None (Sys.pacer s)) (Some None))
      end
    end
  | ESendFrame, pc =>
    b ← Sys.pending s;
    pa ← sendFrame fps (Data (Sys.buf s)) b (Sys.pacer s);
    Some (mk (Sys.buf s) (Sys.capture s) pc pa None)
  | _, _ => None
  end.

Fixpoint run (fps : Z) (s : Sys.t) (es : list Event) : option Sys.t :=
  match es with
  | [] => Some s
  | e :: es' => s' ← step fps s e; run fps s' es'
  end.

(** The moves as a relation, one rule per move of [step]; [step_Step] below
    shows that [step] makes no other move. *)
Inductive Step (fps : Z) : Sys.t -> Event -> Sys.t -> Prop :=
| StepConfigure b c pa pe evW evH np c' :
    is_uint16 evW = true -> is_uint16 evH = true ->
    configureCase c evW evH np = Some c' ->
    Step fps (Sys.Build_t b c AtTop pa pe) (EConfigure evW evH np)
             (Sys.Build_t b c' AtTop pa pe)
| StepFetchErr b c pa pe :
    Step fps (Sys.Build_t b c AtTop pa pe) (EFetch FetchErr)
             (Sys.Build_t b c AtTop pa pe)
| StepFetchOk b c pa pe data :
    Step fps (Sys.Build_t b c AtTop pa pe) (EFetch (FetchOk data))
             (Sys.Build_t (xshmStore b (getImageRequest b c) data) c
                (Fetched (reqW (getImageRequest b c)) (reqH (getImageRequest b c))) pa pe)
| StepReconcile b c w h pa pe page scratch page' :
    Page b (Capture.i c) = Some page ->
    reconcile b w h (Capture.scratch c) page = Some (scratch, page') ->
    Step fps (Sys.Build_t b c (Fetched w h) pa pe) EReconcile
             (Sys.Build_t (storePage b (Capture.i c) page')
                {| Capture.i := Capture.i c; Capture.width := Capture.width c;
                   Capture.height := Capture.height c; Capture.pix := Capture.pix c;
                   Capture.scratch := scratch |}
                Reconciled pa pe)
| StepCursor b c pa pe cur pos page page' :
    Page b (Capture.i c) = Some page ->
    drawCursor cur pos b page = Some page' ->
    Step fps (Sys.Build_t b c Reconciled pa pe) (ECursor cur pos)
             (Sys.Build_t (storePage b (Capture.i c) page') c Sending pa pe)
| StepAdvance b c pa pe :
    Step fps (Sys.Build_t b c Sent pa pe) EAdvance
             (Sys.Build_t b (advance c) AtTop pa pe)
| StepReceive b c pa :
    Step fps (Sys.Build_t b c Sending pa None) ETick
             (Sys.Build_t b c Sent pa (Some (Some (pageView b (Capture.i c)))))
| StepDefault b c pc pa :
    pc <> Sending ->
    Step fps (Sys.Build_t b c pc pa None) ETick
             (Sys.Build_t b c pc (selectCase None pa) (Some None))
| StepSendFrame b c pc pa x pa' :
    sendFrame fps (Data b) x pa = Some pa' ->
    Step fps (Sys.Build_t b c pc pa (Some x)) ESendFrame
             (Sys.Build_t b c pc pa' None).

(** [buf, err := NewBuffer(int(width), int(height), 2)] when the segment
    could be created and attached ([main] stops otherwise): [data] are the
    [width*height*pages*4] bytes of the segment, [shmID] its identifier. *)
Definition NewBuffer (width height pages : Z) (data : list Z) (shmID : Z) : Buffer :=
  {| Width := width; Height := height; Pages := pages; Data := data; ShmID := shmID |}.

(** The state of [main] when the two loops start. *)
Definition initial (width height : Z) (data : list Z) (shmID pix0 : Z) : Sys.t :=
  let b := NewBuffer width height 2 data shmID in
  {| Sys.buf := b;
     Sys.capture :=
       {| Capture.i := 0; Capture.width := width; Capture.height := height;
          Capture.pix := pix0;
          Capture.scratch := replicate (Z.to_nat (PageSize b)) 0 |};
     Sys.pc := AtTop;
     Sys.pacer := {| Pacer.idx := -1; Pacer.prevFrame := None;
                     Pacer.dropped := 0; Pacer.sink := [] |};
     Sys.pending := None |}.

(** The page the pacer holds: the one it received last. *)
Definition held (s : Sys.t) : option Slice :=
  match Sys.pending s with
  | Some (Some b) => Some b
  | _ => Pacer.prevFrame (Sys.pacer s)
  end.

(** Pages completed by the capture loop and pages received by the pacer
    along a run, read off the moves. *)
Fixpoint counts (fps : Z) (s : Sys.t) (es : list Event) : nat * nat :=
  match es with
  | [] => (0%nat, 0%nat)
  | e :: es' =>
    match step fps s e with
    | None => (0%nat, 0%nat)
    | Some s' =>
      let '(p, c) := counts fps s' es' in
      match e, Sys.pc s with
      | ECursor _ _, Reconciled => (S p, c)
      | ETick, Sending => (p, S c)
      | _, _ => (p, c)
      end
    end
  end.

(** ** Notions the properties are stated with *)

(** The alpha and colour bytes of an ARGB sample. *)
Definition srcAlpha (p : Z) : Z := p ≫ 24.
Definition srcChannel (p : Z) (k : Z) : Z := Go.byte (p ≫ (8 * k)).

(** [outChannel = ((srcAlpha+1)*srcChannel + (256-srcAlpha)*dstChannel) >> 8] *)
Definition blendFormula (a src dst : Z) : Z :=
  ((a + 1) * src + (256 - a) * dst) ≫ 8.

(** What [blendPixel] leaves in byte [k] of a pixel that held [d] there. *)
Definition blendByte (p : Z) (k : Z) (d : Z) : Z :=
  let alpha := Go.uint32 (p ≫ 24 + 1) in
  let invAlpha := Go.uint32 (Go.uint32 (256 - p ≫ 24)) in
  if k =? 3 then 255
  else blendChannel alpha invAlpha (Go.byte (p ≫ (8 * k))) d.

(** The number of samples the loop visits before its [break]: the index of
    the first sample, from [i] on, whose destination is off the page. *)
Fixpoint visited (cursor : xfixes.GetCursorImageReply)
    (pos : xproto.TranslateCoordinatesReply) (buf : Buffer)
    (i : Z) (img : list Z) : nat :=
  match img with
  | [] => 0%nat
  | _ :: img' =>
    if offScreen buf (cursorRow cursor pos i) (cursorCol cursor pos i) then 0%nat
    else S (visited cursor pos buf (i + 1) img')
  end.

(** Byte offset in the page of the destination of sample [i]. *)
Definition cursorOffset (cursor : xfixes.GetCursorImageReply)
    (pos : xproto.TranslateCoordinatesReply) (buf : Buffer) (i : Z) : Z :=
  pixelOffset buf (cursorRow cursor pos i) (cursorCol cursor pos i).

Definition is_uint32 (x : Z) : Prop := 0 <= x < 2 ^ 32.

(** The cursor reply with its image replaced. *)
Definition withImage (cursor : xfixes.GetCursorImageReply) (img : list Z)
    : xfixes.GetCursorImageReply :=
  {| xfixes.X := xfixes.X cursor; xfixes.Y := xfixes.Y cursor;
     xfixes.Width := xfixes.Width cursor; xfixes.Height := xfixes.Height cursor;
     xfixes.Xhot := xfixes.Xhot cursor; xfixes.Yhot := xfixes.Yhot cursor;
     xfixes.CursorImage := img |}.

(** ** Small concrete inputs *)

(** A store of two pages of 2 x 2 pixels, every byte 7. *)
Definition smallBuf : Buffer := NewBuffer 2 2 2 (replicate 32 7) 0.

Definition smallPage : list Z := replicate 16 7.

(** A 2 x 2 cursor with its hotspot at (1, 0): an opaque blue sample, a
    transparent red one, a half transparent one and a dark one. *)
Definition smallCursor : xfixes.GetCursorImageReply :=
  {| xfixes.X := 0; xfixes.Y := 0; xfixes.Width := 2; xfixes.Height := 2;
     xfixes.Xhot := 1; xfixes.Yhot := 0;
     xfixes.CursorImage := [4278190335; 16711680; 2147483903; 5] |}.

(** The same samples with the hotspot at (1, 1). *)
Definition lowHotCursor : xfixes.GetCursorImageReply :=
  {| xfixes.X := 0; xfixes.Y := 0; xfixes.Width := 2; xfixes.Height := 2;
     xfixes.Xhot := 1; xfixes.Yhot := 1;
     xfixes.CursorImage := [4278190335; 16711680; 2147483903; 5] |}.

Definition at_ (x y : Z) : xproto.TranslateCoordinatesReply :=
  {| xproto.DstX := x; xproto.DstY := y |}.

(** The capture loop on its second page, the window grown to 1000 x 800. *)
Definition wideWindow : Capture.t :=
  {| Capture.i := 1; Capture.width := 1000; Capture.height := 800;
     Capture.pix := 0; Capture.scratch := [] |}.

(** Three ticks at 60 frames per second over a segment of four bytes: none,
    a page of two bytes, none. *)
Definition threeTicks : list (list Z * option Slice) :=
  [([1; 2; 3; 4], None);
   ([1; 2; 3; 4], Some {| base := 0; size := 2 |});
   ([1; 2; 3; 4], None)].

(** The capture loop as [main] starts it on [smallBuf], and four
    iterations: a fetch of the whole window, a resize to 1 x 1, a failed
    fetch, and a fetch of the 1 x 1 window. *)
Definition smallCapture : Capture.t :=
  {| Capture.i := 0; Capture.width := 2; Capture.height := 2;
     Capture.pix := 0; Capture.scratch := replicate 16 0 |}.

(** The loop on its second page after the window has shrunk to 1 x 1. *)
Definition wideWindowSmall : Capture.t :=
  {| Capture.i := 1; Capture.width := 1; Capture.height := 1;
     Capture.pix := 0; Capture.scratch := replicate 16 0 |}.

Definition fetchOf (data : list Z) : IterEnv :=
  {| configure := None; newPix := None; fetch := FetchOk data;
     cursor := None; cursorPos := None |}.

Definition someIterations : list IterEnv :=
  [ fetchOf (Z.of_nat <$> seq 1 16);
    {| configure := Some (1, 1); newPix := Some 1; fetch := FetchErr;
       cursor := None; cursorPos := None |};
    {| configure := None; newPix := None; fetch := FetchErr;
       cursor := None; cursorPos := None |};
    fetchOf [9; 9; 9; 9] ].

(** ** The invariant of the two loops *)

(** Pages the capture loop has completed and the pacer has not received. *)
Definition ahead (s : Sys.t) : nat :=
  match Sys.pc s with Sending => 1%nat | _ => 0%nat end.

(** The slot of the page the pacer received last: the current slot of the
    capture loop between the send and [i = (i + 1) % 2], the other slot
    from then on. *)
Definition heldSlot (s : Sys.t) : Z :=
  match Sys.pc s with
  | Sent => Capture.i (Sys.capture s)
  | _ => 1 - Capture.i (Sys.capture s)
  end.

(** What holds in every state the two loops reach from [initial W H ..]. *)
Definition Inv (W H : Z) (s : Sys.t) : Prop :=
  Width (Sys.buf s) = W /\ Height (Sys.buf s) = H /\
  Go.len (Data (Sys.buf s)) = 2 * (W * H * 4) /\
  (Capture.i (Sys.capture s) = 0 \/ Capture.i (Sys.capture s) = 1) /\
  0 <= Capture.width (Sys.capture s) < 2 ^ 16 /\
  0 <= Capture.height (Sys.capture s) < 2 ^ 16 /\
  (held s = None \/
   held s = Some {| base := W * H * 4 * heldSlot s; size := W * H * 4 |}).

(** An interleaving over a store of two pages of one pixel: the pacer
    ticks before any page exists, the capture loop completes page 0; then
    the page is received, and the loop goes on to page 1 while the pacer
    emits. *)
Definition firstMoves : list Event :=
  [ETick; ESendFrame; EFetch (FetchOk [9; 9; 9; 9]); EReconcile; ECursor None None].

Definition nextMoves : list Event :=
  [ETick; EAdvance; EFetch (FetchOk [8; 8; 8; 8]); ESendFrame; EReconcile].

(** The capture loop completes a page from the image [img] and the pacer
    receives it; then the loop goes on to the other slot and fetches
    [img]. *)
Definition handoffMoves (img : list Z) : list Event :=
  [EFetch (FetchOk img); EReconcile; ECursor None None; ETick].

Definition nextFetch (img : list Z) : list Event :=
  [EAdvance; EFetch (FetchOk img)].

(** A window of 40000 x 40000 pixels: a page has 6400000000 bytes, more
    than a [uint32] counts.  The segment of two pages, and two images of
    the window, every byte 9 and every byte 8. *)
Definition hugeSegment : list Z := replicate (Z.to_nat 12800000000) 0.
Definition firstImage : list Z := replicate (Z.to_nat 6400000000) 9.
Definition secondImage : list Z := replicate (Z.to_nat 6400000000) 8.

(** Unless the pacer is about to emit a page it has just received, the
    block it emitted last holds the bytes the remembered frame has now. *)
Definition lastBlockCurrent (s : Sys.t) : Prop :=
  match Sys.pending s with
  | Some (Some _) => True
  | _ =>
    forall c, last (Pacer.sink (Sys.pacer s)) = Some c ->
      SimpleBlock c
      = blockHeader ++ sliceBytes (Data (Sys.buf s)) (Pacer.prevFrame (Sys.pacer s))
  end.

(** ** The codec header *)

(** Two's complement reading of the low 32 bits: [int32(x)]. *)
Definition toInt32 (x : Z) : Z := (x + 2 ^ 31) mod 2 ^ 32 - 2 ^ 31.

Module BitmapInfoHeader.
Record t := {
  Size : Z;               (* uint32 *)
  Width : Z;              (* int32 *)
  Height : Z;             (* int32 *)
  Planes : Z;             (* uint16 *)
  BitCount : Z;           (* uint16 *)
  Compression : list Z;   (* [4]byte *)
  SizeImage : Z;          (* uint32 *)
  XPelsPerMeter : Z;      (* int32 *)
  YPelsPerMeter : Z;      (* int32 *)
  ClrUsed : Z;            (* uint32 *)
  ClrImportant : Z        (* uint32 *)
}.
End BitmapInfoHeader.

(** [bmp := BitmapInfoHeader{Width: int32(width), Height: int32(-height),
    Planes: 1, BitCount: 32}] for the [uint16] values [width] and [height]
    of the geometry reply: the negation is the one of [uint16], and the
    fields that are not named are zero. *)
Definition bitmapInfoHeader (width height : Z) : BitmapInfoHeader.t :=
  {| BitmapInfoHeader.Size := 0;
     BitmapInfoHeader.Width := toInt32 width;
     BitmapInfoHeader.Height := toInt32 (Go.uint16 (- height));
     BitmapInfoHeader.Planes := 1;
     BitmapInfoHeader.BitCount := 32;
     BitmapInfoHeader.Compression := [0; 0; 0; 0];
     BitmapInfoHeader.SizeImage := 0;
     BitmapInfoHeader.XPelsPerMeter := 0;
     BitmapInfoHeader.YPelsPerMeter := 0;
     BitmapInfoHeader.ClrUsed := 0;
     BitmapInfoHeader.ClrImportant := 0 |}.

(** The [n] bytes of a fixed-size integer, least significant first. *)
Fixpoint littleEndian (n : nat) (x : Z) : list Z :=
  match n with
  | O => []
  | S n' => x mod 256 :: littleEndian n' (x / 256)
  end.

(** [binary.Write(codec, binary.LittleEndian, bmp)]: the fields in the
    order of the declaration, each in its own width, without padding. *)
Definition binaryWrite (h : BitmapInfoHeader.t) : list Z :=
  littleEndian 4 (BitmapInfoHeader.Size h)
  ++ littleEndian 4 (BitmapInfoHeader.Width h)
  ++ littleEndian 4 (BitmapInfoHeader.Height h)
  ++ littleEndian 2 (BitmapInfoHeader.Planes h)
  ++ littleEndian 2 (BitmapInfoHeader.BitCount h)
  ++ BitmapInfoHeader.Compression h
  ++ littleEndian 4 (BitmapInfoHeader.SizeImage h)
  ++ littleEndian 4 (BitmapInfoHeader.XPelsPerMeter h)
  ++ littleEndian 4 (BitmapInfoHeader.YPelsPerMeter h)
  ++ littleEndian 4 (BitmapInfoHeader.ClrUsed h)
  ++ littleEndian 4 (BitmapInfoHeader.ClrImportant h).

(** [codec.Bytes()], the value of [matroska.CodecPrivate]. *)
Definition codecPrivate (width height : Z) : list Z :=
  binaryWrite (bitmapInfoHeader width height).

(** The integer a reader finds in little-endian bytes, unsigned and as an
    [int32]. *)
Fixpoint leValue (bs : list Z) : Z :=
  match bs with
  | [] => 0
  | b :: bs' => b + 256 * leValue bs'
  end.

Definition leInt32 (bs : list Z) : Z := toInt32 (leValue bs).

(** ** Well-formed stores *)

(** A store as [NewBuffer] makes it: sizes that come from [uint16] values
    and a page count, and a segment of [width*height*pages*4] bytes. *)
Definition wfBuffer (b : Buffer) : Prop :=
  0 <= Width b /\ 0 <= Height b /\ 0 <= Pages b /\
  Go.len (Data b) = Width b * Height b * Pages b * bytesPerPixel.

(** The capture loop in front of a store of two pages. *)
Definition wfCapture (b : Buffer) (st : Capture.t) : Prop :=
  (Capture.i st = 0 \/ Capture.i st = 1) /\
  0 <= Capture.width st < 2 ^ 16 /\ 0 <= Capture.height st < 2 ^ 16 /\
  Go.len (Capture.scratch st) = PageSize b.

(** ** The frames the encoder receives *)

(** A slice value of the pacer: [nil], or the view of one of the two
    pages of a store made for a window of [W] x [H]. *)
Definition isPageView (W H : Z) (v : option Slice) : Prop :=
  v = None \/
  v = Some {| base := 0; size := W * H * 4 |} \/
  v = Some {| base := W * H * 4; size := W * H * 4 |}.

(** What holds of the pacer and of the clusters it has emitted in every
    state the two loops reach: each block is the header followed by no
    byte or by one page; blocks without a frame exist only as long as no
    frame is remembered; and the blocks never get shorter. *)
Definition wholeFrames (W H : Z) (s : Sys.t) : Prop :=
  isPageView W H (Pacer.prevFrame (Sys.pacer s)) /\
  (forall x, Sys.pending s = Some x -> isPageView W H x) /\
  (forall (n : nat) c, Pacer.sink (Sys.pacer s) !! n = Some c ->
     exists frame, SimpleBlock c = blockHeader ++ frame /\
       (frame = [] \/ Z.of_nat (length frame) = W * H * 4)) /\
  (Pacer.prevFrame (Sys.pacer s) = None ->
   forall (n : nat) c, Pacer.sink (Sys.pacer s) !! n = Some c ->
     SimpleBlock c = blockHeader) /\
  (forall (m n : nat) c c', (m <= n)%nat ->
     Pacer.sink (Sys.pacer s) !! m = Some c -> Pacer.sink (Sys.pacer s) !! n = Some c' ->
     (length (SimpleBlock c) <= length (SimpleBlock c'))%nat).

(** The calls of [sendFrame] among the moves of a run. *)
Definition sendFrameMoves (es : list Event) : nat :=
  length (List.filter (fun e => match e with ESendFrame => true | _ => false end) es).

(** ** Proof automation *)

(** Case analysis of a move [HS : Step fps s e s'], one goal per rule, in
    the order of the rules. *)
Ltac step_rules HS :=
  destruct HS as [b c pa pe evW evH np c' EW EH Ec
                 | b c pa pe
                 | b c pa pe data
                 | b c w h pa pe page scratch page' Epage Erec
                 | b c pa pe cur pos page page' Epage Ecur
                 | b c pa pe
                 | b c pa
                 | b c pc pa Hidle
                 | b c pc pa x pa' Esend];
  cbn [Sys.pc Sys.buf Sys.capture Sys.pacer Sys.pending] in *.

(** * Properties *)

(** ** Slices *)

Lemma index_Some (s : list Z) (k : Z) :
  0 <= k < Go.len s -> Go.index s k = s !! Z.to_nat k.
Proof.
  intros H. unfold Go.index.
  destruct (Z.leb_spec 0 k); [|lia]. destruct (Z.ltb_spec k (Go.len s)); [|lia].
  reflexivity.
Qed.

Lemma store_Some (s : list Z) (k v : Z) :
  0 <= k < Go.len s -> Go.store s k v = Some (<[Z.to_nat k := v]> s).
Proof.
  intros H. unfold Go.store.
  destruct (Z.leb_spec 0 k); [|lia]. destruct (Z.ltb_spec k (Go.len s)); [|lia].
  reflexivity.
Qed.

Lemma len_insert (s : list Z) (n : nat) (v : Z) : Go.len (<[n := v]> s) = Go.len s.
Proof. unfold Go.len. by rewrite length_insert. Qed.

Lemma lookup_lt_len (s : list Z) (k : Z) :
  0 <= k < Go.len s -> exists d, s !! Z.to_nat k = Some d.
Proof.
  intros H. apply lookup_lt_is_Some_2. unfold Go.len in H. lia.
Qed.

(** ** The blend *)

Lemma shiftr24_range (p : Z) : is_uint32 p -> 0 <= p ≫ 24 < 256.
Proof.
  intros [H0 H1]. rewrite Z.shiftr_div_pow2 by lia. split.
  - apply Z.div_pos; lia.
  - apply Z.div_lt_upper_bound; lia.
Qed.

Lemma byte_range (x : Z) : 0 <= Go.byte x < 256.
Proof. unfold Go.byte. change (2 ^ 8) with 256. apply Z.mod_pos_bound. lia. Qed.

Lemma uint32_small (x : Z) : 0 <= x < 2 ^ 32 -> Go.uint32 x = x.
Proof. intros H. unfold Go.uint32. apply Z.mod_small. exact H. Qed.

Lemma byte_small (x : Z) : 0 <= x < 256 -> Go.byte x = x.
Proof. intros H. unfold Go.byte. apply Z.mod_small. change (2 ^ 8) with 256. exact H. Qed.

(** No product, sum or conversion of the blend wraps: the [uint32]
    expression of the source computes the formula on the integers. *)
Lemma blendChannel_formula (p c d : Z) :
  is_uint32 p -> 0 <= c < 256 -> Go.is_byte d ->
  blendChannel (Go.uint32 (p ≫ 24 + 1)) (Go.uint32 (Go.uint32 (256 - p ≫ 24))) c d
  = blendFormula (srcAlpha p) c d.
Proof.
  intros Hp Hc Hd. pose proof (shiftr24_range p Hp) as Ha.
  unfold blendChannel, blendFormula, srcAlpha, Go.is_byte in *.
  set (a := p ≫ 24) in *.
  rewrite (uint32_small (a + 1)) by lia.
  rewrite (uint32_small (256 - a)) by lia.
  rewrite (uint32_small (256 - a)) by lia.
  rewrite (uint32_small c) by lia.
  rewrite (uint32_small d) by lia.
  assert (0 <= (a + 1) * c <= 256 * 255) by nia.
  assert (0 <= (256 - a) * d <= 256 * 255) by nia.
  assert (0 <= (a + 1) * c + (256 - a) * d <= 257 * 255) by nia.
  rewrite (uint32_small ((a + 1) * c)) by lia.
  rewrite (uint32_small ((256 - a) * d)) by lia.
  rewrite (uint32_small _) by lia.
  apply byte_small.
  rewrite Z.shiftr_div_pow2 by lia. split.
  - apply Z.div_pos; lia.
  - apply Z.div_lt_upper_bound; lia.
Qed.

Lemma blendFormula_opaque (c d : Z) :
  0 <= c < 256 -> Go.is_byte d -> blendFormula 255 c d = c.
Proof.
  intros Hc Hd. unfold blendFormula, Go.is_byte in *.
  rewrite Z.shiftr_div_pow2 by lia. change (2 ^ 8) with 256.
  replace ((255 + 1) * c + (256 - 255) * d) with (c * 256 + d) by lia.
  rewrite Z.div_add_l by lia. rewrite (Z.div_small d) by lia. lia.
Qed.

Lemma blendFormula_transparent (c d : Z) :
  0 <= c < 256 -> Go.is_byte d ->
  blendFormula 0 c d = (1 * c + 256 * d) ≫ 8 /\ blendFormula 0 c d = d.
Proof.
  intros Hc Hd. unfold blendFormula, Go.is_byte in *. split.
  - reflexivity.
  - rewrite Z.shiftr_div_pow2 by lia. change (2 ^ 8) with 256.
    replace ((0 + 1) * c + (256 - 0) * d) with (c + d * 256) by lia.
    rewrite Z.div_add by lia. rewrite (Z.div_small c) by lia. lia.
Qed.

Lemma blendByte_formula (p k d : Z) :
  is_uint32 p -> 0 <= k < 3 -> Go.is_byte d ->
  blendByte p k d = blendFormula (srcAlpha p) (srcChannel p k) d.
Proof.
  intros Hp Hk Hd. unfold blendByte.
  destruct (Z.eqb_spec k 3); [lia|].
  apply blendChannel_formula; auto. apply byte_range.
Qed.

(** ** One pixel *)

Lemma blendPixel_Some (page : list Z) (off p : Z) :
  0 <= off -> off + 3 < Go.len page ->
  exists q, blendPixel page off p = Some q /\ length q = length page /\
    (forall n : nat, ~ (off <= Z.of_nat n < off + 4) -> q !! n = page !! n) /\
    (forall k, 0 <= k < 4 ->
       q !! Z.to_nat (off + k) = blendByte p k <$> page !! Z.to_nat (off + k)).
Proof.
  intros H0 H3. unfold blendPixel.
  destruct (lookup_lt_len page (off + 2) ltac:(lia)) as [d2 Hd2].
  destruct (lookup_lt_len page (off + 1) ltac:(lia)) as [d1 Hd1].
  destruct (lookup_lt_len page (off + 0) ltac:(lia)) as [d0 Hd0].
  rewrite store_Some by lia. cbn [mbind option_bind].
  rewrite index_Some by (rewrite len_insert; lia).
  rewrite list_lookup_insert_ne by lia. rewrite Hd2. cbn [mbind option_bind].
  rewrite store_Some by (rewrite len_insert; lia). cbn [mbind option_bind].
  rewrite index_Some by (rewrite !len_insert; lia).
  rewrite !list_lookup_insert_ne by lia. rewrite Hd1. cbn [mbind option_bind].
  rewrite store_Some by (rewrite !len_insert; lia). cbn [mbind option_bind].
  rewrite index_Some by (rewrite !len_insert; lia).
  rewrite !list_lookup_insert_ne by lia. rewrite Hd0. cbn [mbind option_bind].
  rewrite store_Some by (rewrite !len_insert; lia).
  eexists. split; [reflexivity|]. split; [by rewrite !length_insert|]. split.
  - intros n Hn. rewrite !list_lookup_insert_ne by lia. reflexivity.
  - intros k Hk. unfold Go.len in H3.
    assert (k = 0 \/ k = 1 \/ k = 2 \/ k = 3) as [-> | [-> | [-> | ->]]] by lia.
    + rewrite list_lookup_insert_eq by (rewrite !length_insert; lia).
      rewrite Hd0. reflexivity.
    + rewrite list_lookup_insert_ne by lia.
      rewrite list_lookup_insert_eq by (rewrite !length_insert; lia).
      rewrite Hd1. reflexivity.
    + rewrite !(list_lookup_insert_ne _ (Z.to_nat (off + 0))) by lia.
      rewrite !(list_lookup_insert_ne _ (Z.to_nat (off + 1))) by lia.
      rewrite list_lookup_insert_eq by (rewrite !length_insert; lia).
      rewrite Hd2. reflexivity.
    + rewrite !(list_lookup_insert_ne _ (Z.to_nat (off + 0))) by lia.
      rewrite !(list_lookup_insert_ne _ (Z.to_nat (off + 1))) by lia.
      rewrite !(list_lookup_insert_ne _ (Z.to_nat (off + 2))) by lia.
      rewrite list_lookup_insert_eq by lia.
      destruct (lookup_lt_len page (off + 3) ltac:(unfold Go.len; lia)) as [d3 ->].
      reflexivity.
Qed.

(** ** Geometry of the cursor's destination *)

Lemma offScreen_false (buf : Buffer) (row col : Z) :
  offScreen buf row col = false <->
  0 <= row < Height buf /\ 0 <= col < Width buf.
Proof.
  unfold offScreen. rewrite !orb_false_iff.
  rewrite Z.geb_leb, Z.geb_leb, !Z.leb_gt, !Z.ltb_ge. lia.
Qed.

Lemma pixelOffset_bounds (buf : Buffer) (row col : Z) :
  offScreen buf row col = false ->
  0 <= pixelOffset buf row col /\ pixelOffset buf row col + 3 < PageSize buf.
Proof.
  rewrite offScreen_false. intros [Hr Hc].
  unfold pixelOffset, PageSize, bytesPerPixel. split; [nia|].
  assert (row * Width buf + col < Height buf * Width buf) by nia.
  lia.
Qed.

(** Samples with different indices land on different pixels of the page. *)
Lemma cursorOffset_disjoint (cursor : xfixes.GetCursorImageReply)
    (pos : xproto.TranslateCoordinatesReply) (buf : Buffer) (a b k k' : Z) :
  0 < xfixes.Width cursor -> 0 <= a -> 0 <= b -> a <> b ->
  offScreen buf (cursorRow cursor pos a) (cursorCol cursor pos a) = false ->
  offScreen buf (cursorRow cursor pos b) (cursorCol cursor pos b) = false ->
  0 <= k < 4 -> 0 <= k' < 4 ->
  cursorOffset cursor pos buf a + k <> cursorOffset cursor pos buf b + k'.
Proof.
  intros Hcw Ha Hb Hab Hina Hinb Hk Hk' Heq.
  apply offScreen_false in Hina as [Hra Hca].
  apply offScreen_false in Hinb as [Hrb Hcb].
  unfold cursorOffset, pixelOffset, bytesPerPixel in Heq.
  unfold cursorRow, cursorCol in *.
  rewrite !Z.quot_div_nonneg in * by lia.
  rewrite !Z.rem_mod_nonneg in * by lia.
  set (cw := xfixes.Width cursor) in *.
  pose proof (Z.div_mod a cw ltac:(lia)) as Da.
  pose proof (Z.div_mod b cw ltac:(lia)) as Db.
  set (ra := a / cw) in *. set (rb := b / cw) in *.
  set (ca := a mod cw) in *. set (cb := b mod cw) in *.
  set (dy := xproto.DstY pos - xfixes.Yhot cursor) in *.
  set (dx := xproto.DstX pos - xfixes.Xhot cursor) in *.
  assert (Hlin : (ra + xproto.DstY pos - xfixes.Yhot cursor) * Width buf
                 + (ca + xproto.DstX pos - xfixes.Xhot cursor)
               = (rb + xproto.DstY pos - xfixes.Yhot cursor) * Width buf
                 + (cb + xproto.DstX pos - xfixes.Xhot cursor)) by lia.
  assert (Hrow : ra = rb) by nia.
  subst ra. rewrite Hrow in *.
  assert (ca = cb) by lia.
  lia.
Qed.

Lemma visited_le (cursor : xfixes.GetCursorImageReply)
    (pos : xproto.TranslateCoordinatesReply) (buf : Buffer) (img : list Z) :
  forall i, (visited cursor pos buf i img <= length img)%nat.
Proof.
  induction img as [|p img IH]; intros i; cbn [visited length]; [lia|].
  destruct (offScreen _ _ _); [lia|]. specialize (IH (i + 1)). lia.
Qed.

(** Every sample before the break has its destination on the page, and the
    sample at the break, when there is one, has not. *)
Lemma visited_onPage (cursor : xfixes.GetCursorImageReply)
    (pos : xproto.TranslateCoordinatesReply) (buf : Buffer) (img : list Z) :
  forall i (j : nat), (j < visited cursor pos buf i img)%nat ->
    offScreen buf (cursorRow cursor pos (i + Z.of_nat j))
                  (cursorCol cursor pos (i + Z.of_nat j)) = false.
Proof.
  induction img as [|p img IH]; intros i j Hj; cbn [visited] in Hj; [lia|].
  destruct (offScreen buf (cursorRow cursor pos i) (cursorCol cursor pos i)) eqn:E; [lia|].
  destruct j as [|j].
  - replace (i + Z.of_nat 0) with i by lia. exact E.
  - replace (i + Z.of_nat (S j)) with (i + 1 + Z.of_nat j) by lia.
    apply IH. lia.
Qed.

Lemma visited_break (cursor : xfixes.GetCursorImageReply)
    (pos : xproto.TranslateCoordinatesReply) (buf : Buffer) (img : list Z) :
  forall i, (visited cursor pos buf i img < length img)%nat ->
    offScreen buf
      (cursorRow cursor pos (i + Z.of_nat (visited cursor pos buf i img)))
      (cursorCol cursor pos (i + Z.of_nat (visited cursor pos buf i img))) = true.
Proof.
  induction img as [|p img IH]; intros i Hlt; cbn [visited length] in *; [lia|].
  destruct (offScreen buf (cursorRow cursor pos i) (cursorCol cursor pos i)) eqn:E.
  - replace (i + Z.of_nat 0) with i by lia. exact E.
  - replace (i + Z.of_nat (S (visited cursor pos buf (i + 1) img)))
      with (i + 1 + Z.of_nat (visited cursor pos buf (i + 1) img)) by lia.
    apply IH. lia.
Qed.

(** ** The loop of [drawCursor] *)

(** The loop returns; it changes the bytes of the destinations of the
    visited samples, each by one blend of what the page held, and nothing
    else. *)
Lemma cursorLoop_spec (cursor : xfixes.GetCursorImageReply)
    (pos : xproto.TranslateCoordinatesReply) (buf : Buffer) :
  0 < xfixes.Width cursor ->
  forall (img : list Z) (i : Z) (page : list Z),
    0 <= i -> Go.len page = PageSize buf ->
    exists page',
      cursorLoop cursor pos buf i img page = Some page' /\
      length page' = length page /\
      (forall n : nat,
         (forall j : nat, (j < visited cursor pos buf i img)%nat ->
            ~ (cursorOffset cursor pos buf (i + Z.of_nat j) <= Z.of_nat n
               < cursorOffset cursor pos buf (i + Z.of_nat j) + 4)) ->
         page' !! n = page !! n) /\
      (forall (j : nat) (p : Z),
         (j < visited cursor pos buf i img)%nat -> img !! j = Some p ->
         forall k, 0 <= k < 4 ->
           page' !! Z.to_nat (cursorOffset cursor pos buf (i + Z.of_nat j) + k)
           = blendByte p k
               <$> page !! Z.to_nat (cursorOffset cursor pos buf (i + Z.of_nat j) + k)).
Proof.
  intros Hcw. induction img as [|p img IH]; intros i page Hi Hlen.
  - exists page. cbn [cursorLoop visited]. repeat split; auto; intros; lia.
  - cbn [cursorLoop].
    destruct (Z.eqb_spec (xfixes.Width cursor) 0) as [E0|_]; [lia|].
    pose proof (visited_onPage cursor pos buf (p :: img) i) as Hon.
    cbn [visited] in *.
    destruct (offScreen buf (cursorRow cursor pos i) (cursorCol cursor pos i)) eqn:E.
    { exists page. repeat split; auto; intros; lia. }
    destruct (pixelOffset_bounds _ _ _ E) as [Hlo Hhi].
    destruct (blendPixel_Some page (pixelOffset buf (cursorRow cursor pos i)
                (cursorCol cursor pos i)) p Hlo ltac:(lia))
      as (q & Hq & Hqlen & Hqframe & Hqpix).
    rewrite Hq. cbn [mbind option_bind].
    destruct (IH (i + 1) q ltac:(lia) ltac:(unfold Go.len in *; lia))
      as (page' & Hrun & Hlen' & Hframe & Hpix).
    exists page'. split; [exact Hrun|]. split; [lia|].
    assert (Hsep : forall (j : nat) k k',
              (j < visited cursor pos buf (i + 1) img)%nat ->
              0 <= k < 4 -> 0 <= k' < 4 ->
              cursorOffset cursor pos buf i + k
              <> cursorOffset cursor pos buf (i + 1 + Z.of_nat j) + k').
    { intros j k k' Hj Hk Hk'.
      apply cursorOffset_disjoint; auto; try lia.
      replace (i + 1 + Z.of_nat j) with (i + Z.of_nat (S j)) by lia.
      apply Hon. lia. }
    split.
    + intros n Hn. rewrite Hframe.
      * apply Hqframe. specialize (Hn 0%nat ltac:(lia)).
        replace (i + Z.of_nat 0) with i in Hn by lia. exact Hn.
      * intros j Hj. specialize (Hn (S j) ltac:(lia)).
        replace (i + Z.of_nat (S j)) with (i + 1 + Z.of_nat j) in Hn by lia.
        exact Hn.
    + intros j p' Hj Hp' k Hk. destruct j as [|j].
      * replace (i + Z.of_nat 0) with i by lia.
        cbn in Hp'. injection Hp' as <-.
        rewrite Hframe.
        -- apply Hqpix. exact Hk.
        -- intros j Hj' Hin.
           fold (cursorOffset cursor pos buf i) in Hlo.
           apply (Hsep j k (Z.of_nat (Z.to_nat (cursorOffset cursor pos buf i + k))
                            - cursorOffset cursor pos buf (i + 1 + Z.of_nat j)));
             unfold cursorOffset in *; lia.
      * replace (i + Z.of_nat (S j)) with (i + 1 + Z.of_nat j) by lia.
        cbn in Hp'.
        rewrite (Hpix j p' ltac:(lia) Hp' k Hk).
        f_equal. apply Hqframe.
        pose proof (Hon (S j) ltac:(lia)) as Hj'.
        replace (i + Z.of_nat (S j)) with (i + 1 + Z.of_nat j) in Hj' by lia.
        destruct (pixelOffset_bounds _ _ _ Hj') as [Hlo' _].
        fold (cursorOffset cursor pos buf (i + 1 + Z.of_nat j)) in Hlo'.
        intros Hin.
        apply (Hsep j (Z.of_nat (Z.to_nat (cursorOffset cursor pos buf (i + 1 + Z.of_nat j) + k))
                       - cursorOffset cursor pos buf i) k);
          unfold cursorOffset in *; lia.
Qed.

Lemma cursorLoop_take (cursor : xfixes.GetCursorImageReply)
    (pos : xproto.TranslateCoordinatesReply) (buf : Buffer) :
  0 < xfixes.Width cursor ->
  forall (img : list Z) (i : Z) (page : list Z),
    cursorLoop cursor pos buf i img page
    = cursorLoop cursor pos buf i (take (visited cursor pos buf i img) img) page.
Proof.
  intros Hcw. induction img as [|p img IH]; intros i page; [reflexivity|].
  cbn [cursorLoop visited].
  destruct (Z.eqb_spec (xfixes.Width cursor) 0) as [E0|_]; [lia|].
  destruct (offScreen buf (cursorRow cursor pos i) (cursorCol cursor pos i)) eqn:E.
  - reflexivity.
  - cbn [take cursorLoop].
    destruct (Z.eqb_spec (xfixes.Width cursor) 0) as [E0|_]; [lia|].
    rewrite E. destruct (blendPixel _ _ _) as [q|]; cbn [mbind option_bind]; [|reflexivity].
    apply IH.
Qed.

(** The loop reads the width and the hotspot of the reply, not its image
    field: it walks the samples it was entered with. *)
Lemma cursorLoop_withImage (cursor : xfixes.GetCursorImageReply)
    (pos : xproto.TranslateCoordinatesReply) (buf : Buffer) (x : list Z) :
  forall (img : list Z) (i : Z) (page : list Z),
    cursorLoop (withImage cursor x) pos buf i img page
    = cursorLoop cursor pos buf i img page.
Proof.
  induction img as [|p img IH]; intros i page; [reflexivity|].
  cbn [cursorLoop]. unfold cursorRow, cursorCol.
  cbn [withImage xfixes.Width xfixes.Xhot xfixes.Yhot].
  destruct (xfixes.Width cursor =? 0); [reflexivity|].
  destruct (offScreen _ _ _); [reflexivity|].
  destruct (blendPixel _ _ _) as [q|]; cbn [mbind option_bind]; [|reflexivity].
  apply IH.
Qed.

Lemma cursorRow_div (cursor : xfixes.GetCursorImageReply)
    (pos : xproto.TranslateCoordinatesReply) (i : Z) :
  0 < xfixes.Width cursor -> 0 <= i ->
  cursorRow cursor pos i = i / xfixes.Width cursor + xproto.DstY pos - xfixes.Yhot cursor.
Proof. intros. unfold cursorRow. rewrite Z.quot_div_nonneg by lia. reflexivity. Qed.

Lemma cursorCol_mod (cursor : xfixes.GetCursorImageReply)
    (pos : xproto.TranslateCoordinatesReply) (i : Z) :
  0 < xfixes.Width cursor -> 0 <= i ->
  cursorCol cursor pos i = i mod xfixes.Width cursor + xproto.DstX pos - xfixes.Xhot cursor.
Proof. intros. unfold cursorCol. rewrite Z.rem_mod_nonneg by lia. reflexivity. Qed.

(** ** The cursor compositor *)

(** C3.  Every cursor sample that [drawCursor] blends into the page leaves,
    in each colour byte of its destination pixel, [((srcAlpha+1)*srcChannel
    + (256-srcAlpha)*dstChannel) >> 8] computed from the byte the page held,
    and 255 in the alpha byte.  With [srcAlpha = 255] the colour byte is the
    source channel; with [srcAlpha = 0] it is [(1*src + 256*dst) >> 8]. *)
Theorem drawCursor_blend (cursor : xfixes.GetCursorImageReply)
    (pos : xproto.TranslateCoordinatesReply) (buf : Buffer) (page : list Z) :
  0 < xfixes.Width cursor ->
  Forall is_uint32 (xfixes.CursorImage cursor) ->
  Forall Go.is_byte page ->
  Go.len page = PageSize buf ->
  cursorOutside buf pos = false ->
  exists page',
    drawCursor (Some cursor) (Some pos) buf page = Some page' /\
    forall (j : nat) (p : Z),
      (j < visited cursor pos buf 0 (xfixes.CursorImage cursor))%nat ->
      xfixes.CursorImage cursor !! j = Some p ->
      let off := cursorOffset cursor pos buf (Z.of_nat j) in
      page' !! Z.to_nat (off + 3) = Some 255 /\
      forall k, 0 <= k < 3 ->
        exists d,
          page !! Z.to_nat (off + k) = Some d /\
          page' !! Z.to_nat (off + k)
            = Some (blendFormula (srcAlpha p) (srcChannel p k) d) /\
          (srcAlpha p = 255 -> page' !! Z.to_nat (off + k) = Some (srcChannel p k)) /\
          (srcAlpha p = 0 ->
           page' !! Z.to_nat (off + k) = Some ((1 * srcChannel p k + 256 * d) ≫ 8)).
Proof.
  intros Hcw Himg Hbytes Hlen Hout.
  destruct (cursorLoop_spec cursor pos buf Hcw (xfixes.CursorImage cursor) 0 page
              ltac:(lia) Hlen) as (page' & Hrun & Hlen' & _ & Hpix).
  exists page'. split.
  { unfold drawCursor. rewrite Hout. exact Hrun. }
  intros j p Hj Hp off.
  pose proof (visited_onPage cursor pos buf _ 0 j Hj) as Hon.
  replace (0 + Z.of_nat j) with (Z.of_nat j) in Hon by lia.
  destruct (pixelOffset_bounds _ _ _ Hon) as [Hlo Hhi].
  fold (cursorOffset cursor pos buf (Z.of_nat j)) in Hlo, Hhi. fold off in Hlo, Hhi.
  assert (Hp32 : is_uint32 p).
  { rewrite Forall_lookup in Himg. exact (Himg j p Hp). }
  specialize (Hpix j p Hj Hp).
  replace (0 + Z.of_nat j) with (Z.of_nat j) in Hpix by lia. fold off in Hpix.
  split.
  - rewrite (Hpix 3 ltac:(lia)).
    destruct (lookup_lt_len page (off + 3) ltac:(lia)) as [d ->]. reflexivity.
  - intros k Hk.
    destruct (lookup_lt_len page (off + k) ltac:(lia)) as [d Hd].
    assert (Hdb : Go.is_byte d).
    { rewrite Forall_lookup in Hbytes. exact (Hbytes _ d Hd). }
    assert (Hres : page' !! Z.to_nat (off + k)
                   = Some (blendFormula (srcAlpha p) (srcChannel p k) d)).
    { rewrite (Hpix k ltac:(lia)), Hd. cbn [fmap option_fmap option_map].
      f_equal. apply blendByte_formula; auto. }
    exists d. split; [exact Hd|]. split; [exact Hres|]. split.
    + intros Ha. rewrite Hres, Ha. f_equal.
      apply blendFormula_opaque; [apply byte_range | exact Hdb].
    + intros Ha. rewrite Hres, Ha. reflexivity.
Qed.

Lemma drawCursor_blend_witness :
  exists page',
    drawCursor (Some smallCursor) (Some (at_ 1 1)) smallBuf smallPage = Some page' /\
    forall (j : nat) (p : Z),
      (j < visited smallCursor (at_ 1 1) smallBuf 0 (xfixes.CursorImage smallCursor))%nat ->
      xfixes.CursorImage smallCursor !! j = Some p ->
      let off := cursorOffset smallCursor (at_ 1 1) smallBuf (Z.of_nat j) in
      page' !! Z.to_nat (off + 3) = Some 255 /\
      forall k, 0 <= k < 3 ->
        exists d,
          smallPage !! Z.to_nat (off + k) = Some d /\
          page' !! Z.to_nat (off + k)
            = Some (blendFormula (srcAlpha p) (srcChannel p k) d) /\
          (srcAlpha p = 255 -> page' !! Z.to_nat (off + k) = Some (srcChannel p k)) /\
          (srcAlpha p = 0 ->
           page' !! Z.to_nat (off + k) = Some ((1 * srcChannel p k + 256 * d) ≫ 8)).
Proof.
  apply (drawCursor_blend smallCursor (at_ 1 1) smallBuf smallPage).
  - cbn. lia.
  - cbn. repeat constructor; unfold is_uint32; lia.
  - cbn. repeat constructor; unfold Go.is_byte; lia.
  - reflexivity.
  - reflexivity.
Defined.

(** C4.  [drawCursor] scans the cursor image in row-major order.  With [n]
    the index of the first sample whose destination (row [i/cursorWidth +
    posY - hotspotY], column [i mod cursorWidth + posX - hotspotX]) is off
    the page, the samples before [n] have their destination on the page,
    the result is the one obtained from the first [n] samples alone, and
    every byte of the page outside the destinations of those [n] samples is
    unchanged. *)
Theorem drawCursor_stops_at_first_offscreen (cursor : xfixes.GetCursorImageReply)
    (pos : xproto.TranslateCoordinatesReply) (buf : Buffer) (page : list Z) :
  0 < xfixes.Width cursor ->
  Go.len page = PageSize buf ->
  cursorOutside buf pos = false ->
  let img := xfixes.CursorImage cursor in
  let cw := xfixes.Width cursor in
  let row i := i / cw + xproto.DstY pos - xfixes.Yhot cursor in
  let col i := i mod cw + xproto.DstX pos - xfixes.Xhot cursor in
  let n := visited cursor pos buf 0 img in
  (n <= length img)%nat /\
  (forall j : nat, (j < n)%nat ->
     0 <= row (Z.of_nat j) < Height buf /\ 0 <= col (Z.of_nat j) < Width buf) /\
  ((n < length img)%nat ->
     ~ (0 <= row (Z.of_nat n) < Height buf /\ 0 <= col (Z.of_nat n) < Width buf)) /\
  exists page',
    drawCursor (Some cursor) (Some pos) buf page = Some page' /\
    drawCursor (Some (withImage cursor (take n img))) (Some pos) buf page = Some page' /\
    length page' = length page /\
    forall m : nat,
      (forall j : nat, (j < n)%nat ->
         ~ (pixelOffset buf (row (Z.of_nat j)) (col (Z.of_nat j)) <= Z.of_nat m
            < pixelOffset buf (row (Z.of_nat j)) (col (Z.of_nat j)) + 4)) ->
      page' !! m = page !! m.
Proof.
  intros Hcw Hlen Hout img cw row col n.
  assert (Hrow : forall j : nat, cursorRow cursor pos (Z.of_nat j) = row (Z.of_nat j)).
  { intros j. apply cursorRow_div; lia. }
  assert (Hcol : forall j : nat, cursorCol cursor pos (Z.of_nat j) = col (Z.of_nat j)).
  { intros j. apply cursorCol_mod; lia. }
  split; [apply visited_le|]. split; [|split].
  - intros j Hj. apply offScreen_false. rewrite <- Hrow, <- Hcol.
    pose proof (visited_onPage cursor pos buf img 0 j Hj) as Hon.
    replace (0 + Z.of_nat j) with (Z.of_nat j) in Hon by lia. exact Hon.
  - intros Hn Hin. apply offScreen_false in Hin. rewrite <- Hrow, <- Hcol in Hin.
    pose proof (visited_break cursor pos buf img 0 Hn) as Hbr.
    replace (0 + Z.of_nat (visited cursor pos buf 0 img)) with (Z.of_nat n) in Hbr
      by (subst n; lia).
    congruence.
  - destruct (cursorLoop_spec cursor pos buf Hcw img 0 page ltac:(lia) Hlen)
      as (page' & Hrun & Hlen' & Hframe & _).
    exists page'. split; [|split; [|split]].
    + unfold drawCursor. rewrite Hout. exact Hrun.
    + unfold drawCursor. rewrite Hout. cbn [withImage xfixes.CursorImage].
      rewrite cursorLoop_withImage, <- Hrun. symmetry.
      exact (cursorLoop_take cursor pos buf Hcw img 0 page).
    + exact Hlen'.
    + intros m Hm. apply Hframe. intros j Hj.
      replace (0 + Z.of_nat j) with (Z.of_nat j) by lia.
      unfold cursorOffset. rewrite Hrow, Hcol. apply Hm. exact Hj.
Qed.

Lemma drawCursor_stops_at_first_offscreen_witness :
  let img := xfixes.CursorImage smallCursor in
  let row i := i / 2 + 1 - 0 in
  let col i := i mod 2 + 1 - 1 in
  let n := visited smallCursor (at_ 1 1) smallBuf 0 img in
  (n <= length img)%nat /\
  (forall j : nat, (j < n)%nat ->
     0 <= row (Z.of_nat j) < 2 /\ 0 <= col (Z.of_nat j) < 2) /\
  ((n < length img)%nat ->
     ~ (0 <= row (Z.of_nat n) < 2 /\ 0 <= col (Z.of_nat n) < 2)) /\
  exists page',
    drawCursor (Some smallCursor) (Some (at_ 1 1)) smallBuf smallPage = Some page' /\
    drawCursor (Some (withImage smallCursor (take n img))) (Some (at_ 1 1)) smallBuf smallPage
      = Some page' /\
    length page' = length smallPage /\
    forall m : nat,
      (forall j : nat, (j < n)%nat ->
         ~ (pixelOffset smallBuf (row (Z.of_nat j)) (col (Z.of_nat j)) <= Z.of_nat m
            < pixelOffset smallBuf (row (Z.of_nat j)) (col (Z.of_nat j)) + 4)) ->
      page' !! m = smallPage !! m.
Proof.
  apply (drawCursor_stops_at_first_offscreen smallCursor (at_ 1 1) smallBuf smallPage).
  - cbn. lia.
  - reflexivity.
  - reflexivity.
Defined.

(** The samples after the break are skipped even when their destination is
    on the page: with the hotspot at (1, 0) and the cursor at column 0, the
    first sample is off the page to the left and nothing is drawn, although
    the second sample of each row would land in column 0. *)
Example drawCursor_break_skips_visible_samples :
  offScreen smallBuf (cursorRow smallCursor (at_ 0 0) 1) (cursorCol smallCursor (at_ 0 0) 1)
    = false /\
  drawCursor (Some smallCursor) (Some (at_ 0 0)) smallBuf smallPage = Some smallPage.
Proof. split; reflexivity. Qed.

(** C10.  A translated cursor position with a negative coordinate makes
    [drawCursor] return with the page unchanged, also when the cursor image
    would reach into the page; a position equal to the page width or height
    passes the test before the loop, and samples left of or above the
    hotspot are then blended. *)
Theorem drawCursor_outer_test (cursor : xfixes.GetCursorImageReply)
    (pos : xproto.TranslateCoordinatesReply) (buf : Buffer) (page : list Z) :
  (xproto.DstX pos < 0 \/ xproto.DstY pos < 0 ->
   drawCursor (Some cursor) (Some pos) buf page = Some page) /\
  (0 <= xproto.DstX pos <= Width buf -> 0 <= xproto.DstY pos <= Height buf ->
   cursorOutside buf pos = false) /\
  (* a negative position for which the last sample would land on the page *)
  (offScreen smallBuf (cursorRow smallCursor (at_ 0 (-1)) 3)
                      (cursorCol smallCursor (at_ 0 (-1)) 3) = false /\
   drawCursor (Some smallCursor) (Some (at_ 0 (-1))) smallBuf smallPage = Some smallPage) /\
  (* the position at the page width: the sample left of the hotspot *)
  (xproto.DstX (at_ 2 0) = Width smallBuf /\
   drawCursor (Some smallCursor) (Some (at_ 2 0)) smallBuf smallPage
   = Some [7; 7; 7; 7; 255; 0; 0; 255; 7; 7; 7; 7; 7; 7; 7; 7]) /\
  (* the position at the page height: the row above the hotspot *)
  (xproto.DstY (at_ 1 2) = Height smallBuf /\
   drawCursor (Some lowHotCursor) (Some (at_ 1 2)) smallBuf smallPage
   = Some [7; 7; 7; 7; 7; 7; 7; 7; 255; 0; 0; 255; 7; 7; 7; 255]).
Proof.
  split; [|split; [|split; [|split]]].
  - intros Hneg. unfold drawCursor, cursorOutside.
    destruct Hneg as [Hx|Hy].
    + destruct (Z.ltb_spec (xproto.DstX pos) 0); [|lia].
      rewrite orb_true_r. reflexivity.
    + destruct (Z.ltb_spec (xproto.DstY pos) 0); [|lia]. reflexivity.
  - intros Hx Hy. unfold cursorOutside. rewrite !orb_false_iff.
    rewrite !Z.ltb_ge, !Z.gtb_ltb, !Z.ltb_ge. lia.
  - split; reflexivity.
  - split; reflexivity.
  - split; reflexivity.
Qed.

Lemma drawCursor_outer_test_witness :
  drawCursor (Some smallCursor) (Some (at_ (-1) 1)) smallBuf smallPage = Some smallPage /\
  cursorOutside smallBuf (at_ 2 2) = false.
Proof.
  split.
  - refine (proj1 (drawCursor_outer_test smallCursor (at_ (-1) 1) smallBuf smallPage) _).
    left. cbn. lia.
  - refine (proj1 (proj2 (drawCursor_outer_test smallCursor (at_ 2 2) smallBuf smallPage)) _ _);
      cbn; lia.
Defined.

(** ** Reconciliation of a partial fetch *)

Lemma slice_Some (s : list Z) (lo hi : Z) :
  0 <= lo -> lo <= hi -> hi <= Go.len s ->
  Go.slice s lo hi = Some (take (Z.to_nat (hi - lo)) (drop (Z.to_nat lo) s)).
Proof.
  intros H0 H1 H2. unfold Go.slice.
  destruct (Z.leb_spec 0 lo); [|lia]. destruct (Z.leb_spec lo hi); [|lia].
  destruct (Z.leb_spec hi (Go.len s)); [|lia]. reflexivity.
Qed.

Lemma copyAt_Some (dst : list Z) (off : Z) (src : list Z) :
  0 <= off <= Go.len dst ->
  Go.copyAt dst off src = Some (list_inserts (Z.to_nat off) src dst).
Proof.
  intros H. unfold Go.copyAt.
  destruct (Z.leb_spec 0 off); [|lia]. destruct (Z.leb_spec off (Go.len dst)); [|lia].
  reflexivity.
Qed.

(** [copy] between buffers of one length overwrites the whole destination. *)
Lemma copy_full (dst src : list Z) : length dst = length src -> Go.copy dst src = src.
Proof.
  intros Hlen. unfold Go.copy. apply list_eq. intros n.
  destruct (decide (n < length src)%nat) as [Hn|Hn].
  - rewrite list_lookup_inserts by lia. f_equal. lia.
  - rewrite list_lookup_inserts_ge by lia.
    rewrite !lookup_ge_None_2 by lia. reflexivity.
Qed.

(** The row loop returns; rows [i .. i+n-1] of the page receive the packed
    rows [i .. i+n-1] of the scratch buffer, [w] pixels each, and the other
    bytes keep their value. *)
Lemma spreadRows_spec (buf : Buffer) (w : Z) (scratch : list Z) :
  0 <= w <= Width buf ->
  forall (n : nat) (i : Z) (page : list Z),
    0 <= i -> i + Z.of_nat n <= Height buf ->
    Go.len page = PageSize buf ->
    (i + Z.of_nat n) * w * bytesPerPixel <= Go.len scratch ->
    exists page',
      spreadRows buf w scratch n i page = Some page' /\
      length page' = length page /\
      (forall r j, i <= r < i + Z.of_nat n -> 0 <= j < w * bytesPerPixel ->
         page' !! Z.to_nat (r * Width buf * bytesPerPixel + j)
         = scratch !! Z.to_nat (r * w * bytesPerPixel + j)) /\
      (forall m : nat,
         (forall r, i <= r < i + Z.of_nat n ->
            ~ (r * Width buf * bytesPerPixel <= Z.of_nat m
               < r * Width buf * bytesPerPixel + w * bytesPerPixel)) ->
         page' !! m = page !! m).
Proof.
  intros Hw. unfold bytesPerPixel.
  induction n as [|n IH]; intros i page Hi Hin Hlen Hscr.
  - exists page. cbn [spreadRows]. repeat split; auto; intros; lia.
  - cbn [spreadRows]. unfold bytesPerPixel. unfold PageSize, bytesPerPixel in Hlen.
    rewrite slice_Some by nia. cbn [mbind option_bind].
    rewrite copyAt_Some by nia. cbn [mbind option_bind].
    set (src := take (Z.to_nat ((i + 1) * w * 4 - i * w * 4))
                  (drop (Z.to_nat (i * w * 4)) scratch)).
    assert (Hsrc : length src = Z.to_nat (w * 4)).
    { subst src. rewrite length_take, length_drop. unfold Go.len in Hscr. nia. }
    set (page1 := list_inserts (Z.to_nat (i * Width buf * 4)) src page).
    assert (Hlen1 : length page1 = length page) by apply length_inserts.
    destruct (IH (i + 1) page1 ltac:(lia) ltac:(lia)
                ltac:(unfold PageSize, bytesPerPixel, Go.len in *; lia) ltac:(lia))
      as (page' & Hrun & Hlen' & Hrows & Hframe).
    assert (Hiw : 0 <= i * w) by nia.
    assert (HiW : 0 <= i * Width buf) by nia.
    exists page'. split; [exact Hrun|]. split; [lia|]. split.
    + intros r j Hr Hj.
      destruct (decide (r = i)) as [->|Hne].
      * rewrite Hframe by (intros r' Hr'; nia).
        subst page1. unfold Go.len in Hlen.
        rewrite list_lookup_inserts by nia.
        subst src. rewrite lookup_take_lt by lia. rewrite lookup_drop.
        f_equal. lia.
      * apply Hrows; lia.
    + intros m Hm. rewrite Hframe by (intros r' Hr'; apply Hm; lia).
      subst page1. specialize (Hm i ltac:(lia)).
      destruct (decide (Z.of_nat m < i * Width buf * 4)).
      * apply list_lookup_inserts_lt. lia.
      * apply list_lookup_inserts_ge. lia.
Qed.

(** The reconciliation returns, and the page it leaves holds the fetched
    packed rows at the stride of the page and zero everywhere else. *)
Lemma reconcile_spec (buf : Buffer) (w h : Z) (scratch page : list Z) :
  0 <= w <= Width buf -> 0 <= h <= Height buf ->
  w < Width buf \/ h < Height buf ->
  Go.len page = PageSize buf -> Go.len scratch = PageSize buf ->
  exists page',
    reconcile buf w h scratch page = Some (page, page') /\
    length page' = length page /\
    (forall r c k, 0 <= r < h -> 0 <= c < w -> 0 <= k < bytesPerPixel ->
       page' !! Z.to_nat (r * Width buf * bytesPerPixel + c * bytesPerPixel + k)
       = page !! Z.to_nat (r * w * bytesPerPixel + c * bytesPerPixel + k)) /\
    (forall r c k, 0 <= r < Height buf -> 0 <= c < Width buf -> 0 <= k < bytesPerPixel ->
       h <= r \/ w <= c ->
       page' !! Z.to_nat (r * Width buf * bytesPerPixel + c * bytesPerPixel + k) = Some 0).
Proof.
  intros Hw Hh Hpart Hlen Hscr. unfold reconcile.
  assert (Hb : (w <? Width buf) || (h <? Height buf) = true).
  { apply orb_true_iff. rewrite !Z.ltb_lt. exact Hpart. }
  rewrite Hb. rewrite copy_full by (unfold Go.len in *; lia).
  destruct (spreadRows_spec buf w page Hw (Z.to_nat h) 0 (replicate (length page) 0)
              ltac:(lia) ltac:(lia))
    as (page' & Hrun & Hlen' & Hrows & Hframe).
  { unfold Go.len in *. rewrite length_replicate. exact Hlen. }
  { rewrite Hlen. unfold PageSize, bytesPerPixel. nia. }
  rewrite Hrun. cbn [mbind option_bind].
  exists page'. split; [reflexivity|].
  rewrite length_replicate in Hlen'. split; [exact Hlen'|].
  unfold bytesPerPixel in *. split.
  - intros r c k Hr Hc Hk.
    replace (r * Width buf * 4 + c * 4 + k) with (r * Width buf * 4 + (c * 4 + k)) by lia.
    replace (r * w * 4 + c * 4 + k) with (r * w * 4 + (c * 4 + k)) by lia.
    apply Hrows; lia.
  - intros r c k Hr Hc Hk Hout.
    rewrite Hframe.
    + apply lookup_replicate_2. unfold Go.len, PageSize, bytesPerPixel in Hlen. nia.
    + intros r' Hr' Hin.
      assert (Hx : 0 <= r * Width buf * 4 + c * 4 + k) by nia.
      rewrite Z2Nat.id in Hin by exact Hx.
      assert (r' < r \/ r' = r \/ r < r') as [Hlt | [-> | Hgt]] by lia.
      * assert ((r' + 1) * Width buf <= r * Width buf) by nia. lia.
      * lia.
      * assert ((r + 1) * Width buf <= r' * Width buf) by nia. lia.
Qed.

(** C5.  When the fetch is smaller than the page in width or in height,
    the reconciliation leaves in row [r < fetchH] of the page, from byte
    offset [r*storeWidth*4] on, the [fetchW] pixels of the fetched row [r]
    (which the fetch stored packed, from offset [r*fetchW*4] on), and zero
    in every byte of the page outside the [fetchW] x [fetchH] rectangle. *)
Theorem reconcile_partial_fetch (buf : Buffer) (fetchW fetchH : Z) (scratch page : list Z) :
  0 <= fetchW <= Width buf -> 0 <= fetchH <= Height buf ->
  fetchW < Width buf \/ fetchH < Height buf ->
  Go.len page = PageSize buf -> Go.len scratch = PageSize buf ->
  exists scratch' page',
    reconcile buf fetchW fetchH scratch page = Some (scratch', page') /\
    length page' = length page /\
    (forall r c k, 0 <= r < fetchH -> 0 <= c < fetchW -> 0 <= k < 4 ->
       page' !! Z.to_nat (r * Width buf * 4 + c * 4 + k)
       = page !! Z.to_nat (r * fetchW * 4 + c * 4 + k)) /\
    (forall r c k, 0 <= r < Height buf -> 0 <= c < Width buf -> 0 <= k < 4 ->
       fetchH <= r \/ fetchW <= c ->
       page' !! Z.to_nat (r * Width buf * 4 + c * 4 + k) = Some 0).
Proof.
  intros Hw Hh Hpart Hlen Hscr.
  destruct (reconcile_spec buf fetchW fetchH scratch page Hw Hh Hpart Hlen Hscr)
    as (page' & Hrun & Hrest).
  exists page, page'. split; [exact Hrun|]. exact Hrest.
Qed.

Lemma reconcile_partial_fetch_witness :
  exists scratch' page',
    reconcile smallBuf 1 1 (replicate 16 0) (Z.of_nat <$> seq 1 16) = Some (scratch', page') /\
    length page' = length (Z.of_nat <$> seq 1 16) /\
    (forall r c k, 0 <= r < 1 -> 0 <= c < 1 -> 0 <= k < 4 ->
       page' !! Z.to_nat (r * Width smallBuf * 4 + c * 4 + k)
       = (Z.of_nat <$> seq 1 16) !! Z.to_nat (r * 1 * 4 + c * 4 + k)) /\
    (forall r c k, 0 <= r < Height smallBuf -> 0 <= c < Width smallBuf -> 0 <= k < 4 ->
       1 <= r \/ 1 <= c ->
       page' !! Z.to_nat (r * Width smallBuf * 4 + c * 4 + k) = Some 0).
Proof.
  apply (reconcile_partial_fetch smallBuf 1 1 (replicate 16 0) (Z.of_nat <$> seq 1 16)).
  - cbn. lia.
  - cbn. lia.
  - left. cbn. lia.
  - reflexivity.
  - reflexivity.
Defined.

(** The instance of the specification: a 400 x 300 window fetched into a
    page of 800 x 600. *)
Corollary reconcile_400x300_in_800x600 (buf : Buffer) (scratch page : list Z) :
  Width buf = 800 -> Height buf = 600 ->
  Go.len page = PageSize buf -> Go.len scratch = PageSize buf ->
  exists scratch' page',
    reconcile buf 400 300 scratch page = Some (scratch', page') /\
    (forall r c k, 0 <= r < 300 -> 0 <= c < 400 -> 0 <= k < 4 ->
       page' !! Z.to_nat (r * 3200 + c * 4 + k) = page !! Z.to_nat (r * 1600 + c * 4 + k)) /\
    (forall r c k, 300 <= r < 600 -> 0 <= c < 800 -> 0 <= k < 4 ->
       page' !! Z.to_nat (r * 3200 + c * 4 + k) = Some 0) /\
    (forall r c k, 0 <= r < 300 -> 400 <= c < 800 -> 0 <= k < 4 ->
       page' !! Z.to_nat (r * 3200 + c * 4 + k) = Some 0).
Proof.
  intros HW HH Hlen Hscr.
  destruct (reconcile_spec buf 400 300 scratch page ltac:(lia) ltac:(lia) ltac:(lia) Hlen Hscr)
    as (page' & Hrun & _ & Hrows & Hzero).
  exists page, page'. split; [exact Hrun|]. unfold bytesPerPixel in *. rewrite HW, HH in *.
  split; [|split].
  - intros r c k Hr Hc Hk. specialize (Hrows r c k Hr Hc Hk).
    replace (r * 800 * 4) with (r * 3200) in Hrows by lia.
    replace (r * 400 * 4) with (r * 1600) in Hrows by lia. exact Hrows.
  - intros r c k Hr Hc Hk. specialize (Hzero r c k ltac:(lia) ltac:(lia) Hk ltac:(lia)).
    replace (r * 800 * 4) with (r * 3200) in Hzero by lia. exact Hzero.
  - intros r c k Hr Hc Hk. specialize (Hzero r c k ltac:(lia) ltac:(lia) Hk ltac:(lia)).
    replace (r * 800 * 4) with (r * 3200) in Hzero by lia. exact Hzero.
Qed.

(** ** The fetch *)

Lemma fetchWidth_min (buf : Buffer) (width : Z) :
  0 <= width < 2 ^ 16 -> 0 <= Width buf ->
  fetchWidth buf width = Z.min width (Width buf).
Proof.
  intros Hw Hb. unfold fetchWidth, Go.uint16.
  destruct (Z.gtb_spec width (Width buf)).
  - rewrite Z.mod_small by lia. lia.
  - lia.
Qed.

Lemma fetchHeight_min (buf : Buffer) (height : Z) :
  0 <= height < 2 ^ 16 -> 0 <= Height buf ->
  fetchHeight buf height = Z.min height (Height buf).
Proof.
  intros Hh Hb. unfold fetchHeight, Go.uint16.
  destruct (Z.gtb_spec height (Height buf)).
  - rewrite Z.mod_small by lia. lia.
  - lia.
Qed.

Lemma xshmStore_length (b : Buffer) (req : GetImageRequest) (data : list Z) :
  length (Data (xshmStore b req data)) = length (Data b).
Proof. unfold xshmStore. cbn [Data withData]. apply length_inserts. Qed.

(** The server's store changes no byte outside the [reqW*reqH*4] bytes
    that start at [reqOffset]. *)
Lemma xshmStore_frame (b : Buffer) (req : GetImageRequest) (data : list Z) (n : nat) :
  0 <= reqOffset req -> 0 <= reqW req * reqH req * bytesPerPixel ->
  ~ (reqOffset req <= Z.of_nat n < reqOffset req + reqW req * reqH req * bytesPerPixel) ->
  Data (xshmStore b req data) !! n = Data b !! n.
Proof.
  intros Hoff Hsz Hn. unfold xshmStore. cbn [Data withData].
  destruct (decide (Z.of_nat n < reqOffset req)).
  - apply list_lookup_inserts_lt. lia.
  - apply list_lookup_inserts_ge. rewrite length_take. lia.
Qed.

(** The clamped request of one iteration. *)
Lemma getImageRequest_spec (buf : Buffer) (st : Capture.t) :
  0 <= Capture.width st < 2 ^ 16 -> 0 <= Capture.height st < 2 ^ 16 ->
  0 <= Width buf -> 0 <= Height buf ->
  0 <= Capture.i st -> PageOffset buf (Capture.i st) < 2 ^ 32 ->
  let req := getImageRequest buf st in
  reqW req = Z.min (Capture.width st) (Width buf) /\
  reqH req = Z.min (Capture.height st) (Height buf) /\
  reqOffset req = PageOffset buf (Capture.i st) /\
  0 <= reqW req * reqH req * bytesPerPixel <= PageSize buf.
Proof.
  intros Hw Hh HW HH Hi Hoff req. subst req. cbn [getImageRequest reqW reqH reqOffset].
  rewrite fetchWidth_min, fetchHeight_min by assumption.
  assert (0 <= PageOffset buf (Capture.i st)).
  { unfold PageOffset, PageSize, bytesPerPixel. nia. }
  rewrite uint32_small by lia.
  repeat split; try reflexivity; unfold PageSize, bytesPerPixel; nia.
Qed.

(** C6.  The fetch of an iteration asks for [min(windowWidth, storeWidth)]
    by [min(windowHeight, storeHeight)] pixels, to be stored at the offset
    of the current page; the bytes stored lie inside that page, and the
    rest of the segment is unchanged.  A 1000 x 800 window with a page of
    800 x 600 gives a request of exactly 800 x 600. *)
Theorem fetch_clamped (buf : Buffer) (st : Capture.t) (data : list Z) :
  0 <= Capture.width st < 2 ^ 16 -> 0 <= Capture.height st < 2 ^ 16 ->
  0 <= Width buf -> 0 <= Height buf ->
  0 <= Capture.i st -> PageOffset buf (Capture.i st) < 2 ^ 32 ->
  let req := getImageRequest buf st in
  let buf' := fst (fetchStep buf st (FetchOk data)) in
  reqW req = Z.min (Capture.width st) (Width buf) /\
  reqH req = Z.min (Capture.height st) (Height buf) /\
  reqOffset req = PageOffset buf (Capture.i st) /\
  reqOffset req + reqW req * reqH req * 4 <= PageOffset buf (Capture.i st) + PageSize buf /\
  length (Data buf') = length (Data buf) /\
  (forall n : nat,
     ~ (PageOffset buf (Capture.i st) <= Z.of_nat n
        < PageOffset buf (Capture.i st) + PageSize buf) ->
     Data buf' !! n = Data buf !! n) /\
  (Capture.width st = 1000 -> Capture.height st = 800 ->
   Width buf = 800 -> Height buf = 600 ->
   reqW req = 800 /\ reqH req = 600).
Proof.
  intros Hw Hh HW HH Hi Hoff req buf'.
  destruct (getImageRequest_spec buf st Hw Hh HW HH Hi Hoff) as (HrW & HrH & HrO & Hsz).
  fold req in HrW, HrH, HrO, Hsz. unfold bytesPerPixel in Hsz.
  assert (0 <= PageOffset buf (Capture.i st)).
  { unfold PageOffset, PageSize, bytesPerPixel. nia. }
  split; [exact HrW|]. split; [exact HrH|]. split; [exact HrO|].
  split; [lia|]. split; [|split].
  - subst buf'. cbn [fetchStep fst]. apply xshmStore_length.
  - intros n Hn. subst buf'. cbn [fetchStep fst].
    apply xshmStore_frame; fold req; unfold bytesPerPixel; lia.
  - intros E1 E2 E3 E4. rewrite HrW, HrH, E1, E2, E3, E4. split; reflexivity.
Qed.

Lemma fetch_clamped_witness :
  let buf := NewBuffer 800 600 2 [] 0 in
  let req := getImageRequest buf wideWindow in
  let buf' := fst (fetchStep buf wideWindow (FetchOk [])) in
  reqW req = Z.min 1000 800 /\
  reqH req = Z.min 800 600 /\
  reqOffset req = PageOffset buf 1 /\
  reqOffset req + reqW req * reqH req * 4 <= PageOffset buf 1 + PageSize buf /\
  length (Data buf') = length (Data buf) /\
  (forall n : nat,
     ~ (PageOffset buf 1 <= Z.of_nat n < PageOffset buf 1 + PageSize buf) ->
     Data buf' !! n = Data buf !! n) /\
  (1000 = 1000 -> 800 = 800 -> 800 = 800 -> 600 = 600 ->
   reqW req = 800 /\ reqH req = 600).
Proof.
  apply (fetch_clamped (NewBuffer 800 600 2 [] 0) wideWindow []).
  all: cbn; try lia.
  reflexivity.
Defined.

(** ** A failed fetch *)

(** C7.  When the image fetch fails the iteration ends at once: the page
    index, the segment and the scratch buffer are as before (no cursor is
    drawn), nothing is sent to the pacer, and the loop goes on; the next
    iteration starts from the same state and asks for the same page. *)
Theorem fetch_failure_abandons_iteration (buf : Buffer) (st : Capture.t) (env : IterEnv) :
  configure env = None -> fetch env = FetchErr ->
  captureIter buf st env = Continue buf st /\
  (forall envs, captureLoop buf st (env :: envs) = captureLoop buf st envs) /\
  (forall fps s, Sys.pc s = AtTop -> Sys.buf s = buf -> Sys.capture s = st ->
     step fps s (EFetch FetchErr) = Some s).
Proof.
  intros Hcfg Hfetch.
  assert (Hiter : captureIter buf st env = Continue buf st).
  { unfold captureIter. rewrite Hcfg, Hfetch. reflexivity. }
  split; [exact Hiter|]. split.
  - intros envs. cbn [captureLoop]. rewrite Hiter. reflexivity.
  - intros fps s Hpc Hbuf Hcap. destruct s as [b c pc pa pe].
    cbn in Hpc, Hbuf, Hcap. subst. reflexivity.
Qed.

Lemma fetch_failure_abandons_iteration_witness :
  let env := {| configure := None; newPix := None; fetch := FetchErr;
                cursor := Some smallCursor; cursorPos := Some (at_ 1 1) |} in
  captureIter smallBuf wideWindow env = Continue smallBuf wideWindow /\
  (forall envs, captureLoop smallBuf wideWindow (env :: envs)
                = captureLoop smallBuf wideWindow envs) /\
  (forall fps s, Sys.pc s = AtTop -> Sys.buf s = smallBuf -> Sys.capture s = wideWindow ->
     step fps s (EFetch FetchErr) = Some s).
Proof.
  apply (fetch_failure_abandons_iteration smallBuf wideWindow
           {| configure := None; newPix := None; fetch := FetchErr;
              cursor := Some smallCursor; cursorPos := Some (at_ 1 1) |});
    reflexivity.
Defined.

(** ** The pacer *)

Lemma int_small (x : Z) : - 2 ^ 63 <= x < 2 ^ 63 -> Go.int x = x.
Proof. intros H. unfold Go.int. rewrite Z.mod_small by lia. lia. Qed.

Lemma frameInterval_spec (fps : Z) :
  1 <= fps <= 1000000000 ->
  frameInterval fps = Some (1000000000 / fps) /\ 1 <= 1000000000 / fps <= 1000000000.
Proof.
  intros Hfps. unfold frameInterval.
  rewrite (int_small fps) by lia.
  destruct (Z.eqb_spec fps 0); [lia|].
  rewrite Z.quot_div_nonneg by lia.
  assert (1 <= 1000000000 / fps <= 1000000000).
  { split.
    - apply Z.div_le_lower_bound; lia.
    - apply Z.div_le_upper_bound; nia. }
  rewrite int_small by lia. auto.
Qed.

Lemma pacerTicks_app (fps : Z) (l1 l2 : list (list Z * option Slice)) :
  forall st,
    pacerTicks fps (l1 ++ l2) st = (st' ← pacerTicks fps l1 st; pacerTicks fps l2 st').
Proof.
  induction l1 as [|[mem recv] l1 IH]; intros st; [reflexivity|].
  cbn [app pacerTicks].
  destruct (pacerTick fps mem recv st) as [st1|]; cbn [mbind option_bind]; [|reflexivity].
  apply IH.
Qed.

Lemma pacerRun_snoc (fps : Z) (ticks : list (list Z * option Slice))
    (mem : list Z) (recv : option Slice) :
  pacerRun fps (ticks ++ [(mem, recv)])
  = (st ← pacerRun fps ticks; pacerTick fps mem recv st).
Proof.
  unfold pacerRun. destruct (pacerStart fps) as [st0|]; cbn [mbind option_bind]; [|reflexivity].
  rewrite pacerTicks_app.
  destruct (pacerTicks fps ticks st0) as [st|]; cbn [mbind option_bind]; [|reflexivity].
  cbn [pacerTicks]. destruct (pacerTick fps mem recv st); reflexivity.
Qed.

Lemma ticksWithoutFrame_snoc (ticks : list (list Z * option Slice))
    (mem : list Z) (recv : option Slice) :
  ticksWithoutFrame (ticks ++ [(mem, recv)])
  = (ticksWithoutFrame ticks + match recv with None => 1 | Some _ => 0 end)%nat.
Proof.
  unfold ticksWithoutFrame. rewrite List.filter_app, length_app.
  destruct recv; reflexivity.
Qed.

Lemma ticksWithoutFrame_le (ticks : list (list Z * option Slice)) :
  (ticksWithoutFrame ticks <= length ticks)%nat.
Proof. unfold ticksWithoutFrame. apply List.filter_length_le. Qed.

(** One tick, away from the wrap of the counters. *)
Lemma pacerTick_spec (fps : Z) (mem : list Z) (recv : option Slice) (st : Pacer.t) :
  1 <= fps <= 1000000000 ->
  -1 <= Pacer.idx st < 2 ^ 63 - 1 -> 0 <= Pacer.dropped st < 2 ^ 63 - 1 ->
  pacerTick fps mem recv st = Some
    {| Pacer.idx := Pacer.idx st + 1;
       Pacer.prevFrame := match recv with Some b => Some b | None => Pacer.prevFrame st end;
       Pacer.dropped := match recv with
                        | Some _ => Pacer.dropped st
                        | None => Pacer.dropped st + 1
                        end;
       Pacer.sink := Pacer.sink st ++
         [ {| Timecode := Go.uint64 (Go.int ((Pacer.idx st + 1) * (1000000000 / fps)));
              Position := 0;
              SimpleBlock := blockHeader ++
                sliceBytes mem (match recv with
                                | Some b => Some b
                                | None => Pacer.prevFrame st
                                end) |} ] |}.
Proof.
  intros Hfps Hidx Hdr. unfold pacerTick, sendFrame.
  destruct (frameInterval_spec fps Hfps) as [-> _]. cbn [mbind option_bind].
  destruct recv as [b|]; cbn [selectCase Pacer.idx Pacer.prevFrame Pacer.dropped Pacer.sink].
  - rewrite (int_small (Pacer.idx st + 1)) by lia. reflexivity.
  - rewrite (int_small (Pacer.idx st + 1)) by lia.
    rewrite (int_small (Pacer.dropped st + 1)) by lia. reflexivity.
Qed.

(** The state of the pacer after a run of ticks. *)
Lemma pacerRun_inv (fps : Z) :
  1 <= fps <= 1000000000 ->
  forall ticks : list (list Z * option Slice),
    Z.of_nat (length ticks) < 2 ^ 63 ->
    exists st,
      pacerRun fps ticks = Some st /\
      length (Pacer.sink st) = length ticks /\
      Pacer.idx st = Z.of_nat (length ticks) - 1 /\
      Pacer.dropped st = Z.of_nat (ticksWithoutFrame ticks) /\
      (forall (n : nat) c, Pacer.sink st !! n = Some c ->
         Timecode c = Go.uint64 (Go.int (Z.of_nat n * (1000000000 / fps)))).
Proof.
  intros Hfps. induction ticks as [|[mem recv] ticks IH] using rev_ind; intros Hlen.
  - unfold pacerRun, pacerStart.
    destruct (frameInterval_spec fps Hfps) as [-> Hd]. cbn [mbind option_bind].
    destruct (Z.leb_spec (1000000000 / fps) 0); [lia|].
    eexists. split; [reflexivity|]. cbn. repeat split; auto.
    intros n c Hc. destruct n; discriminate.
  - rewrite length_app in Hlen. cbn [length] in Hlen.
    destruct (IH ltac:(lia)) as (st & Hrun & Hsink & Hidx & Hdr & Htc).
    pose proof (ticksWithoutFrame_le ticks) as Hle.
    rewrite pacerRun_snoc, Hrun. cbn [mbind option_bind].
    rewrite pacerTick_spec by lia.
    eexists. split; [reflexivity|].
    cbn [Pacer.idx Pacer.prevFrame Pacer.dropped Pacer.sink].
    rewrite !length_app. cbn [length]. rewrite ticksWithoutFrame_snoc.
    split; [lia|]. split; [lia|]. split; [destruct recv; lia|].
    intros n c Hc.
    destruct (decide (n < length (Pacer.sink st))%nat) as [Hn|Hn].
    + rewrite lookup_app_l in Hc by exact Hn. apply Htc. exact Hc.
    + rewrite lookup_app_r in Hc by lia.
      destruct (n - length (Pacer.sink st))%nat as [|k] eqn:Ek; [|destruct k; discriminate].
      cbn in Hc. injection Hc as <-. cbn [Timecode].
      do 3 f_equal. lia.
Qed.

(** C1.  A run of ticks of the pacer returns, and hands the encoder exactly
    one frame per tick.  At a tick that finds a page on [ch] the block
    carries the bytes of that page, which becomes the remembered frame; at
    a tick that finds none the drop counter grows by one and the block
    carries the bytes of the remembered frame.  The index grows by one at
    every tick, and after the run the drop counter is the number of ticks
    that found no page. *)
Theorem pacer_one_frame_per_tick (fps : Z) (ticks : list (list Z * option Slice)) :
  1 <= fps <= 1000000000 ->
  Z.of_nat (length ticks) < 2 ^ 63 ->
  exists st,
    pacerRun fps ticks = Some st /\
    length (Pacer.sink st) = length ticks /\
    Pacer.idx st = -1 + Z.of_nat (length ticks) /\
    Pacer.dropped st = Z.of_nat (ticksWithoutFrame ticks) /\
    forall (n : nat) (mem : list Z) (recv : option Slice),
      ticks !! n = Some (mem, recv) ->
      exists before after c,
        pacerRun fps (take n ticks) = Some before /\
        pacerRun fps (take (S n) ticks) = Some after /\
        Pacer.sink after = Pacer.sink before ++ [c] /\
        Pacer.idx after = Pacer.idx before + 1 /\
        match recv with
        | Some page =>
          SimpleBlock c = blockHeader ++ sliceBytes mem (Some page) /\
          Pacer.prevFrame after = Some page /\
          Pacer.dropped after = Pacer.dropped before
        | None =>
          Pacer.dropped after = Pacer.dropped before + 1 /\
          SimpleBlock c = blockHeader ++ sliceBytes mem (Pacer.prevFrame before) /\
          Pacer.prevFrame after = Pacer.prevFrame before
        end.
Proof.
  intros Hfps Hlen.
  destruct (pacerRun_inv fps Hfps ticks Hlen) as (st & Hrun & Hsink & Hidx & Hdr & _).
  exists st. split; [exact Hrun|]. split; [exact Hsink|]. split; [lia|]. split; [exact Hdr|].
  intros n mem recv Hn.
  pose proof (lookup_lt_Some _ _ _ Hn) as Hnlt.
  assert (Hpre : Z.of_nat (length (take n ticks)) < 2 ^ 63).
  { rewrite length_take. lia. }
  destruct (pacerRun_inv fps Hfps (take n ticks) Hpre)
    as (before & Hbefore & _ & Hbidx & Hbdr & _).
  pose proof (ticksWithoutFrame_le (take n ticks)) as Hle.
  rewrite length_take in Hbidx, Hle.
  rewrite (take_S_r _ _ _ Hn), pacerRun_snoc, Hbefore. cbn [mbind option_bind].
  rewrite pacerTick_spec by lia.
  eexists before, _, _. split; [reflexivity|]. split; [reflexivity|].
  cbn [Pacer.idx Pacer.prevFrame Pacer.dropped Pacer.sink SimpleBlock].
  split; [reflexivity|]. split; [reflexivity|].
  destruct recv; repeat split; reflexivity.
Qed.

Lemma pacer_one_frame_per_tick_witness :
  exists st,
    pacerRun 60 threeTicks = Some st /\
    length (Pacer.sink st) = length threeTicks /\
    Pacer.idx st = -1 + Z.of_nat (length threeTicks) /\
    Pacer.dropped st = Z.of_nat (ticksWithoutFrame threeTicks) /\
    forall (n : nat) (mem : list Z) (recv : option Slice),
      threeTicks !! n = Some (mem, recv) ->
      exists before after c,
        pacerRun 60 (take n threeTicks) = Some before /\
        pacerRun 60 (take (S n) threeTicks) = Some after /\
        Pacer.sink after = Pacer.sink before ++ [c] /\
        Pacer.idx after = Pacer.idx before + 1 /\
        match recv with
        | Some page =>
          SimpleBlock c = blockHeader ++ sliceBytes mem (Some page) /\
          Pacer.prevFrame after = Some page /\
          Pacer.dropped after = Pacer.dropped before
        | None =>
          Pacer.dropped after = Pacer.dropped before + 1 /\
          SimpleBlock c = blockHeader ++ sliceBytes mem (Pacer.prevFrame before) /\
          Pacer.prevFrame after = Pacer.prevFrame before
        end.
Proof.
  apply (pacer_one_frame_per_tick 60 threeTicks).
  - lia.
  - cbn. lia.
Defined.

(** C9.  The frame emitted at sequence index [n] (the [n]-th of the run,
    counted from 0: the index is [-1] before the first tick and grows by
    one per tick) carries the time code [n] times the frame interval
    [time.Second / fps], in nanoseconds; along a run the time codes are
    strictly increasing. *)
Theorem timecodes_strictly_increasing (fps : Z) (ticks : list (list Z * option Slice)) :
  1 <= fps <= 1000000000 ->
  Z.of_nat (length ticks) * (1000000000 / fps) < 2 ^ 63 ->
  exists st,
    pacerRun fps ticks = Some st /\
    frameInterval fps = Some (1000000000 / fps) /\
    length (Pacer.sink st) = length ticks /\
    Pacer.idx st = Z.of_nat (length ticks) - 1 /\
    (forall (n : nat) c, Pacer.sink st !! n = Some c ->
       Timecode c = Z.of_nat n * (1000000000 / fps)) /\
    (forall (m n : nat) c c',
       (m < n)%nat -> Pacer.sink st !! m = Some c -> Pacer.sink st !! n = Some c' ->
       Timecode c < Timecode c').
Proof.
  intros Hfps Hlen.
  destruct (frameInterval_spec fps Hfps) as [Hd Hdr].
  assert (Hlen' : Z.of_nat (length ticks) < 2 ^ 63) by nia.
  destruct (pacerRun_inv fps Hfps ticks Hlen') as (st & Hrun & Hsink & Hidx & _ & Htc).
  assert (Hcode : forall (n : nat) c, Pacer.sink st !! n = Some c ->
            Timecode c = Z.of_nat n * (1000000000 / fps)).
  { intros n c Hc. rewrite (Htc n c Hc).
    pose proof (lookup_lt_Some _ _ _ Hc) as Hn.
    assert (0 <= Z.of_nat n * (1000000000 / fps) < 2 ^ 63) by nia.
    rewrite int_small by lia. unfold Go.uint64. apply Z.mod_small. lia. }
  exists st. split; [exact Hrun|]. split; [exact Hd|]. split; [exact Hsink|].
  split; [exact Hidx|]. split; [exact Hcode|].
  intros m n c c' Hmn Hc Hc'. rewrite (Hcode m c Hc), (Hcode n c' Hc'). nia.
Qed.

Lemma timecodes_strictly_increasing_witness :
  exists st,
    pacerRun 60 threeTicks = Some st /\
    frameInterval 60 = Some (1000000000 / 60) /\
    length (Pacer.sink st) = length threeTicks /\
    Pacer.idx st = Z.of_nat (length threeTicks) - 1 /\
    (forall (n : nat) c, Pacer.sink st !! n = Some c ->
       Timecode c = Z.of_nat n * (1000000000 / 60)) /\
    (forall (m n : nat) c c',
       (m < n)%nat -> Pacer.sink st !! m = Some c -> Pacer.sink st !! n = Some c' ->
       Timecode c < Timecode c').
Proof.
  apply (timecodes_strictly_increasing 60 threeTicks).
  - lia.
  - vm_compute. reflexivity.
Defined.

(** The interval is rounded down to whole nanoseconds: at 60 frames per
    second it is 16666666 ns, and frame 3 is stamped 49999998. *)
Example timecode_at_60fps :
  frameInterval 60 = Some 16666666 /\
  option_map (fun st => List.map Timecode (Pacer.sink st))
    (pacerRun 60 (threeTicks ++ threeTicks))
  = Some [0; 16666666; 33333332; 49999998; 66666664; 83333330].
Proof. split; reflexivity. Qed.

(** C8.  The first tick of a run, with no page on [ch] and no frame ever
    received, hands the encoder a cluster whose block is the four header
    bytes alone: a frame without any pixel. *)
Theorem first_tick_without_frame_emits_header_only (mem : list Z) :
  pacerRun 60 [(mem, None)]
  = Some {| Pacer.idx := 0; Pacer.prevFrame := None; Pacer.dropped := 1;
            Pacer.sink := [ {| Timecode := 0; Position := 0;
                               SimpleBlock := [129; 0; 0; 128] |} ] |}.
Proof. reflexivity. Qed.

(** ** What the capture loop writes *)

Lemma store_length (s : list Z) (k v : Z) (s' : list Z) :
  Go.store s k v = Some s' -> length s' = length s.
Proof.
  unfold Go.store. destruct (_ && _); [|discriminate].
  intros [= <-]. apply length_insert.
Qed.

Lemma blendPixel_length (page : list Z) (off p : Z) (q : list Z) :
  blendPixel page off p = Some q -> length q = length page.
Proof.
  unfold blendPixel. intros Hq.
  destruct (Go.store page (off + 3) 255) as [p3|] eqn:E3; cbn [mbind option_bind] in Hq;
    [|discriminate].
  destruct (Go.index p3 (off + 2)) as [d2|]; cbn [mbind option_bind] in Hq; [|discriminate].
  destruct (Go.store p3 (off + 2) _) as [p2|] eqn:E2; cbn [mbind option_bind] in Hq;
    [|discriminate].
  destruct (Go.index p2 (off + 1)) as [d1|]; cbn [mbind option_bind] in Hq; [|discriminate].
  destruct (Go.store p2 (off + 1) _) as [p1|] eqn:E1; cbn [mbind option_bind] in Hq;
    [|discriminate].
  destruct (Go.index p1 (off + 0)) as [d0|]; cbn [mbind option_bind] in Hq; [|discriminate].
  apply store_length in E3, E2, E1, Hq. lia.
Qed.

Lemma cursorLoop_length (cursor : xfixes.GetCursorImageReply)
    (pos : xproto.TranslateCoordinatesReply) (buf : Buffer) :
  forall (img : list Z) (i : Z) (page page' : list Z),
    cursorLoop cursor pos buf i img page = Some page' -> length page' = length page.
Proof.
  induction img as [|p img IH]; intros i page page' Hrun; cbn [cursorLoop] in Hrun.
  - injection Hrun as <-. reflexivity.
  - destruct (xfixes.Width cursor =? 0); [discriminate|].
    destruct (offScreen _ _ _).
    + injection Hrun as <-. reflexivity.
    + destruct (blendPixel _ _ _) as [q|] eqn:Eq; cbn [mbind option_bind] in Hrun; [|discriminate].
      apply IH in Hrun. apply blendPixel_length in Eq. lia.
Qed.

Lemma drawCursor_length (cursor : option xfixes.GetCursorImageReply)
    (pos : option xproto.TranslateCoordinatesReply) (buf : Buffer) (page page' : list Z) :
  drawCursor cursor pos buf page = Some page' -> length page' = length page.
Proof.
  unfold drawCursor. destruct cursor as [cursor|]; [|by intros [= <-]].
  destruct pos as [pos|]; [|by intros [= <-]].
  destruct (cursorOutside buf pos); [by intros [= <-]|].
  apply cursorLoop_length.
Qed.

Lemma spreadRows_length (buf : Buffer) (w : Z) (scratch : list Z) :
  forall (n : nat) (i : Z) (page page' : list Z),
    spreadRows buf w scratch n i page = Some page' -> length page' = length page.
Proof.
  induction n as [|n IH]; intros i page page' Hrun; cbn [spreadRows] in Hrun.
  - injection Hrun as <-. reflexivity.
  - destruct (Go.slice scratch _ _) as [src|]; cbn [mbind option_bind] in Hrun; [|discriminate].
    destruct (Go.copyAt page _ src) as [page1|] eqn:E1; cbn [mbind option_bind] in Hrun;
      [|discriminate].
    apply IH in Hrun. unfold Go.copyAt in E1.
    destruct (_ && _); [|discriminate]. injection E1 as <-.
    rewrite length_inserts in Hrun. exact Hrun.
Qed.

Lemma reconcile_length (buf : Buffer) (w h : Z) (scratch page scratch' page' : list Z) :
  reconcile buf w h scratch page = Some (scratch', page') ->
  length page' = length page /\ length scratch' = length scratch.
Proof.
  unfold reconcile. destruct (_ || _).
  - destruct (spreadRows _ _ _ _ _ _) as [q|] eqn:Eq; cbn [mbind option_bind]; [|discriminate].
    intros [= <- <-]. apply spreadRows_length in Eq.
    rewrite length_replicate in Eq. split; [exact Eq|].
    unfold Go.copy. apply length_inserts.
  - intros [= <- <-]. auto.
Qed.

Lemma slice_length (s : list Z) (lo hi : Z) (x : list Z) :
  Go.slice s lo hi = Some x -> Go.len x = hi - lo.
Proof.
  unfold Go.slice.
  destruct (Z.leb_spec 0 lo); cbn [andb]; [|discriminate].
  destruct (Z.leb_spec lo hi); cbn [andb]; [|discriminate].
  destruct (Z.leb_spec hi (Go.len s)); [|discriminate].
  intros [= <-]. unfold Go.len in *. rewrite length_take, length_drop. lia.
Qed.

Lemma Page_length (b : Buffer) (idx : Z) (page : list Z) :
  Page b idx = Some page -> Go.len page = PageSize b.
Proof. unfold Page. intros Hp. apply slice_length in Hp. lia. Qed.

Lemma storePage_length (b : Buffer) (idx : Z) (page : list Z) :
  length (Data (storePage b idx page)) = length (Data b).
Proof. unfold storePage. cbn [Data withData]. apply length_inserts. Qed.

(** Storing through the view of a page changes no byte of another page. *)
Lemma storePage_frame (b : Buffer) (idx : Z) (page : list Z) (n : nat) :
  0 <= PageOffset b idx -> Go.len page = PageSize b ->
  ~ (PageOffset b idx <= Z.of_nat n < PageOffset b idx + PageSize b) ->
  Data (storePage b idx page) !! n = Data b !! n.
Proof.
  intros Hoff Hlen Hn. unfold storePage. cbn [Data withData]. unfold Go.len in Hlen.
  destruct (decide (Z.of_nat n < PageOffset b idx)).
  - apply list_lookup_inserts_lt. lia.
  - apply list_lookup_inserts_ge. lia.
Qed.

(** The bytes a view denotes depend on the bytes it covers only. *)
Lemma sliceBytes_ext (d1 d2 : list Z) (v : Slice) :
  0 <= base v ->
  (forall n : nat, base v <= Z.of_nat n < base v + size v -> d1 !! n = d2 !! n) ->
  sliceBytes d1 (Some v) = sliceBytes d2 (Some v).
Proof.
  intros Hb Hagree. cbn [sliceBytes]. apply list_eq. intros n.
  rewrite !lookup_take, !lookup_drop.
  destruct (decide (n < Z.to_nat (size v))%nat); [|reflexivity].
  apply Hagree. lia.
Qed.

(** ** The two loops together *)

(** [step] makes the moves of [Step] and no other. *)
Lemma step_Step (fps : Z) (s : Sys.t) (e : Event) (s' : Sys.t) :
  step fps s e = Some s' -> Step fps s e s'.
Proof.
  intros Hstep. destruct s as [b c pc pa pe].
  destruct e as [evW evH np | reply | | cur pos | | | ]; destruct pc;
    cbn [step Sys.pc Sys.buf Sys.capture Sys.pacer Sys.pending] in Hstep;
    try discriminate.
  (* the pacer emits, wherever the capture loop stands *)
  all: try solve
    [ destruct pe as [x|]; cbn [mbind option_bind] in Hstep; [|discriminate];
      destruct (sendFrame fps (Data b) x pa) as [pa'|] eqn:Esend;
      cbn [mbind option_bind] in Hstep; [|discriminate];
      injection Hstep as <-; constructor; exact Esend ].
  (* a tick that finds no sender *)
  all: try solve
    [ destruct pe; [discriminate|]; injection Hstep as <-;
      apply StepDefault; discriminate ].
  - destruct (is_uint16 evW) eqn:EW; [|discriminate].
    destruct (is_uint16 evH) eqn:EH; [|discriminate]. cbn [andb] in Hstep.
    destruct (configureCase c evW evH np) as [c'|] eqn:Ec; cbn [mbind option_bind] in Hstep;
      [|discriminate].
    injection Hstep as <-. constructor; assumption.
  - destruct reply as [data|]; cbn [fetchStep] in Hstep; injection Hstep as <-; constructor.
  - unfold reconcileStep in Hstep.
    destruct (Page b (Capture.i c)) as [page|] eqn:Epage; cbn [mbind option_bind] in Hstep;
      [|discriminate].
    destruct (reconcile b w h (Capture.scratch c) page) as [[scratch page']|] eqn:Erec;
      cbn [mbind option_bind] in Hstep; [|discriminate].
    injection Hstep as <-. econstructor; eassumption.
  - unfold cursorStep in Hstep.
    destruct (Page b (Capture.i c)) as [page|] eqn:Epage; cbn [mbind option_bind] in Hstep;
      [|discriminate].
    destruct (drawCursor cur pos b page) as [page'|] eqn:Ecur;
      cbn [mbind option_bind] in Hstep; [|discriminate].
    injection Hstep as <-. econstructor; eassumption.
  - injection Hstep as <-. constructor.
  - destruct pe; [discriminate|]. injection Hstep as <-. constructor.
Qed.

Lemma Step_step (fps : Z) (s : Sys.t) (e : Event) (s' : Sys.t) :
  Step fps s e s' -> step fps s e = Some s'.
Proof.
  intros HS. step_rules HS; cbn [step Sys.pc Sys.buf Sys.capture Sys.pacer Sys.pending].
  - rewrite EW, EH, Ec. reflexivity.
  - reflexivity.
  - reflexivity.
  - unfold reconcileStep. rewrite Epage. cbn [mbind option_bind]. rewrite Erec. reflexivity.
  - unfold cursorStep. rewrite Epage. cbn [mbind option_bind]. rewrite Ecur. reflexivity.
  - reflexivity.
  - reflexivity.
  - destruct pc; try reflexivity. congruence.
  - destruct pc; cbn [mbind option_bind]; rewrite Esend; reflexivity.
Qed.

Lemma configureCase_spec (c : Capture.t) (evW evH : Z) (np : option Z) (c' : Capture.t) :
  configureCase c evW evH np = Some c' ->
  Capture.i c' = Capture.i c /\
  (Capture.width c' = evW /\ Capture.height c' = evH \/
   Capture.width c' = Capture.width c /\ Capture.height c' = Capture.height c).
Proof.
  unfold configureCase.
  destruct (negb (evW =? Capture.width c) || negb (evH =? Capture.height c));
    destruct np as [pix'|]; cbn [mbind option_bind]; try discriminate;
    intros [= <-]; cbn; auto.
Qed.

Lemma pageView_dims (b : Buffer) (idx W H : Z) :
  Width b = W -> Height b = H ->
  pageView b idx = {| base := W * H * 4 * idx; size := W * H * 4 |}.
Proof. intros <- <-. reflexivity. Qed.

Lemma is_uint16_true (x : Z) : is_uint16 x = true -> 0 <= x < 2 ^ 16.
Proof. unfold is_uint16. rewrite andb_true_iff, Z.leb_le, Z.ltb_lt. auto. Qed.

Lemma sendFrame_prevFrame (fps : Z) (mem : list Z) (x : option Slice) (pa pa' : Pacer.t) :
  sendFrame fps mem x pa = Some pa' ->
  Pacer.prevFrame pa' = match x with Some b => Some b | None => Pacer.prevFrame pa end /\
  exists c,
    Pacer.sink pa' = Pacer.sink pa ++ [c] /\
    SimpleBlock c = blockHeader ++ sliceBytes mem (Pacer.prevFrame pa').
Proof.
  unfold sendFrame. destruct (frameInterval fps) as [d|]; cbn [mbind option_bind]; [|discriminate].
  intros [= <-]. cbn [Pacer.prevFrame Pacer.sink]. split.
  - destruct x; reflexivity.
  - eexists. split; reflexivity.
Qed.

(** The page the pacer holds changes by a reception only, and then it is
    the page the capture loop was sending. *)
Lemma Step_held (fps : Z) (s : Sys.t) (e : Event) (s' : Sys.t) :
  Step fps s e s' ->
  held s' = held s \/
  (e = ETick /\ Sys.pc s = Sending /\
   held s' = Some (pageView (Sys.buf s) (Capture.i (Sys.capture s)))).
Proof.
  intros HS. unfold held. step_rules HS; auto.
  left. apply sendFrame_prevFrame in Esend as [-> _]. destruct x; reflexivity.
Qed.

(** While the capture loop is blocked in its send, and until it has set
    [i] after it, no move writes to the segment. *)
Lemma Step_blocked (fps : Z) (s : Sys.t) (e : Event) (s' : Sys.t) :
  Sys.pc s = Sending \/ Sys.pc s = Sent ->
  Step fps s e s' -> Sys.buf s' = Sys.buf s.
Proof. intros Hpc HS. step_rules HS; try reflexivity; destruct Hpc; discriminate. Qed.

(** In the send, the capture loop can only be served by a tick. *)
Lemma Step_at_sending (fps : Z) (s : Sys.t) (e : Event) (s' : Sys.t) :
  Sys.pc s = Sending -> Step fps s e s' ->
  Sys.buf s' = Sys.buf s /\ Sys.capture s' = Sys.capture s /\
  ((e = ETick /\
    held s' = Some (pageView (Sys.buf s) (Capture.i (Sys.capture s)))) \/
   (e <> ETick /\ Sys.pc s' = Sending)).
Proof.
  intros Hpc HS. unfold held. step_rules HS; try discriminate.
  - auto.
  - congruence.
  - subst pc. split; [reflexivity|]. split; [reflexivity|]. right.
    split; [discriminate | reflexivity].
Qed.

(** Completed pages and received pages differ by the page that waits in
    the send. *)
Lemma counts_ahead (fps : Z) (es : list Event) :
  forall s s', run fps s es = Some s' ->
    (ahead s + fst (counts fps s es) = snd (counts fps s es) + ahead s')%nat.
Proof.
  induction es as [|e es IH]; intros s s' Hrun; cbn [run counts] in *.
  - injection Hrun as <-. cbn. lia.
  - destruct (step fps s e) as [s1|] eqn:E1; cbn [mbind option_bind] in Hrun; [|discriminate].
    specialize (IH s1 s' Hrun).
    destruct (counts fps s1 es) as [p k]. cbn [fst snd] in IH.
    apply step_Step in E1. unfold ahead in *.
    step_rules E1; cbn [fst snd]; try lia.
    destruct pc; cbn [fst snd]; try lia. congruence.
Qed.

(** The moves of a run that the pacer makes without receiving a page. *)
Lemma counts_no_reception (fps : Z) (s s1 : Sys.t) (e : Event) (es : list Event) :
  step fps s e = Some s1 ->
  snd (counts fps s (e :: es)) = 0%nat ->
  snd (counts fps s1 es) = 0%nat /\ ~ (e = ETick /\ Sys.pc s = Sending).
Proof.
  intros E1 Hcnt. cbn [counts] in Hcnt. rewrite E1 in Hcnt.
  destruct (counts fps s1 es) as [p k]. cbn [snd].
  destruct e; destruct (Sys.pc s); cbn [snd] in Hcnt; try discriminate;
    (split; [exact Hcnt | intros [? ?]; discriminate]).
Qed.

(** The two moves of the pacer at a tick are the tick of the pacer taken
    alone, with the segment as it is when the frame is copied. *)
Lemma tick_moves_pacerTick (fps : Z) (s s1 s1' s2 : Sys.t) :
  step fps s ETick = Some s1 ->
  Sys.pacer s1' = Sys.pacer s1 -> Sys.pending s1' = Sys.pending s1 ->
  step fps s1' ESendFrame = Some s2 ->
  exists recv,
    Sys.pending s1 = Some recv /\
    (recv = None <-> Sys.pc s <> Sending) /\
    pacerTick fps (Data (Sys.buf s1')) recv (Sys.pacer s) = Some (Sys.pacer s2).
Proof.
  intros Htick Hpa Hpe Hsend.
  apply step_Step in Htick. apply step_Step in Hsend.
  remember ETick as e eqn:He.
  destruct Htick as [| | | | | | b c pa | b c pc pa Hidle |]; try discriminate;
    cbn [Sys.pc Sys.buf Sys.capture Sys.pacer Sys.pending] in *;
    remember ESendFrame as e' eqn:He';
    destruct Hsend as [| | | | | | | | b' c0 pc' pa0 x pa' Esend]; try discriminate;
    cbn [Sys.pc Sys.buf Sys.capture Sys.pacer Sys.pending] in *; subst.
  - eexists. split; [reflexivity|]. split; [split; [discriminate | congruence]|].
    injection Hpe as ->. exact Esend.
  - exists None. split; [reflexivity|]. split; [tauto|].
    injection Hpe as ->. exact Esend.
Qed.

(** An iteration of the capture loop that reaches its send is the three
    moves fetch, reconcile, cursor. *)
Lemma captureIter_moves (fps : Z) (buf : Buffer) (st : Capture.t) (env : IterEnv)
    (pa : Pacer.t) (pe : option (option Slice)) (data : list Z)
    (buf' : Buffer) (st' : Capture.t) (page : Slice) :
  configure env = None -> fetch env = FetchOk data ->
  captureIter buf st env = Send buf' st' page ->
  run fps (Sys.Build_t buf st AtTop pa pe)
      [EFetch (FetchOk data); EReconcile; ECursor (cursor env) (cursorPos env)]
  = Some (Sys.Build_t buf' st' Sending pa pe) /\
  page = pageView buf' (Capture.i st').
Proof.
  intros Hcfg Hfetch Hiter. unfold captureIter in Hiter. rewrite Hcfg, Hfetch in Hiter.
  cbn [fetchStep] in Hiter. cbn [run step Sys.pc Sys.buf Sys.capture Sys.pacer Sys.pending
                                  fetchStep mbind option_bind].
  destruct (reconcileStep _ st _ _) as [[b1 c1]|]; [|discriminate].
  cbn [mbind option_bind step Sys.pc Sys.buf Sys.capture Sys.pacer Sys.pending].
  destruct (cursorStep b1 c1 _ _) as [b2|]; [|discriminate].
  cbn [mbind option_bind]. injection Hiter as <- <- <-. split; reflexivity.
Qed.

Section TwoLoops.

(** The frame rate, and the size of the window when the store was made.
    The geometry reply carries [uint16] values, and the offset of a page
    has to fit the [uint32] of the [GetImage] request. *)
Variables (fps W H : Z).
Hypothesis W_uint16 : 0 <= W < 2 ^ 16.
Hypothesis H_uint16 : 0 <= H < 2 ^ 16.
Hypothesis page_fits : W * H * 4 < 2 ^ 32.

Lemma initial_Inv (data : list Z) (shmID pix0 : Z) :
  Go.len data = 2 * (W * H * 4) -> Inv W H (initial W H data shmID pix0).
Proof.
  intros Hlen. unfold Inv, initial, held. cbn. repeat split; auto; lia.
Qed.

(** Every move keeps the invariant. *)
Lemma Step_Inv (s : Sys.t) (e : Event) (s' : Sys.t) :
  Inv W H s -> Step fps s e s' -> Inv W H s'.
Proof.
  intros HInv HS. unfold Inv, held, heldSlot in *.
  destruct HInv as (HW & HH & Hlen & Hi & Hw & Hh & Hheld).
  step_rules HS.
  - apply is_uint16_true in EW, EH.
    apply configureCase_spec in Ec as (Ei & [[-> ->] | [-> ->]]); rewrite Ei; auto 10.
  - auto 10.
  - unfold Go.len in *. rewrite xshmStore_length. auto 10.
  - unfold Go.len in *. rewrite storePage_length. cbn [Capture.i Capture.width Capture.height].
    auto 10.
  - unfold Go.len in *. rewrite storePage_length. auto 10.
  - cbn [advance Capture.i Capture.width Capture.height].
    assert (Hrem : Z.rem (Capture.i c + 1) 2 = 1 - Capture.i c).
    { destruct Hi as [-> | ->]; reflexivity. }
    rewrite Hrem. repeat split; try tauto; try lia.
    destruct Hheld as [Hn | Hs]; [left; exact Hn | right].
    rewrite Hs. do 2 f_equal. lia.
  - repeat split; try tauto. right. f_equal. apply pageView_dims; assumption.
  - cbn [selectCase Pacer.prevFrame]. repeat split; try tauto; destruct pc; tauto.
  - apply sendFrame_prevFrame in Esend as [-> _].
    repeat split; try tauto; destruct x; exact Hheld.
Qed.

Lemma run_Inv (es : list Event) :
  forall s s', Inv W H s -> run fps s es = Some s' -> Inv W H s'.
Proof.
  induction es as [|e es IH]; intros s s' HInv Hrun; cbn [run] in Hrun.
  - injection Hrun as <-. exact HInv.
  - destruct (step fps s e) as [s1|] eqn:E1; cbn [mbind option_bind] in Hrun; [|discriminate].
    exact (IH s1 s' (Step_Inv _ _ _ HInv (step_Step _ _ _ _ E1)) Hrun).
Qed.

(** A move of the capture loop stores inside its current page. *)
Lemma Step_frame (s : Sys.t) (e : Event) (s' : Sys.t) :
  Inv W H s -> Step fps s e s' ->
  forall n : nat,
    ~ (W * H * 4 * Capture.i (Sys.capture s) <= Z.of_nat n
       < W * H * 4 * Capture.i (Sys.capture s) + W * H * 4) ->
    Data (Sys.buf s') !! n = Data (Sys.buf s) !! n.
Proof.
  intros HInv HS n Hn.
  destruct HInv as (HW & HH & Hlen & Hi & Hw & Hh & _).
  assert (Hsz0 : 0 <= W * H * 4) by nia.
  assert (Hsize : PageSize (Sys.buf s) = W * H * 4).
  { unfold PageSize, bytesPerPixel. rewrite HW, HH. reflexivity. }
  assert (Hoff : PageOffset (Sys.buf s) (Capture.i (Sys.capture s))
                 = W * H * 4 * Capture.i (Sys.capture s)).
  { unfold PageOffset. rewrite Hsize. reflexivity. }
  assert (Hoff0 : 0 <= W * H * 4 * Capture.i (Sys.capture s) < 2 ^ 32).
  { destruct Hi as [-> | ->]; lia. }
  step_rules HS; try reflexivity.
  - destruct (getImageRequest_spec b c Hw Hh ltac:(lia) ltac:(lia) ltac:(lia) ltac:(lia))
      as (_ & _ & HrO & Hrsz).
    apply xshmStore_frame; lia.
  - apply reconcile_length in Erec as [Hl _]. apply Page_length in Epage.
    apply storePage_frame; unfold Go.len in *; lia.
  - apply drawCursor_length in Ecur. apply Page_length in Epage.
    apply storePage_frame; unfold Go.len in *; lia.
Qed.

(** No move changes a byte of the page the pacer holds. *)
Lemma Step_held_bytes (s : Sys.t) (e : Event) (s' : Sys.t) :
  Inv W H s -> Step fps s e s' ->
  sliceBytes (Data (Sys.buf s')) (held s) = sliceBytes (Data (Sys.buf s)) (held s).
Proof.
  intros HInv HS.
  assert (Hpc : (Sys.pc s = Sending \/ Sys.pc s = Sent) \/
                heldSlot s = 1 - Capture.i (Sys.capture s)).
  { unfold heldSlot. destruct (Sys.pc s); auto. }
  destruct Hpc as [Hpc | Hslot].
  { rewrite (Step_blocked _ _ _ _ Hpc HS). reflexivity. }
  pose proof (Step_frame s e s' HInv HS) as Hframe.
  destruct HInv as (HW & HH & Hlen & Hi & _ & _ & [-> | ->]); [reflexivity|].
  assert (Hsz0 : 0 <= W * H * 4) by nia.
  apply sliceBytes_ext; cbn [base size]; rewrite Hslot.
  - destruct Hi as [-> | ->]; lia.
  - intros n Hn. apply Hframe. destruct Hi as [Hi | Hi]; rewrite Hi in *; lia.
Qed.

(** Along moves without a reception the pacer holds the same page, and
    the bytes of that page stay as they are. *)
Lemma run_held_bytes (es : list Event) :
  forall s s', Inv W H s -> run fps s es = Some s' ->
    snd (counts fps s es) = 0%nat ->
    held s' = held s /\
    sliceBytes (Data (Sys.buf s')) (held s) = sliceBytes (Data (Sys.buf s)) (held s).
Proof.
  induction es as [|e es IH]; intros s s' HInv Hrun Hcnt.
  - injection Hrun as <-. auto.
  - cbn [run] in Hrun.
    destruct (step fps s e) as [s1|] eqn:E1; cbn [mbind option_bind] in Hrun; [|discriminate].
    destruct (counts_no_reception _ _ _ _ _ E1 Hcnt) as [Hcnt1 Hno].
    apply step_Step in E1.
    pose proof (Step_Inv _ _ _ HInv E1) as HInv1.
    destruct (IH s1 s' HInv1 Hrun Hcnt1) as [Hh Hb].
    destruct (Step_held _ _ _ _ E1) as [Hsame | (He & Hpc & _)]; [|tauto].
    rewrite Hsame in Hh, Hb. split; [exact Hh|].
    rewrite Hb. exact (Step_held_bytes _ _ _ HInv E1).
Qed.

(** From the moment the capture loop offers a page on [ch], through its
    reception, and up to the next reception, the bytes of that page stay
    as they are. *)
Lemma run_from_sending (es : list Event) :
  forall s s', Inv W H s -> Sys.pc s = Sending -> run fps s es = Some s' ->
    (snd (counts fps s es) <= 1)%nat ->
    sliceBytes (Data (Sys.buf s'))
      (Some (pageView (Sys.buf s) (Capture.i (Sys.capture s))))
    = sliceBytes (Data (Sys.buf s))
        (Some (pageView (Sys.buf s) (Capture.i (Sys.capture s)))).
Proof.
  induction es as [|e es IH]; intros s s' HInv Hpc Hrun Hcnt; cbn [run counts] in *.
  - injection Hrun as <-. reflexivity.
  - destruct (step fps s e) as [s1|] eqn:E1; cbn [mbind option_bind] in Hrun; [|discriminate].
    apply step_Step in E1.
    pose proof (Step_Inv _ _ _ HInv E1) as HInv1.
    destruct (Step_at_sending _ _ _ _ Hpc E1) as (Hb & Hc & [[-> Hheld] | [Hne Hpc1]]).
    + rewrite Hpc in Hcnt.
      destruct (counts fps s1 es) as [p k] eqn:Ecnt. cbn [snd] in Hcnt.
      destruct (run_held_bytes es s1 s' HInv1 Hrun) as [_ Hbytes].
      { rewrite Ecnt. cbn [snd]. lia. }
      rewrite Hheld, Hb in Hbytes. exact Hbytes.
    + assert (Hcnt1 : (snd (counts fps s1 es) <= 1)%nat).
      { destruct (counts fps s1 es) as [p k]. rewrite Hpc in Hcnt.
        destruct e; cbn [snd] in *; lia. }
      specialize (IH s1 s' HInv1 Hpc1 Hrun Hcnt1).
      rewrite Hb, Hc in IH. exact IH.
Qed.

(** The block emitted last stays equal to the bytes of the remembered
    frame. *)
Lemma Step_lastBlockCurrent (s : Sys.t) (e : Event) (s' : Sys.t) :
  Inv W H s -> lastBlockCurrent s -> Step fps s e s' -> lastBlockCurrent s'.
Proof.
  intros HInv HJ HS.
  pose proof (Step_held_bytes s e s' HInv HS) as Hbytes.
  unfold lastBlockCurrent, held in *.
  step_rules HS; try exact HJ; try exact I.
  (* the moves of the capture loop that store into the segment *)
  1-3: destruct pe as [[y|]|]; try exact I;
       intros c0 Hc0; rewrite (HJ c0 Hc0), Hbytes; reflexivity.
  apply sendFrame_prevFrame in Esend as (_ & c0 & -> & Hblock).
  intros c1 Hc1. rewrite last_snoc in Hc1. injection Hc1 as <-. exact Hblock.
Qed.

Lemma run_lastBlockCurrent (es : list Event) :
  forall s s', Inv W H s -> lastBlockCurrent s -> run fps s es = Some s' ->
    lastBlockCurrent s'.
Proof.
  induction es as [|e es IH]; intros s s' HInv HJ Hrun; cbn [run] in Hrun.
  - injection Hrun as <-. exact HJ.
  - destruct (step fps s e) as [s1|] eqn:E1; cbn [mbind option_bind] in Hrun; [|discriminate].
    apply step_Step in E1.
    exact (IH s1 s' (Step_Inv _ _ _ HInv E1) (Step_lastBlockCurrent _ _ _ HInv HJ E1) Hrun).
Qed.

(** A frame emitted at a tick that found no page is, byte for byte, the
    frame emitted before it: the capture loop has not written to the page
    the pacer remembers. *)
Theorem duplicate_frame_identical (data : list Z) (shmID pix0 : Z)
    (es : list Event) (s s' : Sys.t) (prev : Cluster) :
  Go.len data = 2 * (W * H * 4) ->
  run fps (initial W H data shmID pix0) es = Some s ->
  Sys.pending s = Some None ->
  step fps s ESendFrame = Some s' ->
  last (Pacer.sink (Sys.pacer s)) = Some prev ->
  exists c',
    Pacer.sink (Sys.pacer s') = Pacer.sink (Sys.pacer s) ++ [c'] /\
    SimpleBlock c' = SimpleBlock prev.
Proof.
  intros Hlen Hrun Hpe Hstep Hlast.
  pose proof (initial_Inv data shmID pix0 Hlen) as HInv0.
  assert (HJ0 : lastBlockCurrent (initial W H data shmID pix0)).
  { unfold lastBlockCurrent, initial. cbn. discriminate. }
  pose proof (run_lastBlockCurrent es _ _ HInv0 HJ0 Hrun) as HJ.
  unfold lastBlockCurrent in HJ. rewrite Hpe in HJ. specialize (HJ prev Hlast).
  clear Hlen Hrun HInv0 HJ0 data shmID pix0 es.
  apply step_Step in Hstep. remember ESendFrame as e eqn:He.
  step_rules Hstep; try discriminate.
  injection Hpe as ->.
  apply sendFrame_prevFrame in Esend as (Hprev & c' & Hsink & Hblock).
  exists c'. split; [exact Hsink|]. rewrite Hblock, Hprev, HJ. reflexivity.
Qed.

(** X19.  As long as a page is shorter than [2^32] bytes ([W*H*4 < 2^32],
    the hypothesis [page_fits] of this section, under which [uint32(offset)]
    in the request is the offset of the page), in every interleaving of the
    capture loop and the pacer, started from the state in which [main]
    launches them:
    - the pages the capture loop has completed exceed the pages the pacer
      has received by at most one, the page that waits in the send;
    - from the moment a page is offered on [ch], through its reception and
      up to the next reception (which the capture loop reaches only after
      it has filled and offered the other slot), no byte of it changes;
    - between two receptions the pacer holds the same page, with the same
      bytes;
    - a reception hands the pacer the current slot of the capture loop,
      and the page it held until then is the other slot. *)
Theorem handoff_never_mutates_held_page (data : list Z) (shmID pix0 : Z)
    (es1 es2 : list Event) (s1 s2 : Sys.t) :
  Go.len data = 2 * (W * H * 4) ->
  run fps (initial W H data shmID pix0) es1 = Some s1 ->
  run fps s1 es2 = Some s2 ->
  let produced := fst (counts fps (initial W H data shmID pix0) es1) in
  let consumed := snd (counts fps (initial W H data shmID pix0) es1) in
  (consumed <= produced <= consumed + 1)%nat /\
  (Sys.pc s1 = Sending <-> produced = (consumed + 1)%nat) /\
  (Sys.pc s1 = Sending -> (snd (counts fps s1 es2) <= 1)%nat ->
   sliceBytes (Data (Sys.buf s2))
     (Some (pageView (Sys.buf s1) (Capture.i (Sys.capture s1))))
   = sliceBytes (Data (Sys.buf s1))
       (Some (pageView (Sys.buf s1) (Capture.i (Sys.capture s1))))) /\
  (snd (counts fps s1 es2) = 0%nat ->
   held s2 = held s1 /\
   sliceBytes (Data (Sys.buf s2)) (held s1) = sliceBytes (Data (Sys.buf s1)) (held s1)) /\
  (forall s', Sys.pc s1 = Sending -> step fps s1 ETick = Some s' ->
     held s' = Some (pageView (Sys.buf s1) (Capture.i (Sys.capture s1))) /\
     (held s1 = None \/
      held s1 = Some (pageView (Sys.buf s1) (1 - Capture.i (Sys.capture s1))))).
Proof.
  intros Hlen Hrun1 Hrun2 produced consumed.
  pose proof (initial_Inv data shmID pix0 Hlen) as HInv0.
  pose proof (run_Inv _ _ _ HInv0 Hrun1) as HInv1.
  pose proof (counts_ahead _ _ _ _ Hrun1) as Hcnt.
  fold produced consumed in Hcnt.
  change (ahead (initial W H data shmID pix0)) with 0%nat in Hcnt.
  assert (Hah : (ahead s1 <= 1)%nat /\ (Sys.pc s1 = Sending <-> ahead s1 = 1%nat)).
  { unfold ahead. destruct (Sys.pc s1); split; try lia; split; congruence. }
  destruct Hah as [Hah1 Hah2].
  split; [lia|]. split; [rewrite Hah2; lia|]. split; [|split].
  - intros Hpc Hone. exact (run_from_sending es2 s1 s2 HInv1 Hpc Hrun2 Hone).
  - intros Hzero. exact (run_held_bytes es2 s1 s2 HInv1 Hrun2 Hzero).
  - intros s' Hpc Htick. apply step_Step in Htick.
    destruct (Step_at_sending _ _ _ _ Hpc Htick) as (_ & _ & [[_ Hnew] | [Hne _]]);
      [|congruence].
    split; [exact Hnew|].
    destruct HInv1 as (HW1 & HH1 & _ & _ & _ & _ & [Hn | Hs]); [left; exact Hn | right].
    rewrite Hs. unfold heldSlot. rewrite Hpc.
    symmetry. f_equal. apply pageView_dims; assumption.
Qed.

End TwoLoops.

Lemma handoff_never_mutates_held_page_witness :
  let s0 := initial 1 1 [1; 2; 3; 4; 5; 6; 7; 8] 0 0 in
  exists s1 s2,
    run 60 s0 firstMoves = Some s1 /\
    run 60 s1 nextMoves = Some s2 /\
    let produced := fst (counts 60 s0 firstMoves) in
    let consumed := snd (counts 60 s0 firstMoves) in
    (consumed <= produced <= consumed + 1)%nat /\
    (Sys.pc s1 = Sending <-> produced = (consumed + 1)%nat) /\
    (Sys.pc s1 = Sending -> (snd (counts 60 s1 nextMoves) <= 1)%nat ->
     sliceBytes (Data (Sys.buf s2))
       (Some (pageView (Sys.buf s1) (Capture.i (Sys.capture s1))))
     = sliceBytes (Data (Sys.buf s1))
         (Some (pageView (Sys.buf s1) (Capture.i (Sys.capture s1))))) /\
    (snd (counts 60 s1 nextMoves) = 0%nat ->
     held s2 = held s1 /\
     sliceBytes (Data (Sys.buf s2)) (held s1) = sliceBytes (Data (Sys.buf s1)) (held s1)) /\
    (forall s', Sys.pc s1 = Sending -> step 60 s1 ETick = Some s' ->
       held s' = Some (pageView (Sys.buf s1) (Capture.i (Sys.capture s1))) /\
       (held s1 = None \/
        held s1 = Some (pageView (Sys.buf s1) (1 - Capture.i (Sys.capture s1))))).
Proof.
  intros s0. eexists. eexists.
  split; [vm_compute; reflexivity|]. split; [vm_compute; reflexivity|].
  apply (handoff_never_mutates_held_page 60 1 1 ltac:(lia) ltac:(lia) ltac:(lia)
           [1; 2; 3; 4; 5; 6; 7; 8] 0 0 firstMoves nextMoves).
  - reflexivity.
  - vm_compute. reflexivity.
  - vm_compute. reflexivity.
Defined.

(** The interleaving above, evaluated: page 0 is received with the bytes
    the capture loop left in it, and the fetch into page 1 that runs before
    the pacer copies the frame does not touch them. *)
Example handoff_interleaving :
  option_map (fun s => (Data (Sys.buf s), SimpleBlock <$> Pacer.sink (Sys.pacer s)))
    (run 60 (initial 1 1 [1; 2; 3; 4; 5; 6; 7; 8] 0 0) (firstMoves ++ nextMoves))
  = Some ([9; 9; 9; 9; 8; 8; 8; 8],
          [[129; 0; 0; 128]; [129; 0; 0; 128; 9; 9; 9; 9]]).
Proof. vm_compute. reflexivity. Qed.

(** ** Well-formed stores *)

Lemma page_bounds (b : Buffer) (idx : Z) :
  wfBuffer b -> 0 <= idx < Pages b ->
  0 <= PageSize b /\ 0 <= PageOffset b idx /\
  PageOffset b idx + PageSize b <= Go.len (Data b).
Proof.
  intros (HW & HH & HP & Hlen) Hidx. rewrite Hlen.
  unfold PageOffset, PageSize, bytesPerPixel.
  assert (0 <= Width b * Height b) by nia.
  assert (Width b * Height b * (idx + 1) <= Width b * Height b * Pages b) by nia.
  nia.
Qed.

Lemma Page_Some (b : Buffer) (idx : Z) :
  wfBuffer b -> 0 <= idx < Pages b ->
  Page b idx = Some (sliceBytes (Data b) (Some (pageView b idx))).
Proof.
  intros Hwf Hidx. destruct (page_bounds b idx Hwf Hidx) as (Hs & Ho & Hend).
  unfold Page. rewrite slice_Some by lia.
  cbn [sliceBytes pageView base size]. do 3 f_equal. lia.
Qed.

Lemma wfBuffer_withData (b : Buffer) (d : list Z) :
  wfBuffer b -> length d = length (Data b) -> wfBuffer (withData b d).
Proof.
  intros (HW & HH & HP & Hlen) Hd. unfold wfBuffer, Go.len in *. cbn [withData Width Height Pages Data].
  repeat split; auto. lia.
Qed.

Lemma wfBuffer_storePage (b : Buffer) (idx : Z) (page : list Z) :
  wfBuffer b -> wfBuffer (storePage b idx page).
Proof. intros Hwf. apply wfBuffer_withData; [exact Hwf | apply length_inserts]. Qed.

Lemma wfBuffer_xshmStore (b : Buffer) (req : GetImageRequest) (data : list Z) :
  wfBuffer b -> wfBuffer (xshmStore b req data).
Proof. intros Hwf. apply wfBuffer_withData; [exact Hwf | apply length_inserts]. Qed.

(** ** A page of [2^32] bytes or more *)

(** Storing a page through its own view leaves the segment as it is. *)
Lemma storePage_same (b : Buffer) (idx : Z) (page : list Z) :
  Page b idx = Some page -> Data (storePage b idx page) = Data b.
Proof.
  unfold Page, Go.slice.
  destruct (Z.leb_spec 0 (PageOffset b idx)); cbn [andb]; [|discriminate].
  destruct (Z.leb_spec (PageOffset b idx) (PageOffset b idx + PageSize b)); cbn [andb];
    [|discriminate].
  destruct (Z.leb_spec (PageOffset b idx + PageSize b) (Go.len (Data b))); [|discriminate].
  intros [= <-]. unfold storePage. cbn [Data withData].
  apply list_eq. intros k. unfold Go.len in *.
  destruct (decide (k < Z.to_nat (PageOffset b idx))%nat).
  - rewrite list_lookup_inserts_lt by lia. reflexivity.
  - destruct (decide (k < Z.to_nat (PageOffset b idx) + Z.to_nat (PageSize b))%nat).
    + rewrite list_lookup_inserts by (rewrite ?length_take, ?length_drop; lia).
      rewrite lookup_take_lt by lia. rewrite lookup_drop. f_equal. lia.
    + rewrite list_lookup_inserts_ge by (rewrite length_take, length_drop; lia). reflexivity.
Qed.

Section OffsetWraps.

(** The window is so large that the offset of page 1 does not fit the
    [uint32] of the [GetImage] request. *)
Variables (fps W H : Z).
Hypothesis W_uint16 : 0 <= W < 2 ^ 16.
Hypothesis H_uint16 : 0 <= H < 2 ^ 16.
Hypothesis page_wraps : 2 ^ 32 <= W * H * 4.

(** The capture loop completes page 0 from [img0] and the pacer receives
    it; the loop sets [i = 1] and fetches [img1].  The request carries
    [uint32(offset)], which is smaller than the size of a page: the server
    stores the image inside page 0, the page the pacer holds. *)
Lemma wrapped_fetch_overwrites_held_page (data img0 img1 : list Z) (shmID pix0 u v : Z) :
  Go.len data = 2 * (W * H * 4) ->
  Go.len img0 = W * H * 4 -> Go.len img1 = W * H * 4 ->
  img0 !! Z.to_nat (Go.uint32 (W * H * 4)) = Some u -> img1 !! 0%nat = Some v ->
  exists s1 s2,
    run fps (initial W H data shmID pix0) (handoffMoves img0) = Some s1 /\
    held s1 = Some (pageView (Sys.buf s1) 0) /\
    run fps s1 (nextFetch img1) = Some s2 /\
    snd (counts fps s1 (nextFetch img1)) = 0%nat /\
    Capture.i (Sys.capture s2) = 1 /\
    reqOffset (getImageRequest (Sys.buf s1) (advance (Sys.capture s1)))
      = Go.uint32 (W * H * 4) /\
    0 <= Go.uint32 (W * H * 4) < W * H * 4 /\
    sliceBytes (Data (Sys.buf s1)) (held s1) !! Z.to_nat (Go.uint32 (W * H * 4)) = Some u /\
    sliceBytes (Data (Sys.buf s2)) (held s1) !! Z.to_nat (Go.uint32 (W * H * 4)) = Some v.
Proof.
  intros Hlen Hl0 Hl1 Hu Hv.
  set (P := W * H * 4) in *.
  set (o := Go.uint32 P) in *.
  assert (Ho : 0 <= o < P).
  { subst o. unfold Go.uint32. pose proof (Z.mod_pos_bound P (2 ^ 32) ltac:(lia)). lia. }
  set (b0 := NewBuffer W H 2 data shmID).
  set (c0 := {| Capture.i := 0; Capture.width := W; Capture.height := H;
                Capture.pix := pix0;
                Capture.scratch := replicate (Z.to_nat (PageSize b0)) 0 |}).
  set (pa0 := {| Pacer.idx := -1; Pacer.prevFrame := None;
                 Pacer.dropped := 0; Pacer.sink := [] |}).
  assert (Hwf0 : wfBuffer b0).
  { unfold wfBuffer, bytesPerPixel. cbn. subst P. repeat split; lia. }
  (* the first fetch, into page 0 *)
  set (req0 := getImageRequest b0 c0).
  assert (HrW : reqW req0 = W).
  { subst req0. cbn [getImageRequest reqW Capture.width c0].
    rewrite fetchWidth_min by (cbn; lia). cbn. lia. }
  assert (HrH : reqH req0 = H).
  { subst req0. cbn [getImageRequest reqH Capture.height c0].
    rewrite fetchHeight_min by (cbn; lia). cbn. lia. }
  assert (HrO : reqOffset req0 = 0).
  { subst req0. cbn [getImageRequest reqOffset Capture.i c0].
    unfold PageOffset. rewrite Z.mul_0_r. reflexivity. }
  set (b1 := xshmStore b0 req0 img0).
  assert (Hwf1 : wfBuffer b1) by (apply wfBuffer_xshmStore; exact Hwf0).
  assert (Hidx0 : 0 <= 0 < Pages b1) by (cbn; lia).
  pose proof (Page_Some b1 0 Hwf1 Hidx0) as Hpage1.
  set (page := sliceBytes (Data b1) (Some (pageView b1 0))) in *.
  (* the whole window was fetched: nothing to reconcile *)
  assert (Hrec : reconcile b1 W H (Capture.scratch c0) page = Some (Capture.scratch c0, page)).
  { unfold reconcile. cbn [b1 xshmStore withData Width Height b0 NewBuffer].
    rewrite !Z.ltb_irrefl. reflexivity. }
  set (b2 := storePage b1 0 page).
  set (c1 := {| Capture.i := Capture.i c0; Capture.width := Capture.width c0;
                Capture.height := Capture.height c0; Capture.pix := Capture.pix c0;
                Capture.scratch := Capture.scratch c0 |}).
  assert (Hd2 : Data b2 = Data b1) by (apply storePage_same; exact Hpage1).
  assert (Hwf2 : wfBuffer b2) by (apply wfBuffer_storePage; exact Hwf1).
  pose proof (Page_Some b2 0 Hwf2 Hidx0) as Hpage2.
  set (page2 := sliceBytes (Data b2) (Some (pageView b2 0))) in *.
  set (b3 := storePage b2 0 page2).
  assert (Hd3 : Data b3 = Data b1).
  { subst b3. rewrite (storePage_same b2 0 page2 Hpage2). exact Hd2. }
  set (view0 := pageView b3 0).
  set (sa := Sys.Build_t b1 c0 (Fetched W H) pa0 None).
  set (sb := Sys.Build_t b2 c1 Reconciled pa0 None).
  set (sc := Sys.Build_t b3 c1 Sending pa0 None).
  set (s1 := Sys.Build_t b3 c1 Sent pa0 (Some (Some view0))).
  set (sd := Sys.Build_t b3 (advance c1) AtTop pa0 (Some (Some view0))).
  (* the second fetch, meant for page 1 *)
  set (req1 := getImageRequest b3 (advance c1)).
  assert (HrW1 : reqW req1 = W).
  { subst req1. cbn [getImageRequest reqW Capture.width c1 c0 advance].
    rewrite fetchWidth_min by (cbn; lia). cbn. lia. }
  assert (HrH1 : reqH req1 = H).
  { subst req1. cbn [getImageRequest reqH Capture.height c1 c0 advance].
    rewrite fetchHeight_min by (cbn; lia). cbn. lia. }
  assert (HrO1 : reqOffset req1 = o).
  { subst req1 o. cbn [getImageRequest reqOffset Capture.i c1 c0 advance].
    change (Z.rem (0 + 1) 2) with 1. unfold PageOffset. rewrite Z.mul_1_r. reflexivity. }
  set (s2 := Sys.Build_t (xshmStore b3 req1 img1) (advance c1)
               (Fetched (reqW req1) (reqH req1)) pa0 (Some (Some view0))).
  assert (E1 : step fps (initial W H data shmID pix0) (EFetch (FetchOk img0)) = Some sa).
  { subst sa. rewrite <- HrW at 2. rewrite <- HrH at 2.
    exact (Step_step _ _ _ _ (StepFetchOk fps b0 c0 pa0 None img0)). }
  assert (E2 : step fps sa EReconcile = Some sb).
  { exact (Step_step _ _ _ _
             (StepReconcile fps b1 c0 W H pa0 None page (Capture.scratch c0) page Hpage1 Hrec)). }
  assert (E3 : step fps sb (ECursor None None) = Some sc).
  { exact (Step_step _ _ _ _
             (StepCursor fps b2 c1 pa0 None None None page2 page2 Hpage2 eq_refl)). }
  assert (E4 : step fps sc ETick = Some s1).
  { exact (Step_step _ _ _ _ (StepReceive fps b3 c1 pa0)). }
  assert (E5 : step fps s1 EAdvance = Some sd).
  { exact (Step_step _ _ _ _ (StepAdvance fps b3 c1 pa0 (Some (Some view0)))). }
  assert (E6 : step fps sd (EFetch (FetchOk img1)) = Some s2).
  { exact (Step_step _ _ _ _ (StepFetchOk fps b3 (advance c1) pa0 (Some (Some view0)) img1)). }
  exists s1, s2.
  assert (Hview : view0 = {| base := 0; size := P |}).
  { subst view0. unfold pageView, PageOffset. rewrite Z.mul_0_r. reflexivity. }
  split; [|split; [|split; [|split; [|split; [|split; [|split; [|split]]]]]]].
  - unfold handoffMoves. cbn [run]. rewrite E1. cbn [mbind option_bind].
    rewrite E2. cbn [mbind option_bind]. rewrite E3. cbn [mbind option_bind].
    rewrite E4. reflexivity.
  - reflexivity.
  - unfold nextFetch. cbn [run]. rewrite E5. cbn [mbind option_bind]. rewrite E6. reflexivity.
  - unfold nextFetch. cbn [counts]. rewrite E5, E6. reflexivity.
  - reflexivity.
  - exact HrO1.
  - exact Ho.
  - change (held s1) with (Some view0). cbn [Sys.buf s1]. rewrite Hview, Hd3.
    cbn [sliceBytes base size]. rewrite lookup_take_lt by lia.
    rewrite lookup_drop. cbn [b1 xshmStore withData Data]. rewrite HrO, HrW, HrH.
    unfold Go.len in *. unfold bytesPerPixel. fold P.
    rewrite list_lookup_inserts by (rewrite ?length_take; cbn [b0 NewBuffer Data]; lia).
    rewrite lookup_take_lt by lia. rewrite <- Hu. f_equal. lia.
  - change (held s1) with (Some view0). cbn [Sys.buf s2]. rewrite Hview.
    cbn [sliceBytes base size]. rewrite lookup_take_lt by lia.
    rewrite lookup_drop. cbn [xshmStore withData Data]. rewrite HrO1, HrW1, HrH1.
    unfold Go.len in *. unfold bytesPerPixel. fold P.
    rewrite list_lookup_inserts.
    + rewrite lookup_take_lt by lia. rewrite <- Hv. f_equal. lia.
    + rewrite length_take. lia.
    + rewrite Hd3. cbn [b1 xshmStore withData Data].
      rewrite length_inserts. cbn [b0 NewBuffer Data]. lia.
Qed.

End OffsetWraps.

(** C2.  The page handed to the pacer is overwritten when the window has
    40000 x 40000 pixels, and pages of 6400000000 bytes.  The capture loop
    completes page 0 from an image of bytes 9 and hands it to the pacer; it
    sets [i = 1] and fetches the next image, of bytes 8.  The offset of
    page 1 is 6400000000, and the request carries [uint32(offset)] =
    2105032704: the server stores the image from byte 2105032704 of the
    segment on, inside page 0.  Without a further reception, and before
    the loop has come back to slot 0, the page the pacer holds has
    changed: its byte 2105032704 was 9 and is 8. *)
Theorem handoff_page_overwritten_at_40000x40000 :
  exists s1 s2,
    run 60 (initial 40000 40000 hugeSegment 0 0) (handoffMoves firstImage) = Some s1 /\
    held s1 = Some (pageView (Sys.buf s1) 0) /\
    run 60 s1 (nextFetch secondImage) = Some s2 /\
    snd (counts 60 s1 (nextFetch secondImage)) = 0%nat /\
    Capture.i (Sys.capture s2) = 1 /\
    reqOffset (getImageRequest (Sys.buf s1) (advance (Sys.capture s1))) = 2105032704 /\
    sliceBytes (Data (Sys.buf s1)) (held s1) !! Z.to_nat 2105032704 = Some 9 /\
    sliceBytes (Data (Sys.buf s2)) (held s1) !! Z.to_nat 2105032704 = Some 8 /\
    sliceBytes (Data (Sys.buf s2)) (held s1) <> sliceBytes (Data (Sys.buf s1)) (held s1).
Proof.
  destruct (wrapped_fetch_overwrites_held_page 60 40000 40000 ltac:(lia) ltac:(lia) ltac:(lia)
              hugeSegment firstImage secondImage 0 0 9 8)
    as (s1 & s2 & H1 & H2 & H3 & H4 & H5 & H6 & _ & H7 & H8).
  - unfold Go.len, hugeSegment. rewrite length_replicate. lia.
  - unfold Go.len, firstImage. rewrite length_replicate. lia.
  - unfold Go.len, secondImage. rewrite length_replicate. lia.
  - apply lookup_replicate_2. change (Go.uint32 (40000 * 40000 * 4)) with 2105032704. lia.
  - apply lookup_replicate_2. lia.
  - change (Go.uint32 (40000 * 40000 * 4)) with 2105032704 in *.
    exists s1, s2. repeat (split; [assumption|]).
    intros Heq. rewrite Heq, H7 in H8. discriminate.
Qed.

(** * Further properties *)

(** ** The frame store *)

Lemma slice_lookup (s : list Z) (lo hi : Z) (x : list Z) (k : nat) :
  Go.slice s lo hi = Some x -> Z.of_nat k < hi - lo ->
  x !! k = s !! (Z.to_nat lo + k)%nat.
Proof.
  unfold Go.slice.
  destruct (Z.leb_spec 0 lo); cbn [andb]; [|discriminate].
  destruct (Z.leb_spec lo hi); cbn [andb]; [|discriminate].
  destruct (Z.leb_spec hi (Go.len s)); [|discriminate].
  intros [= <-] Hk. rewrite lookup_take_lt by lia. apply lookup_drop.
Qed.

Lemma slice_None (s : list Z) (lo hi : Z) :
  lo < 0 \/ hi < lo \/ Go.len s < hi -> Go.slice s lo hi = None.
Proof.
  intros Hbad. unfold Go.slice.
  destruct (Z.leb_spec 0 lo); cbn [andb]; [|reflexivity].
  destruct (Z.leb_spec lo hi); cbn [andb]; [|reflexivity].
  destruct (Z.leb_spec hi (Go.len s)); [lia | reflexivity].
Qed.

(** X1.  In a store as [NewBuffer] makes it, [Page(idx)] of an index in
    [0, Pages) does not panic; it is the [PageSize()] bytes of the segment
    that start at [PageOffset(idx)]. *)
Theorem Page_in_range (b : Buffer) (idx : Z) :
  wfBuffer b -> 0 <= idx < Pages b ->
  exists page,
    Page b idx = Some page /\
    Go.len page = PageSize b /\
    forall k : nat, Z.of_nat k < PageSize b ->
      page !! k = Data b !! (Z.to_nat (PageOffset b idx) + k)%nat.
Proof.
  intros Hwf Hidx. destruct (page_bounds b idx Hwf Hidx) as (Hs & Ho & Hend).
  rewrite (Page_Some b idx Hwf Hidx). eexists. split; [reflexivity|].
  cbn [sliceBytes pageView base size]. split.
  - unfold Go.len in *. rewrite length_take, length_drop. lia.
  - intros k Hk. rewrite lookup_take_lt by lia. apply lookup_drop.
Qed.

Lemma Page_in_range_witness :
  exists page,
    Page smallBuf 1 = Some page /\
    Go.len page = PageSize smallBuf /\
    forall k : nat, Z.of_nat k < PageSize smallBuf ->
      page !! k = Data smallBuf !! (Z.to_nat (PageOffset smallBuf 1) + k)%nat.
Proof.
  apply (Page_in_range smallBuf 1).
  - unfold wfBuffer. cbn. repeat split; lia.
  - cbn. lia.
Defined.

(** X2.  When pages are not empty, [Page(idx)] panics for every index
    outside [0, Pages) for which the size of a page, the offset
    [PageSize()*idx] and the end [offset+size] of the slice expression are
    in the range of [int]: the slice expression is out of the bounds of
    the segment.  (The arithmetic of [int] wraps; an index whose offset
    leaves the range, such as [1<<60] with pages of 16 bytes, is not
    covered.) *)
Theorem Page_out_of_range (b : Buffer) (idx : Z) :
  wfBuffer b -> 0 < PageSize b < 2 ^ 63 ->
  - 2 ^ 63 <= PageOffset b idx -> PageOffset b idx + PageSize b < 2 ^ 63 ->
  idx < 0 \/ Pages b <= idx ->
  Page b idx = None.
Proof.
  intros (HW & HH & HP & Hlen) Hsz _ _ Hidx. unfold Page. apply slice_None.
  rewrite Hlen. unfold PageOffset, PageSize, bytesPerPixel in *.
  destruct Hidx as [Hneg | Hbig]; [left; nia|].
  right. right.
  assert (Width b * Height b * (Pages b + 1) <= Width b * Height b * (idx + 1)) by nia.
  nia.
Qed.

Lemma Page_out_of_range_witness :
  Page smallBuf 2 = None /\ Page smallBuf (-1) = None.
Proof.
  split.
  - apply (Page_out_of_range smallBuf 2).
    + unfold wfBuffer. cbn. repeat split; lia.
    + unfold PageSize, bytesPerPixel. cbn. lia.
    + unfold PageOffset, PageSize, bytesPerPixel. cbn. lia.
    + unfold PageOffset, PageSize, bytesPerPixel. cbn. lia.
    + right. cbn. lia.
  - apply (Page_out_of_range smallBuf (-1)).
    + unfold wfBuffer. cbn. repeat split; lia.
    + unfold PageSize, bytesPerPixel. cbn. lia.
    + unfold PageOffset, PageSize, bytesPerPixel. cbn. lia.
    + unfold PageOffset, PageSize, bytesPerPixel. cbn. lia.
    + left. lia.
Defined.

(** What a page holds after a store through the view of a page. *)
Lemma Page_storePage (b : Buffer) (i j : Z) (page : list Z) :
  wfBuffer b -> 0 <= i < Pages b -> 0 <= j < Pages b ->
  Go.len page = PageSize b ->
  Page (storePage b i page) j = if decide (i = j) then Some page else Page b j.
Proof.
  intros Hwf Hi Hj Hlen.
  destruct (page_bounds b i Hwf Hi) as (Hs & Hoi & Hendi).
  destruct (page_bounds b j Hwf Hj) as (_ & Hoj & Hendj).
  pose proof (wfBuffer_storePage b i page Hwf) as Hwf'.
  rewrite (Page_Some _ j Hwf' Hj).
  assert (Hview : pageView (storePage b i page) j = pageView b j) by reflexivity.
  rewrite Hview. unfold Go.len in *.
  destruct (decide (i = j)) as [<- | Hne].
  - f_equal. cbn [sliceBytes pageView base size storePage withData Data].
    apply list_eq. intros k.
    destruct (decide (k < length page)%nat) as [Hk | Hk].
    + rewrite lookup_take_lt by lia. rewrite lookup_drop.
      rewrite list_lookup_inserts by lia. f_equal. lia.
    + rewrite lookup_take_ge by lia. symmetry. apply lookup_ge_None_2. lia.
  - rewrite (Page_Some b j Hwf Hj). f_equal.
    apply sliceBytes_ext; cbn [pageView base size]; [lia|].
    intros n Hn. apply storePage_frame; unfold Go.len; try lia.
    unfold PageOffset in *.
    assert (i < j \/ j < i) as [Hlt | Hlt] by lia.
    + assert (PageSize b * (i + 1) <= PageSize b * j) by nia. lia.
    + assert (PageSize b * (j + 1) <= PageSize b * i) by nia. lia.
Qed.

(** X3.  Pages do not overlap: what is stored through the view of page
    [i] is what [Page(i)] returns afterwards, and [Page(j)] of every other
    page returns what it returned before. *)
Theorem pages_independent (b : Buffer) (i j : Z) (page : list Z) :
  wfBuffer b -> 0 <= i < Pages b -> 0 <= j < Pages b ->
  Go.len page = PageSize b ->
  Page (storePage b i page) i = Some page /\
  (i <> j -> Page (storePage b i page) j = Page b j).
Proof.
  intros Hwf Hi Hj Hlen. split.
  - rewrite (Page_storePage b i i page Hwf Hi Hi Hlen).
    destruct (decide (i = i)); congruence.
  - intros Hne. rewrite (Page_storePage b i j page Hwf Hi Hj Hlen).
    destruct (decide (i = j)); congruence.
Qed.

Lemma pages_independent_witness :
  Page (storePage smallBuf 0 (replicate 16 9)) 0 = Some (replicate 16 9) /\
  (0 <> 1 -> Page (storePage smallBuf 0 (replicate 16 9)) 1 = Page smallBuf 1).
Proof.
  apply (pages_independent smallBuf 0 1 (replicate 16 9)).
  - unfold wfBuffer. cbn. repeat split; lia.
  - cbn. lia.
  - cbn. lia.
  - reflexivity.
Defined.

(** ** The frame rate *)

(** X4.  For a value [fps] of the flag (a 64-bit [uint]), the pacer gets
    its ticker exactly when [1 <= fps <= 10^9]: with [fps = 0] the division
    panics, and with a larger value the interval is zero or negative and
    [time.NewTicker] panics. *)
Theorem pacerStart_iff (fps : Z) :
  0 <= fps < 2 ^ 64 ->
  ((exists st, pacerStart fps = Some st) <-> 1 <= fps <= 1000000000).
Proof.
  intros Hfps. split.
  - intros [st Hst]. unfold pacerStart, frameInterval in Hst.
    destruct (Z.eqb_spec (Go.int fps) 0) as [E0 | E0]; [discriminate|].
    cbn [mbind option_bind] in Hst.
    destruct (Z.leb_spec (Go.int (1000000000 ÷ Go.int fps)) 0) as [Hle | Hgt]; [discriminate|].
    clear Hst.
    destruct (Z.lt_ge_cases fps (2 ^ 63)) as [Hlow | Hhigh].
    + rewrite (int_small fps) in * by lia.
      destruct (Z.le_gt_cases fps 1000000000) as [Hok | Hbig]; [lia|].
      rewrite Z.quot_small in Hgt by lia. rewrite (int_small 0) in Hgt by lia. lia.
    + assert (Hf : Go.int fps = fps - 2 ^ 64).
      { unfold Go.int.
        replace (fps + 2 ^ 63) with (fps - 2 ^ 63 + 1 * 2 ^ 64) by lia.
        rewrite Z.mod_add by lia. rewrite Z.mod_small by lia. lia. }
      rewrite Hf in Hgt.
      replace (fps - 2 ^ 64) with (- (2 ^ 64 - fps)) in Hgt by lia.
      rewrite Z.quot_opp_r in Hgt by lia.
      assert (0 <= 1000000000 ÷ (2 ^ 64 - fps) <= 1000000000).
      { rewrite Z.quot_div_nonneg by lia. split.
        - apply Z.div_pos; lia.
        - apply Z.div_le_upper_bound; nia. }
      rewrite int_small in Hgt by lia. lia.
  - intros Hok. unfold pacerStart.
    destruct (frameInterval_spec fps Hok) as [-> Hd]. cbn [mbind option_bind].
    destruct (Z.leb_spec (1000000000 / fps) 0); [lia|]. eauto.
Qed.

Lemma pacerStart_iff_witness :
  ((exists st, pacerStart 60 = Some st) <-> 1 <= 60 <= 1000000000) /\
  ((exists st, pacerStart 0 = Some st) <-> 1 <= 0 <= 1000000000) /\
  ((exists st, pacerStart (2 ^ 64 - 1) = Some st) <-> 1 <= 2 ^ 64 - 1 <= 1000000000).
Proof.
  split; [|split].
  - apply (pacerStart_iff 60). lia.
  - apply (pacerStart_iff 0). lia.
  - apply (pacerStart_iff (2 ^ 64 - 1)). lia.
Defined.

(** ** More on the cursor compositor *)

Lemma blendFormula_between (a c d : Z) :
  0 <= a < 256 -> 0 <= c < 256 -> 0 <= d < 256 ->
  Z.min c d <= blendFormula a c d <= Z.max c d.
Proof.
  intros Ha Hc Hd. unfold blendFormula.
  rewrite Z.shiftr_div_pow2 by lia. change (2 ^ 8) with 256.
  split.
  - apply Z.div_le_lower_bound; [lia|]. nia.
  - assert ((a + 1) * c + (256 - a) * d < 256 * (Z.max c d + 1)) by nia.
    assert (((a + 1) * c + (256 - a) * d) / 256 < Z.max c d + 1)
      by (apply Z.div_lt_upper_bound; lia).
    lia.
Qed.

(** X5.  The blend of one pixel never leaves the range of its inputs: each
    colour byte it stores lies between the source channel and the byte the
    page held, so that blending a colour over itself changes nothing; the
    alpha byte becomes 255. *)
Theorem blendPixel_between (page : list Z) (off p : Z) :
  0 <= off -> off + 3 < Go.len page ->
  is_uint32 p -> Forall Go.is_byte page ->
  exists q,
    blendPixel page off p = Some q /\
    q !! Z.to_nat (off + 3) = Some 255 /\
    forall k, 0 <= k < 3 ->
      exists d v,
        page !! Z.to_nat (off + k) = Some d /\
        q !! Z.to_nat (off + k) = Some v /\
        Z.min (srcChannel p k) d <= v <= Z.max (srcChannel p k) d /\
        (srcChannel p k = d -> v = d).
Proof.
  intros Hoff Hlen Hp Hbytes.
  destruct (blendPixel_Some page off p Hoff Hlen) as (q & Hq & _ & _ & Hpix).
  exists q. split; [exact Hq|]. split.
  - rewrite (Hpix 3 ltac:(lia)).
    destruct (lookup_lt_len page (off + 3) ltac:(lia)) as [d ->]. reflexivity.
  - intros k Hk.
    destruct (lookup_lt_len page (off + k) ltac:(lia)) as [d Hd].
    assert (Hdb : Go.is_byte d).
    { rewrite Forall_lookup in Hbytes. exact (Hbytes _ d Hd). }
    exists d, (blendFormula (srcAlpha p) (srcChannel p k) d).
    split; [exact Hd|]. split.
    { rewrite (Hpix k ltac:(lia)), Hd. cbn [fmap option_fmap option_map].
      f_equal. apply blendByte_formula; auto. }
    pose proof (blendFormula_between (srcAlpha p) (srcChannel p k) d
                  (shiftr24_range p Hp) (byte_range _) Hdb) as Hbetween.
    split; [exact Hbetween|]. intros Heq. rewrite Heq in Hbetween |- *. lia.
Qed.

Lemma blendPixel_between_witness :
  exists q,
    blendPixel smallPage 4 2147483903 = Some q /\
    q !! Z.to_nat (4 + 3) = Some 255 /\
    forall k, 0 <= k < 3 ->
      exists d v,
        smallPage !! Z.to_nat (4 + k) = Some d /\
        q !! Z.to_nat (4 + k) = Some v /\
        Z.min (srcChannel 2147483903 k) d <= v <= Z.max (srcChannel 2147483903 k) d /\
        (srcChannel 2147483903 k = d -> v = d).
Proof.
  apply (blendPixel_between smallPage 4 2147483903).
  - lia.
  - reflexivity.
  - unfold is_uint32. lia.
  - cbn. repeat constructor; unfold Go.is_byte; lia.
Defined.

Lemma drawCursor_total (cursor : option xfixes.GetCursorImageReply)
    (pos : option xproto.TranslateCoordinatesReply) (buf : Buffer) (page : list Z) :
  Go.len page = PageSize buf ->
  (forall c, cursor = Some c -> 0 < xfixes.Width c) ->
  exists page', drawCursor cursor pos buf page = Some page' /\ length page' = length page.
Proof.
  intros Hlen Hcw. unfold drawCursor.
  destruct cursor as [c|]; [|eauto]. destruct pos as [p|]; [|eauto].
  destruct (cursorOutside buf p); [eauto|].
  destruct (cursorLoop_spec c p buf (Hcw c eq_refl) (xfixes.CursorImage c) 0 page
              ltac:(lia) Hlen) as (page' & Hrun & Hl & _).
  eauto.
Qed.

(** X6.  [drawCursor] does not panic on a page of the store, whatever the
    position is, for a cursor reply whose image has [Width*Height]
    samples, which is how the decoder of the reply builds it: the stores
    of the blend stay inside the page, and [i/int(cursor.Width)] never
    divides by zero, because a cursor of width 0 has no sample.  The page
    keeps its length. *)
Theorem drawCursor_never_panics (cursor : option xfixes.GetCursorImageReply)
    (pos : option xproto.TranslateCoordinatesReply) (buf : Buffer) (page : list Z) :
  Go.len page = PageSize buf ->
  (forall c, cursor = Some c ->
     0 <= xfixes.Width c /\
     Go.len (xfixes.CursorImage c) = xfixes.Width c * xfixes.Height c) ->
  exists page',
    drawCursor cursor pos buf page = Some page' /\ Go.len page' = Go.len page.
Proof.
  intros Hlen Hc.
  destruct cursor as [c|]; [|exists page; auto].
  destruct (Hc c eq_refl) as [Hw Himg].
  destruct (Z.eq_dec (xfixes.Width c) 0) as [E0 | E0].
  - (* a cursor without samples: the loop is not entered *)
    assert (Hnil : xfixes.CursorImage c = []).
    { rewrite E0, Z.mul_0_l in Himg. unfold Go.len in Himg.
      destruct (xfixes.CursorImage c) as [|p img]; [reflexivity|]. cbn [length] in Himg. lia. }
    exists page. split; [|reflexivity]. unfold drawCursor.
    destruct pos as [p|]; [|reflexivity].
    destruct (cursorOutside buf p); [reflexivity|]. rewrite Hnil. reflexivity.
  - destruct (drawCursor_total (Some c) pos buf page Hlen) as (page' & Hrun & Hl).
    { intros c' [= <-]. lia. }
    exists page'. split; [exact Hrun|]. unfold Go.len. lia.
Qed.

Lemma drawCursor_never_panics_witness :
  exists page',
    drawCursor (Some smallCursor) (Some (at_ 1 1)) smallBuf smallPage = Some page' /\
    Go.len page' = Go.len smallPage.
Proof.
  apply (drawCursor_never_panics (Some smallCursor) (Some (at_ 1 1)) smallBuf smallPage).
  - reflexivity.
  - intros c [= <-]. split; [cbn; lia | reflexivity].
Defined.

(** X7.  A cursor whose hotspot is nearer to the left edge of the window
    than [Xhot], or nearer to the top edge than [Yhot], is not drawn at
    all: its first sample is off the page and ends the loop. *)
Theorem drawCursor_near_top_left_draws_nothing (cursor : xfixes.GetCursorImageReply)
    (pos : xproto.TranslateCoordinatesReply) (buf : Buffer) (page : list Z) :
  0 < xfixes.Width cursor ->
  xproto.DstX pos < xfixes.Xhot cursor \/ xproto.DstY pos < xfixes.Yhot cursor ->
  drawCursor (Some cursor) (Some pos) buf page = Some page.
Proof.
  intros Hcw Hnear. unfold drawCursor.
  destruct (cursorOutside buf pos); [reflexivity|].
  destruct (xfixes.CursorImage cursor) as [|p img]; [reflexivity|].
  cbn [cursorLoop].
  destruct (Z.eqb_spec (xfixes.Width cursor) 0); [lia|].
  assert (Hoff : offScreen buf (cursorRow cursor pos 0) (cursorCol cursor pos 0) = true).
  { unfold offScreen, cursorRow, cursorCol.
    rewrite Z.quot_0_l, Z.rem_0_l by lia.
    apply orb_true_iff. destruct Hnear as [Hx | Hy].
    - right. apply Z.ltb_lt. lia.
    - left. apply orb_true_iff. right. apply Z.ltb_lt. lia. }
  rewrite Hoff. reflexivity.
Qed.

Lemma drawCursor_near_top_left_draws_nothing_witness :
  drawCursor (Some smallCursor) (Some (at_ 0 1)) smallBuf smallPage = Some smallPage.
Proof.
  apply (drawCursor_near_top_left_draws_nothing smallCursor (at_ 0 1) smallBuf smallPage).
  - cbn. lia.
  - left. cbn. lia.
Defined.

(** The number of visited samples is determined by the first sample that
    is off the page. *)
Lemma visited_eq (cursor : xfixes.GetCursorImageReply)
    (pos : xproto.TranslateCoordinatesReply) (buf : Buffer) :
  forall (img : list Z) (i : Z) (n : nat),
    (n <= length img)%nat ->
    (forall j : nat, (j < n)%nat ->
       offScreen buf (cursorRow cursor pos (i + Z.of_nat j))
                     (cursorCol cursor pos (i + Z.of_nat j)) = false) ->
    ((n < length img)%nat ->
       offScreen buf (cursorRow cursor pos (i + Z.of_nat n))
                     (cursorCol cursor pos (i + Z.of_nat n)) = true) ->
    visited cursor pos buf i img = n.
Proof.
  induction img as [|p img IH]; intros i n Hn Hon Hbr; cbn [visited length] in *.
  - lia.
  - destruct n as [|n].
    + specialize (Hbr ltac:(lia)). replace (i + Z.of_nat 0) with i in Hbr by lia.
      rewrite Hbr. reflexivity.
    + pose proof (Hon 0%nat ltac:(lia)) as H0.
      replace (i + Z.of_nat 0) with i in H0 by lia. rewrite H0. f_equal.
      apply IH; [lia | |].
      * intros j Hj. specialize (Hon (S j) ltac:(lia)).
        replace (i + Z.of_nat (S j)) with (i + 1 + Z.of_nat j) in Hon by lia. exact Hon.
      * intros Hlt. specialize (Hbr ltac:(lia)).
        replace (i + Z.of_nat (S n)) with (i + 1 + Z.of_nat n) in Hbr by lia. exact Hbr.
Qed.

Section CursorRectangle.

(** A cursor of [cw] by [ch] samples whose top left sample lands on row
    [top] and column [left] of the page. *)
Variables (cursor : xfixes.GetCursorImageReply)
          (pos : xproto.TranslateCoordinatesReply) (buf : Buffer).

Let cw := xfixes.Width cursor.
Let ch := xfixes.Height cursor.
Let left := xproto.DstX pos - xfixes.Xhot cursor.
Let top := xproto.DstY pos - xfixes.Yhot cursor.

Hypothesis cw_pos : 0 < cw.
Hypothesis ch_nonneg : 0 <= ch.
Hypothesis image_size : Z.of_nat (length (xfixes.CursorImage cursor)) = cw * ch.

Lemma sample_row_col (r c : Z) :
  0 <= r -> 0 <= c < cw ->
  cursorRow cursor pos (r * cw + c) = r + top /\
  cursorCol cursor pos (r * cw + c) = c + left.
Proof.
  intros Hr Hc. unfold cursorRow, cursorCol. fold cw.
  assert (0 <= r * cw + c) by nia.
  rewrite Z.quot_div_nonneg, Z.rem_mod_nonneg by lia.
  assert (Hd : (r * cw + c) / cw = r).
  { rewrite Z.div_add_l by lia. rewrite (Z.div_small c) by lia. lia. }
  assert (Hm : (r * cw + c) mod cw = c).
  { rewrite Z.add_comm, Z.mod_add by lia. apply Z.mod_small. lia. }
  rewrite Hd, Hm. unfold top, left. lia.
Qed.

Lemma sample_index (j : Z) :
  0 <= j -> j = (j / cw) * cw + j mod cw /\ 0 <= j / cw /\ 0 <= j mod cw < cw.
Proof.
  intros Hj. pose proof (Z.div_mod j cw ltac:(lia)).
  pose proof (Z.mod_pos_bound j cw cw_pos). pose proof (Z.div_pos j cw Hj cw_pos). lia.
Qed.

(** With the columns of the cursor inside the page, the loop visits the
    rows of the cursor that are above the bottom edge, all of them. *)
Lemma visited_rows :
  0 <= left -> left + cw <= Width buf -> 0 <= top <= Height buf ->
  Z.of_nat (visited cursor pos buf 0 (xfixes.CursorImage cursor))
  = cw * Z.min ch (Height buf - top).
Proof.
  intros Hl Hr Ht. set (vr := Z.min ch (Height buf - top)).
  assert (Hvr : 0 <= vr <= ch) by (subst vr; lia).
  rewrite (visited_eq cursor pos buf _ 0 (Z.to_nat (cw * vr))); [nia | nia | |].
  - intros j Hj. replace (0 + Z.of_nat j) with (Z.of_nat j) by lia.
    destruct (sample_index (Z.of_nat j) ltac:(lia)) as (Hdec & Hq & Hm).
    rewrite Hdec. destruct (sample_row_col _ _ Hq Hm) as [-> ->].
    apply offScreen_false.
    assert (Z.of_nat j / cw < vr) by (apply Z.div_lt_upper_bound; nia).
    subst vr. lia.
  - intros Hlt. replace (0 + Z.of_nat (Z.to_nat (cw * vr))) with (vr * cw + 0) by nia.
    destruct (sample_row_col vr 0 ltac:(lia) ltac:(lia)) as [-> ->].
    assert (vr < ch) by nia.
    unfold offScreen. apply orb_true_iff. left. apply orb_true_iff. left.
    apply orb_true_iff. left. rewrite Z.geb_leb. apply Z.leb_le. subst vr. lia.
Qed.

(** X8.  A cursor whose columns all fall inside the page is clipped at the
    bottom edge and nowhere else: sample [(r, c)] of every cursor row that
    lands above the bottom edge is blended into page pixel [(top + r,
    left + c)], whose alpha byte becomes 255 and whose colour bytes follow
    the blend formula, and every byte outside those pixels is unchanged. *)
Theorem drawCursor_columns_inside (page : list Z) :
  Forall is_uint32 (xfixes.CursorImage cursor) ->
  Forall Go.is_byte page ->
  Go.len page = PageSize buf ->
  cursorOutside buf pos = false ->
  0 <= left -> left + cw <= Width buf -> 0 <= top <= Height buf ->
  exists page',
    drawCursor (Some cursor) (Some pos) buf page = Some page' /\
    (forall r c p, 0 <= r < Z.min ch (Height buf - top) -> 0 <= c < cw ->
       xfixes.CursorImage cursor !! Z.to_nat (r * cw + c) = Some p ->
       let off := pixelOffset buf (top + r) (left + c) in
       page' !! Z.to_nat (off + 3) = Some 255 /\
       forall k, 0 <= k < 3 ->
         exists d, page !! Z.to_nat (off + k) = Some d /\
           page' !! Z.to_nat (off + k)
           = Some (blendFormula (srcAlpha p) (srcChannel p k) d)) /\
    (forall row col k, 0 <= row < Height buf -> 0 <= col < Width buf -> 0 <= k < 4 ->
       ~ (top <= row < top + ch /\ left <= col < left + cw) ->
       page' !! Z.to_nat (pixelOffset buf row col + k)
       = page !! Z.to_nat (pixelOffset buf row col + k)).
Proof.
  intros Himg Hbytes Hlen Hout Hl Hr Ht.
  pose proof (visited_rows Hl Hr Ht) as Hvis.
  set (vr := Z.min ch (Height buf - top)) in *.
  destruct (cursorLoop_spec cursor pos buf cw_pos (xfixes.CursorImage cursor) 0 page
              ltac:(lia) Hlen) as (page' & Hrun & Hlen' & Hframe & Hpix).
  exists page'. split; [unfold drawCursor; rewrite Hout; exact Hrun|]. split.
  - intros r c p Hrr Hc Hp off.
    assert (Hj : 0 <= r * cw + c < cw * vr) by nia.
    specialize (Hpix (Z.to_nat (r * cw + c)) p ltac:(lia) Hp).
    replace (0 + Z.of_nat (Z.to_nat (r * cw + c))) with (r * cw + c) in Hpix by lia.
    unfold cursorOffset in Hpix.
    destruct (sample_row_col r c ltac:(lia) Hc) as [Hrow Hcol].
    rewrite Hrow, Hcol in Hpix.
    replace (r + top) with (top + r) in Hpix by lia.
    replace (c + left) with (left + c) in Hpix by lia. fold off in Hpix.
    assert (Hon : offScreen buf (top + r) (left + c) = false).
    { apply offScreen_false. subst vr. lia. }
    destruct (pixelOffset_bounds _ _ _ Hon) as [Hlo Hhi]. fold off in Hlo, Hhi.
    assert (Hp32 : is_uint32 p).
    { rewrite Forall_lookup in Himg. exact (Himg _ p Hp). }
    split.
    + rewrite (Hpix 3 ltac:(lia)).
      destruct (lookup_lt_len page (off + 3) ltac:(lia)) as [d ->]. reflexivity.
    + intros k Hk.
      destruct (lookup_lt_len page (off + k) ltac:(lia)) as [d Hd].
      assert (Hdb : Go.is_byte d).
      { rewrite Forall_lookup in Hbytes. exact (Hbytes _ d Hd). }
      exists d. split; [exact Hd|].
      rewrite (Hpix k ltac:(lia)), Hd. cbn [fmap option_fmap option_map].
      f_equal. apply blendByte_formula; auto.
  - intros row col k Hrow Hcol Hk Hnot. apply Hframe. intros j Hj Hin.
    replace (0 + Z.of_nat j) with (Z.of_nat j) in Hin by lia.
    destruct (sample_index (Z.of_nat j) ltac:(lia)) as (Hdec & Hq & Hm).
    unfold cursorOffset in Hin. rewrite Hdec in Hin.
    destruct (sample_row_col _ _ Hq Hm) as [Hr' Hc']. rewrite Hr', Hc' in Hin.
    assert (Hqlt : Z.of_nat j / cw < vr) by (apply Z.div_lt_upper_bound; nia).
    apply Hnot.
    assert (Hx : 0 <= pixelOffset buf row col + k).
    { unfold pixelOffset, bytesPerPixel. nia. }
    rewrite Z2Nat.id in Hin by exact Hx.
    unfold pixelOffset, bytesPerPixel in Hin.
    set (q := Z.of_nat j / cw) in *. set (m := Z.of_nat j mod cw) in *.
    assert (Hsame : row * Width buf + col = (q + top) * Width buf + (m + left)) by lia.
    assert (Hrq : row = q + top) by nia.
    subst vr. split; [lia|]. nia.
Qed.

(** With the right part of the cursor beyond the right edge, the loop ends
    inside the first row of the cursor. *)
Lemma visited_first_row :
  0 <= left < Width buf -> Width buf < left + cw -> 0 <= top < Height buf -> 1 <= ch ->
  Z.of_nat (visited cursor pos buf 0 (xfixes.CursorImage cursor)) = Width buf - left.
Proof.
  intros Hl Hr Ht Hch.
  rewrite (visited_eq cursor pos buf _ 0 (Z.to_nat (Width buf - left))); [lia | nia | |].
  - intros j Hj. replace (0 + Z.of_nat j) with (0 * cw + Z.of_nat j) by lia.
    destruct (sample_row_col 0 (Z.of_nat j) ltac:(lia) ltac:(lia)) as [-> ->].
    apply offScreen_false. lia.
  - intros _.
    replace (0 + Z.of_nat (Z.to_nat (Width buf - left)))
      with (0 * cw + (Width buf - left)) by lia.
    destruct (sample_row_col 0 (Width buf - left) ltac:(lia) ltac:(lia)) as [-> ->].
    unfold offScreen. apply orb_true_iff. left. apply orb_true_iff. left.
    apply orb_true_iff. right. rewrite Z.geb_leb. apply Z.leb_le. lia.
Qed.

(** X9.  A cursor that reaches beyond the right edge of the page is drawn
    in its first row only: the samples of that row that land on the page
    are blended, and no other byte of the page changes, the rows below
    included, although the cursor covers them. *)
Theorem drawCursor_right_overflow (page : list Z) :
  Go.len page = PageSize buf ->
  cursorOutside buf pos = false ->
  0 <= left < Width buf -> Width buf < left + cw -> 0 <= top < Height buf -> 1 <= ch ->
  exists page',
    drawCursor (Some cursor) (Some pos) buf page = Some page' /\
    (forall c p k, 0 <= c < Width buf - left -> 0 <= k < 4 ->
       xfixes.CursorImage cursor !! Z.to_nat c = Some p ->
       page' !! Z.to_nat (pixelOffset buf top (left + c) + k)
       = blendByte p k <$> page !! Z.to_nat (pixelOffset buf top (left + c) + k)) /\
    (forall row col k, 0 <= row < Height buf -> 0 <= col < Width buf -> 0 <= k < 4 ->
       row <> top \/ col < left ->
       page' !! Z.to_nat (pixelOffset buf row col + k)
       = page !! Z.to_nat (pixelOffset buf row col + k)).
Proof.
  intros Hlen Hout Hl Hr Ht Hch.
  pose proof (visited_first_row Hl Hr Ht Hch) as Hvis.
  destruct (cursorLoop_spec cursor pos buf cw_pos (xfixes.CursorImage cursor) 0 page
              ltac:(lia) Hlen) as (page' & Hrun & Hlen' & Hframe & Hpix).
  exists page'. split; [unfold drawCursor; rewrite Hout; exact Hrun|]. split.
  - intros c p k Hc Hk Hp.
    specialize (Hpix (Z.to_nat c) p ltac:(lia) Hp k Hk).
    replace (0 + Z.of_nat (Z.to_nat c)) with (0 * cw + c) in Hpix by lia.
    unfold cursorOffset in Hpix.
    destruct (sample_row_col 0 c ltac:(lia) ltac:(lia)) as [Hrow Hcol].
    rewrite Hrow, Hcol in Hpix.
    replace (0 + top) with top in Hpix by lia.
    replace (c + left) with (left + c) in Hpix by lia. exact Hpix.
  - intros row col k Hrow Hcol Hk Hnot. apply Hframe. intros j Hj Hin.
    replace (0 + Z.of_nat j) with (0 * cw + Z.of_nat j) in Hin by lia.
    unfold cursorOffset in Hin.
    destruct (sample_row_col 0 (Z.of_nat j) ltac:(lia) ltac:(lia)) as [Hr' Hc'].
    rewrite Hr', Hc' in Hin.
    assert (Hx : 0 <= pixelOffset buf row col + k).
    { unfold pixelOffset, bytesPerPixel. nia. }
    rewrite Z2Nat.id in Hin by exact Hx.
    unfold pixelOffset, bytesPerPixel in Hin.
    assert (Hsame : row * Width buf + col
                    = (0 + top) * Width buf + (Z.of_nat j + left)) by lia.
    assert (Hrq : row = 0 + top) by nia.
    nia.
Qed.

End CursorRectangle.

Lemma drawCursor_columns_inside_witness :
  exists page',
    drawCursor (Some smallCursor) (Some (at_ 1 1)) smallBuf smallPage = Some page' /\
    (forall r c p, 0 <= r < Z.min 2 (2 - (1 - 0)) -> 0 <= c < 2 ->
       xfixes.CursorImage smallCursor !! Z.to_nat (r * 2 + c) = Some p ->
       let off := pixelOffset smallBuf (1 - 0 + r) (1 - 1 + c) in
       page' !! Z.to_nat (off + 3) = Some 255 /\
       forall k, 0 <= k < 3 ->
         exists d, smallPage !! Z.to_nat (off + k) = Some d /\
           page' !! Z.to_nat (off + k)
           = Some (blendFormula (srcAlpha p) (srcChannel p k) d)) /\
    (forall row col k, 0 <= row < 2 -> 0 <= col < 2 -> 0 <= k < 4 ->
       ~ (1 - 0 <= row < 1 - 0 + 2 /\ 1 - 1 <= col < 1 - 1 + 2) ->
       page' !! Z.to_nat (pixelOffset smallBuf row col + k)
       = smallPage !! Z.to_nat (pixelOffset smallBuf row col + k)).
Proof.
  apply (drawCursor_columns_inside smallCursor (at_ 1 1) smallBuf);
    first [ reflexivity
          | cbn; lia
          | cbn; repeat constructor; unfold is_uint32, Go.is_byte; lia ].
Defined.

Lemma drawCursor_right_overflow_witness :
  exists page',
    drawCursor (Some smallCursor) (Some (at_ 2 0)) smallBuf smallPage = Some page' /\
    (forall c p k, 0 <= c < 2 - (2 - 1) -> 0 <= k < 4 ->
       xfixes.CursorImage smallCursor !! Z.to_nat c = Some p ->
       page' !! Z.to_nat (pixelOffset smallBuf (0 - 0) (2 - 1 + c) + k)
       = blendByte p k <$> smallPage !! Z.to_nat (pixelOffset smallBuf (0 - 0) (2 - 1 + c) + k)) /\
    (forall row col k, 0 <= row < 2 -> 0 <= col < 2 -> 0 <= k < 4 ->
       row <> 0 - 0 \/ col < 2 - 1 ->
       page' !! Z.to_nat (pixelOffset smallBuf row col + k)
       = smallPage !! Z.to_nat (pixelOffset smallBuf row col + k)).
Proof.
  apply (drawCursor_right_overflow smallCursor (at_ 2 0) smallBuf);
    first [ reflexivity | cbn; lia ].
Defined.

(** ** More on the capture loop *)

(** X10.  A pending resize notification takes the place of the fetch: the
    iteration leaves the segment and the page index as they are and sends
    nothing; it records the size of the event (also when it is the size
    already known) and the new pixmap.  When no pixmap identifier can be
    obtained the process ends. *)
Theorem configure_iteration (buf : Buffer) (st : Capture.t) (env : IterEnv) (evW evH : Z) :
  configure env = Some (evW, evH) ->
  match newPix env with
  | Some p =>
    captureIter buf st env
    = Continue buf {| Capture.i := Capture.i st; Capture.width := evW;
                      Capture.height := evH; Capture.pix := p;
                      Capture.scratch := Capture.scratch st |}
  | None => captureIter buf st env = Fatal
  end.
Proof.
  intros Hcfg. unfold captureIter, configureCase. rewrite Hcfg.
  destruct (newPix env) as [p|].
  - destruct (Z.eqb_spec evW (Capture.width st)) as [-> | HneW];
      destruct (Z.eqb_spec evH (Capture.height st)) as [-> | HneH];
      reflexivity.
  - destruct (negb _ || negb _); reflexivity.
Qed.

Lemma configure_iteration_witness :
  captureIter smallBuf wideWindow
    {| configure := Some (1000, 800); newPix := Some 7; fetch := FetchErr;
       cursor := None; cursorPos := None |}
  = Continue smallBuf {| Capture.i := 1; Capture.width := 1000;
                         Capture.height := 800; Capture.pix := 7;
                         Capture.scratch := [] |}.
Proof.
  apply (configure_iteration smallBuf wideWindow
           {| configure := Some (1000, 800); newPix := Some 7; fetch := FetchErr;
              cursor := None; cursorPos := None |} 1000 800).
  reflexivity.
Defined.

(** What an iteration keeps, however it ends. *)
Lemma captureIter_shape (buf : Buffer) (st : Capture.t) (env : IterEnv) :
  match captureIter buf st env with
  | Continue b' s' => PageSize b' = PageSize buf /\ Capture.i s' = Capture.i st
  | Send b' s' pg =>
    PageSize b' = PageSize buf /\ Capture.i s' = Capture.i st /\
    pg = pageView buf (Capture.i st)
  | Fatal | Panic => True
  end.
Proof.
  unfold captureIter.
  destruct (configure env) as [[evW evH]|].
  - destruct (configureCase st evW evH (newPix env)) as [c'|] eqn:Ec; [|exact I].
    apply configureCase_spec in Ec as [Ei _]. auto.
  - destruct (fetch env) as [data|]; cbn [fetchStep]; [|auto].
    unfold reconcileStep.
    destruct (Page _ (Capture.i st)) as [page|]; cbn [mbind option_bind]; [|exact I].
    destruct (reconcile _ _ _ _ page) as [[sc pg]|]; cbn [mbind option_bind]; [|exact I].
    unfold cursorStep. cbn [Capture.i].
    destruct (Page _ (Capture.i st)) as [page2|]; cbn [mbind option_bind]; [|exact I].
    destruct (drawCursor _ _ _ page2) as [page3|]; cbn [mbind option_bind]; [|exact I].
    repeat split.
Qed.

Lemma captureLoop_sent (envs : list IterEnv) :
  forall (buf : Buffer) (st : Capture.t),
    Capture.i st = 0 \/ Capture.i st = 1 ->
    forall (n : nat) (pg : Slice),
      (captureLoop buf st envs).2 !! n = Some pg ->
      pg = pageView buf ((Capture.i st + Z.of_nat n) mod 2).
Proof.
  induction envs as [|env envs IH]; intros buf st Hi n pg Hn; cbn [captureLoop] in Hn.
  - destruct n; discriminate.
  - pose proof (captureIter_shape buf st env) as Hshape.
    destruct (captureIter buf st env) as [b' s' | b' s' page | | ].
    + destruct Hshape as [Hsz Hi']. rewrite <- Hi' in Hi.
      rewrite (IH b' s' Hi n pg Hn), Hi'.
      unfold pageView, PageOffset. rewrite Hsz. reflexivity.
    + destruct Hshape as (Hsz & Hi' & ->).
      destruct (captureLoop b' (advance s') envs) as [[[status b] c] sent] eqn:Eloop.
      cbn [snd] in Hn. destruct n as [|n].
      * injection Hn as <-. f_equal.
        destruct Hi as [-> | ->]; reflexivity.
      * cbn in Hn.
        assert (Hadv : Capture.i (advance s') = 0 \/ Capture.i (advance s') = 1).
        { cbn [advance Capture.i]. rewrite Hi'. destruct Hi as [-> | ->]; auto. }
        specialize (IH b' (advance s') Hadv n pg). rewrite Eloop in IH.
        rewrite (IH Hn). unfold pageView, PageOffset. rewrite Hsz. do 2 f_equal.
        cbn [advance Capture.i]. rewrite Hi'.
        destruct Hi as [-> | ->]; cbn [Z.rem].
        -- change (Z.rem (0 + 1) 2) with 1.
           replace (0 + Z.of_nat (S n)) with (1 + Z.of_nat n + 0) by lia. f_equal. lia.
        -- change (Z.rem (1 + 1) 2) with 0.
           replace (1 + Z.of_nat (S n)) with (0 + Z.of_nat n + 1 * 2) by lia.
           rewrite Z.mod_add by lia. reflexivity.
    + destruct n; discriminate.
    + destruct n; discriminate.
Qed.

(** X11.  The capture loop hands its pages over in turn: whatever the
    iterations meet (resizes, failed fetches), the [n]-th page it sends is
    the view of slot [(i + n) mod 2], where [i] is the slot it starts
    with, and has the size of one page. *)
Theorem captureLoop_round_robin (buf : Buffer) (st : Capture.t) (envs : list IterEnv)
    (n : nat) (pg : Slice) :
  Capture.i st = 0 \/ Capture.i st = 1 ->
  (captureLoop buf st envs).2 !! n = Some pg ->
  base pg = PageSize buf * ((Capture.i st + Z.of_nat n) mod 2) /\
  size pg = PageSize buf.
Proof.
  intros Hi Hn. rewrite (captureLoop_sent envs buf st Hi n pg Hn). split; reflexivity.
Qed.

Lemma captureLoop_round_robin_witness :
  base {| base := 16; size := 16 |} = PageSize smallBuf * ((0 + Z.of_nat 1) mod 2) /\
  size {| base := 16; size := 16 |} = PageSize smallBuf.
Proof.
  apply (captureLoop_round_robin smallBuf smallCapture someIterations 1
           {| base := 16; size := 16 |}).
  - left. reflexivity.
  - vm_compute. reflexivity.
Defined.

Lemma reconcile_total (buf : Buffer) (w h : Z) (scratch page : list Z) :
  0 <= w <= Width buf -> 0 <= h <= Height buf ->
  Go.len page = PageSize buf -> Go.len scratch = PageSize buf ->
  exists sc pg,
    reconcile buf w h scratch page = Some (sc, pg) /\
    length pg = length page /\ length sc = length scratch.
Proof.
  intros Hw Hh Hlen Hscr.
  destruct (Z.lt_ge_cases w (Width buf)) as [HwW | HwW];
    [|destruct (Z.lt_ge_cases h (Height buf)) as [HhH | HhH]].
  - destruct (reconcile_spec buf w h scratch page Hw Hh ltac:(auto) Hlen Hscr)
      as (pg & Hrun & Hl & _).
    exists page, pg. unfold Go.len in *. split; [exact Hrun|]. split; lia.
  - destruct (reconcile_spec buf w h scratch page Hw Hh ltac:(auto) Hlen Hscr)
      as (pg & Hrun & Hl & _).
    exists page, pg. unfold Go.len in *. split; [exact Hrun|]. split; lia.
  - exists scratch, page. unfold reconcile.
    destruct (Z.ltb_spec w (Width buf)); [lia|].
    destruct (Z.ltb_spec h (Height buf)); [lia|]. auto.
Qed.

Lemma pageBytes_length (b : Buffer) (idx : Z) :
  wfBuffer b -> 0 <= idx < Pages b ->
  Go.len (sliceBytes (Data b) (Some (pageView b idx))) = PageSize b.
Proof.
  intros Hwf Hidx. apply (Page_length b idx). apply Page_Some; assumption.
Qed.

(** X12.  In a store of two pages, an iteration of the capture loop whose
    fetch succeeds never panics and always reaches its send, whatever the
    sizes of the window and of the store and whatever the cursor (of
    positive width) is: it offers the view of the current page, and leaves
    the page index and the shape of the store as they were. *)
Theorem captureIter_reaches_send (buf : Buffer) (st : Capture.t) (env : IterEnv)
    (data : list Z) :
  wfBuffer buf -> Pages buf = 2 -> wfCapture buf st ->
  configure env = None -> fetch env = FetchOk data ->
  (forall c, cursor env = Some c -> 0 < xfixes.Width c) ->
  exists buf' st',
    captureIter buf st env = Send buf' st' (pageView buf (Capture.i st)) /\
    Capture.i st' = Capture.i st /\
    wfBuffer buf' /\ Width buf' = Width buf /\ Height buf' = Height buf /\
    Pages buf' = Pages buf /\ wfCapture buf' st'.
Proof.
  intros Hwf HP (Hi & Hw & Hh & Hscr) Hcfg Hfetch Hcur.
  pose proof Hwf as (HW & HH & _ & _).
  assert (Hidx : 0 <= Capture.i st < Pages buf) by (destruct Hi; lia).
  unfold captureIter. rewrite Hcfg, Hfetch. cbn [fetchStep].
  set (req := getImageRequest buf st).
  set (buf1 := xshmStore buf req data).
  pose proof (wfBuffer_xshmStore buf req data Hwf) as Hwf1. fold buf1 in Hwf1.
  unfold reconcileStep. rewrite (Page_Some buf1 _ Hwf1 Hidx). cbn [mbind option_bind].
  pose proof (pageBytes_length buf1 (Capture.i st) Hwf1 Hidx) as Hplen.
  destruct (reconcile_total buf1 (reqW req) (reqH req) (Capture.scratch st)
              (sliceBytes (Data buf1) (Some (pageView buf1 (Capture.i st)))))
    as (sc & pg & Hrec & Hpg & Hsc).
  { subst req. cbn [getImageRequest reqW]. change (Width buf1) with (Width buf).
    rewrite fetchWidth_min by lia. lia. }
  { subst req. cbn [getImageRequest reqH]. change (Height buf1) with (Height buf).
    rewrite fetchHeight_min by lia. lia. }
  { exact Hplen. }
  { exact Hscr. }
  rewrite Hrec. cbn [mbind option_bind].
  set (buf2 := storePage buf1 (Capture.i st) pg).
  pose proof (wfBuffer_storePage buf1 (Capture.i st) pg Hwf1) as Hwf2. fold buf2 in Hwf2.
  assert (Hpglen : Go.len pg = PageSize buf1) by (unfold Go.len in *; lia).
  unfold cursorStep. cbn [Capture.i].
  assert (Hpage2 : Page buf2 (Capture.i st) = Some pg).
  { subst buf2. rewrite (Page_storePage buf1 _ _ pg Hwf1 Hidx Hidx Hpglen).
    destruct (decide (Capture.i st = Capture.i st)); congruence. }
  rewrite Hpage2. cbn [mbind option_bind].
  destruct (drawCursor_total (cursor env) (cursorPos env) buf2 pg Hpglen Hcur)
    as (page' & Hdraw & Hl').
  rewrite Hdraw. cbn [mbind option_bind].
  eexists _, _. split; [reflexivity|]. cbn [Capture.i]. split; [reflexivity|].
  split; [apply wfBuffer_storePage; exact Hwf2|].
  split; [reflexivity|]. split; [reflexivity|]. split; [reflexivity|].
  unfold wfCapture. cbn [Capture.i Capture.width Capture.height Capture.scratch].
  split; [exact Hi|]. split; [exact Hw|]. split; [exact Hh|].
  unfold Go.len in *. rewrite Hsc. exact Hscr.
Qed.

Lemma captureIter_reaches_send_witness :
  exists buf' st',
    captureIter smallBuf smallCapture
      {| configure := None; newPix := None; fetch := FetchOk [1; 2; 3; 4];
         cursor := Some smallCursor; cursorPos := Some (at_ 1 1) |}
    = Send buf' st' (pageView smallBuf (Capture.i smallCapture)) /\
    Capture.i st' = Capture.i smallCapture /\
    wfBuffer buf' /\ Width buf' = Width smallBuf /\ Height buf' = Height smallBuf /\
    Pages buf' = Pages smallBuf /\ wfCapture buf' st'.
Proof.
  apply (captureIter_reaches_send smallBuf smallCapture
           {| configure := None; newPix := None; fetch := FetchOk [1; 2; 3; 4];
              cursor := Some smallCursor; cursorPos := Some (at_ 1 1) |} [1; 2; 3; 4]).
  - unfold wfBuffer. cbn. repeat split; lia.
  - reflexivity.
  - unfold wfCapture. cbn. repeat split; auto; lia.
  - reflexivity.
  - reflexivity.
  - intros c [= <-]. cbn. lia.
Defined.

(** The page after a fetch holds the fetched bytes, packed. *)
Lemma fetched_page (b : Buffer) (st : Capture.t) (data : list Z) (k : nat) :
  wfBuffer b -> 0 <= Capture.i st < Pages b ->
  0 <= Capture.width st < 2 ^ 16 -> 0 <= Capture.height st < 2 ^ 16 ->
  PageOffset b (Capture.i st) < 2 ^ 32 ->
  let req := getImageRequest b st in
  Go.len data = reqW req * reqH req * 4 ->
  Z.of_nat k < reqW req * reqH req * 4 ->
  sliceBytes (Data (xshmStore b req data)) (Some (pageView b (Capture.i st))) !! k
  = data !! k.
Proof.
  intros Hwf Hidx Hw Hh Hfit req Hdata Hk.
  pose proof Hwf as (HW & HH & _ & _).
  destruct (page_bounds b _ Hwf Hidx) as (Hs & Ho & Hend).
  destruct (getImageRequest_spec b st Hw Hh HW HH ltac:(lia) Hfit) as (_ & _ & HrO & Hrsz).
  fold req in HrO, Hrsz. unfold bytesPerPixel in Hrsz. unfold Go.len in *.
  cbn [sliceBytes pageView base size xshmStore withData Data].
  rewrite lookup_take_lt by lia. rewrite lookup_drop.
  rewrite list_lookup_inserts.
  - rewrite lookup_take_lt by (unfold bytesPerPixel; lia). f_equal. lia.
  - rewrite length_take. unfold bytesPerPixel. lia.
  - lia.
Qed.

(** X13.  In a store whose pages are shorter than [2^32] bytes
    ([PageSize buf < 2^32], so that [uint32(offset)] in the request is the
    offset of the page), what the pacer is offered after an iteration with
    a successful fetch and no cursor: with [w x h] the clamped size of the
    window and
    [data] the [w*h*4] bytes the server stored, pixel [(r, c)] of the page
    holds pixel [(r, c)] of the fetched image for [r < h] and [c < w], all
    other pixels of the page are zero, and the other page of the store is
    as it was. *)
Theorem captureIter_delivers_fetched_image (buf : Buffer) (st : Capture.t) (env : IterEnv)
    (data : list Z) :
  wfBuffer buf -> Pages buf = 2 -> wfCapture buf st -> PageSize buf < 2 ^ 32 ->
  configure env = None -> fetch env = FetchOk data -> cursor env = None ->
  let w := Z.min (Capture.width st) (Width buf) in
  let h := Z.min (Capture.height st) (Height buf) in
  Go.len data = w * h * 4 ->
  exists buf' st' page,
    captureIter buf st env = Send buf' st' (pageView buf (Capture.i st)) /\
    Page buf' (Capture.i st) = Some page /\
    (forall r c k, 0 <= r < h -> 0 <= c < w -> 0 <= k < 4 ->
       page !! Z.to_nat (r * Width buf * 4 + c * 4 + k)
       = data !! Z.to_nat (r * w * 4 + c * 4 + k)) /\
    (forall r c k, 0 <= r < Height buf -> 0 <= c < Width buf -> 0 <= k < 4 ->
       h <= r \/ w <= c ->
       page !! Z.to_nat (r * Width buf * 4 + c * 4 + k) = Some 0) /\
    Page buf' (1 - Capture.i st) = Page buf (1 - Capture.i st).
Proof.
  intros Hwf HP (Hi & Hw & Hh & Hscr) Hfit Hcfg Hfetch Hcur w h Hdata.
  pose proof Hwf as (HW & HH & _ & _).
  assert (Hidx : 0 <= Capture.i st < Pages buf) by (destruct Hi; lia).
  assert (Hidx' : 0 <= 1 - Capture.i st < Pages buf) by (destruct Hi; lia).
  destruct (page_bounds buf _ Hwf Hidx) as (Hs & Ho & Hend).
  assert (Hofit : PageOffset buf (Capture.i st) < 2 ^ 32).
  { unfold PageOffset. destruct Hi as [-> | ->]; lia. }
  unfold captureIter. rewrite Hcfg, Hfetch, Hcur. cbn [fetchStep].
  set (req := getImageRequest buf st).
  assert (HrW : reqW req = w).
  { subst req w. cbn [getImageRequest reqW]. apply fetchWidth_min; lia. }
  assert (HrH : reqH req = h).
  { subst req h. cbn [getImageRequest reqH]. apply fetchHeight_min; lia. }
  set (buf1 := xshmStore buf req data).
  pose proof (wfBuffer_xshmStore buf req data Hwf) as Hwf1. fold buf1 in Hwf1.
  set (P := sliceBytes (Data buf1) (Some (pageView buf1 (Capture.i st)))).
  pose proof (pageBytes_length buf1 (Capture.i st) Hwf1 Hidx) as Hplen. fold P in Hplen.
  assert (HP1 : forall k : nat, Z.of_nat k < w * h * 4 -> P !! k = data !! k).
  { intros k Hk. subst P buf1.
    apply (fetched_page buf st data k Hwf Hidx Hw Hh Hofit); fold req; rewrite HrW, HrH; lia. }
  unfold reconcileStep. rewrite (Page_Some buf1 _ Hwf1 Hidx). fold P.
  cbn [mbind option_bind]. rewrite HrW, HrH.
  assert (Hwb : 0 <= w <= Width buf) by (subst w; lia).
  assert (Hhb : 0 <= h <= Height buf) by (subst h; lia).
  assert (Hrec : exists sc pg,
            reconcile buf1 w h (Capture.scratch st) P = Some (sc, pg) /\
            length pg = length P /\
            (forall r c k, 0 <= r < h -> 0 <= c < w -> 0 <= k < 4 ->
               pg !! Z.to_nat (r * Width buf * 4 + c * 4 + k)
               = data !! Z.to_nat (r * w * 4 + c * 4 + k)) /\
            (forall r c k, 0 <= r < Height buf -> 0 <= c < Width buf -> 0 <= k < 4 ->
               h <= r \/ w <= c ->
               pg !! Z.to_nat (r * Width buf * 4 + c * 4 + k) = Some 0)).
  { destruct (Z.lt_ge_cases w (Width buf)) as [HwW | HwW];
      [|destruct (Z.lt_ge_cases h (Height buf)) as [HhH | HhH]].
    1-2: destruct (reconcile_spec buf1 w h (Capture.scratch st) P Hwb Hhb ltac:(auto)
                     Hplen Hscr) as (pg & Hrun & Hl & Hrows & Hzero);
         exists P, pg; split; [exact Hrun|]; split; [exact Hl|]; split;
         [ intros r c k Hr Hc Hk; unfold bytesPerPixel in Hrows;
           change (Width buf1) with (Width buf) in Hrows;
           rewrite (Hrows r c k Hr Hc Hk); apply HP1; nia
         | unfold bytesPerPixel in Hzero; exact Hzero ].
    assert (w = Width buf) by lia. assert (h = Height buf) by lia.
    exists (Capture.scratch st), P. split.
    { unfold reconcile. change (Width buf1) with (Width buf).
      change (Height buf1) with (Height buf).
      destruct (Z.ltb_spec w (Width buf)); [lia|].
      destruct (Z.ltb_spec h (Height buf)); [lia|]. reflexivity. }
    split; [reflexivity|]. split.
    - intros r c k Hr Hc Hk. replace (Width buf) with w by lia.
      rewrite <- HP1 by nia. reflexivity.
    - intros r c k Hr Hc Hk Hout. lia. }
  destruct Hrec as (sc & pg & Hrun & Hl & Hrows & Hzero).
  rewrite Hrun. cbn [mbind option_bind].
  assert (Hpglen : Go.len pg = PageSize buf1) by (unfold Go.len in *; lia).
  set (buf2 := storePage buf1 (Capture.i st) pg).
  pose proof (wfBuffer_storePage buf1 (Capture.i st) pg Hwf1) as Hwf2. fold buf2 in Hwf2.
  assert (Hpage2 : Page buf2 (Capture.i st) = Some pg).
  { subst buf2. rewrite (Page_storePage buf1 _ _ pg Hwf1 Hidx Hidx Hpglen).
    destruct (decide (Capture.i st = Capture.i st)); congruence. }
  unfold cursorStep. cbn [Capture.i drawCursor]. rewrite Hpage2. cbn [mbind option_bind].
  eexists _, _, pg. split; [reflexivity|]. split.
  { rewrite (Page_storePage buf2 _ _ pg Hwf2 Hidx Hidx Hpglen).
    destruct (decide (Capture.i st = Capture.i st)); congruence. }
  split; [exact Hrows|]. split; [exact Hzero|].
  assert (Hne : Capture.i st <> 1 - Capture.i st) by lia.
  rewrite (Page_storePage buf2 _ _ pg Hwf2 Hidx Hidx' Hpglen).
  destruct (decide (Capture.i st = 1 - Capture.i st)); [lia|].
  subst buf2. rewrite (Page_storePage buf1 _ _ pg Hwf1 Hidx Hidx' Hpglen).
  destruct (decide (Capture.i st = 1 - Capture.i st)); [lia|].
  rewrite (Page_Some buf1 _ Hwf1 Hidx'), (Page_Some buf _ Hwf Hidx'). f_equal.
  destruct (page_bounds buf _ Hwf Hidx') as (_ & Ho' & _).
  apply sliceBytes_ext; [exact Ho'|].
  intros m Hm. cbn [pageView base size] in Hm. subst buf1.
  destruct (getImageRequest_spec buf st Hw Hh HW HH ltac:(lia) Hofit) as (_ & _ & HrO & Hrsz).
  fold req in HrO, Hrsz.
  apply xshmStore_frame; try lia.
  unfold PageOffset in *. destruct Hi as [Hi | Hi]; rewrite Hi in *; lia.
Qed.

Lemma captureIter_delivers_fetched_image_witness :
  let w := Z.min 1 2 in
  let h := Z.min 1 2 in
  exists buf' st' page,
    captureIter smallBuf wideWindowSmall (fetchOf [9; 8; 7; 6])
    = Send buf' st' (pageView smallBuf (Capture.i wideWindowSmall)) /\
    Page buf' (Capture.i wideWindowSmall) = Some page /\
    (forall r c k, 0 <= r < h -> 0 <= c < w -> 0 <= k < 4 ->
       page !! Z.to_nat (r * Width smallBuf * 4 + c * 4 + k)
       = [9; 8; 7; 6] !! Z.to_nat (r * w * 4 + c * 4 + k)) /\
    (forall r c k, 0 <= r < Height smallBuf -> 0 <= c < Width smallBuf -> 0 <= k < 4 ->
       h <= r \/ w <= c ->
       page !! Z.to_nat (r * Width smallBuf * 4 + c * 4 + k) = Some 0) /\
    Page buf' (1 - Capture.i wideWindowSmall) = Page smallBuf (1 - Capture.i wideWindowSmall).
Proof.
  apply (captureIter_delivers_fetched_image smallBuf wideWindowSmall
           (fetchOf [9; 8; 7; 6]) [9; 8; 7; 6]).
  - unfold wfBuffer. cbn. repeat split; lia.
  - reflexivity.
  - unfold wfCapture. cbn. repeat split; auto; lia.
  - reflexivity.
  - reflexivity.
  - reflexivity.
  - reflexivity.
  - reflexivity.
Defined.

(** ** The frames the encoder receives *)

(** The pacer holds no page exactly as long as it has received none. *)
Lemma run_held_None (fps : Z) (es : list Event) :
  forall s s', run fps s es = Some s' ->
    (held s' = None <-> held s = None /\ snd (counts fps s es) = 0%nat).
Proof.
  induction es as [|e es IH]; intros s s' Hrun; cbn [run counts] in *.
  - injection Hrun as <-. cbn [snd]. tauto.
  - destruct (step fps s e) as [s1|] eqn:E1; cbn [mbind option_bind] in Hrun; [|discriminate].
    specialize (IH s1 s' Hrun). rewrite IH.
    destruct (counts fps s1 es) as [p k]. cbn [snd].
    apply step_Step in E1. unfold held.
    step_rules E1; cbn [snd]; try tauto.
    + (* the reception *)
      split; [intros [? _]; discriminate | intros [_ ?]; discriminate].
    + (* the default case *)
      cbn [selectCase Pacer.prevFrame]. destruct pc; cbn [snd]; first [tauto | congruence].
    + (* sendFrame *)
      apply sendFrame_prevFrame in Esend as [-> _]. tauto.
Qed.

Section Frames.

Variables (fps W H : Z).
Hypothesis W_uint16 : 0 <= W < 2 ^ 16.
Hypothesis H_uint16 : 0 <= H < 2 ^ 16.

Lemma pageView_length (mem : list Z) (v : option Slice) :
  Go.len mem = 2 * (W * H * 4) -> isPageView W H v ->
  sliceBytes mem v = [] /\ v = None \/
  Z.of_nat (length (sliceBytes mem v)) = W * H * 4 /\ v <> None.
Proof.
  intros Hlen Hv. assert (0 <= W * H * 4) by nia. unfold Go.len in Hlen.
  destruct Hv as [-> | [-> | ->]]; [left; auto | right | right];
    (split; [|discriminate]); cbn [sliceBytes base size];
    rewrite length_take, length_drop; lia.
Qed.

Lemma Step_wholeFrames (s : Sys.t) (e : Event) (s' : Sys.t) :
  Inv W H s -> wholeFrames W H s -> Step fps s e s' -> wholeFrames W H s'.
Proof.
  intros HInv HF HS.
  destruct HInv as (HW & HH & Hlen & Hi & _).
  unfold wholeFrames in *. destruct HF as (Hprev & Hpend & Hshape & Hnone & Hmono).
  step_rules HS; try (repeat split; assumption).
  - (* the reception *)
    repeat split; try assumption.
    intros x [= <-]. rewrite (pageView_dims b (Capture.i c) W H HW HH).
    destruct Hi as [-> | ->]; [right; left | right; right]; do 2 f_equal; lia.
  - (* the default case *)
    cbn [selectCase Pacer.prevFrame Pacer.sink]. repeat split; try assumption.
    intros x [= <-]. left. reflexivity.
  - (* sendFrame *)
    apply sendFrame_prevFrame in Esend as (Hprev' & c0 & Hsink & Hblock).
    assert (Hview : isPageView W H (Pacer.prevFrame pa')).
    { rewrite Hprev'. destruct x as [v|]; [|exact Hprev]. exact (Hpend _ eq_refl). }
    pose proof (pageView_length (Data b) _ Hlen Hview) as Hframe.
    assert (Hold : forall (n : nat) c1, Pacer.sink pa !! n = Some c1 ->
              (length (SimpleBlock c1) <= length (SimpleBlock c0))%nat).
    { intros n c1 Hc1. rewrite Hblock, length_app.
      destruct Hframe as [[_ Hn] | [Hfull _]].
      - assert (Pacer.prevFrame pa = None).
        { rewrite Hn in Hprev'. destruct x; [discriminate | congruence]. }
        rewrite (Hnone ltac:(assumption) n c1 Hc1). cbn. lia.
      - destruct (Hshape n c1 Hc1) as (frame & -> & [-> | Hfr]);
          rewrite length_app; cbn [length]; lia. }
    rewrite Hsink. split; [exact Hview|]. split; [discriminate|]. split; [|split].
    + intros n c1 Hc1. apply lookup_app_Some in Hc1 as [Hc1 | [_ Hc1]].
      * exact (Hshape n c1 Hc1).
      * destruct (n - length (Pacer.sink pa))%nat as [|k]; [|destruct k; discriminate].
        injection Hc1 as <-. exists (sliceBytes (Data b) (Pacer.prevFrame pa')).
        split; [exact Hblock|]. destruct Hframe as [[-> _] | [Hfull _]]; auto.
    + intros Hn n c1 Hc1.
      assert (Hpn : Pacer.prevFrame pa = None).
      { rewrite Hn in Hprev'. destruct x; [discriminate | congruence]. }
      apply lookup_app_Some in Hc1 as [Hc1 | [_ Hc1]].
      * exact (Hnone Hpn n c1 Hc1).
      * destruct (n - length (Pacer.sink pa))%nat as [|k]; [|destruct k; discriminate].
        injection Hc1 as <-. rewrite Hblock, Hn. reflexivity.
    + intros m n c1 c2 Hmn Hc1 Hc2.
      apply lookup_app_Some in Hc2 as [Hc2 | [Hge Hc2]].
      * rewrite lookup_app_l in Hc1 by (apply lookup_lt_Some in Hc2; lia).
        exact (Hmono m n c1 c2 Hmn Hc1 Hc2).
      * destruct (n - length (Pacer.sink pa))%nat as [|k] eqn:Ek; [|destruct k; discriminate].
        injection Hc2 as <-.
        apply lookup_app_Some in Hc1 as [Hc1 | [Hge1 Hc1]].
        -- exact (Hold m c1 Hc1).
        -- destruct (m - length (Pacer.sink pa))%nat as [|k]; [|destruct k; discriminate].
           injection Hc1 as <-. lia.
Qed.

Lemma run_wholeFrames (es : list Event) :
  forall s s', Inv W H s -> wholeFrames W H s -> run fps s es = Some s' ->
    wholeFrames W H s'.
Proof.
  induction es as [|e es IH]; intros s s' HInv HF Hrun; cbn [run] in Hrun.
  - injection Hrun as <-. exact HF.
  - destruct (step fps s e) as [s1|] eqn:E1; cbn [mbind option_bind] in Hrun; [|discriminate].
    apply step_Step in E1.
    exact (IH s1 s' (Step_Inv fps W H W_uint16 H_uint16 _ _ _ HInv E1)
              (Step_wholeFrames _ _ _ HInv HF E1) Hrun).
Qed.

(** X14.  In every interleaving of the two loops, each block the encoder
    receives is the four header bytes followed by the bytes of the page
    the pacer holds when [sendFrame] runs: nothing as long as no page has
    been received, and from the first reception on the [W*H*4] bytes of one
    of the two pages, as the segment has them at that moment.  So each
    block of the sink is the header followed either by nothing or by
    exactly one page, blocks without pixels come only before the first
    page was received, and the blocks never get shorter. *)
Theorem emitted_frames_whole (data : list Z) (shmID pix0 : Z)
    (es : list Event) (s : Sys.t) :
  Go.len data = 2 * (W * H * 4) ->
  run fps (initial W H data shmID pix0) es = Some s ->
  let received := snd (counts fps (initial W H data shmID pix0) es) in
  (forall (n : nat) c, Pacer.sink (Sys.pacer s) !! n = Some c ->
     exists frame, SimpleBlock c = [129; 0; 0; 128] ++ frame /\
       (frame = [] \/ Z.of_nat (length frame) = W * H * 4)) /\
  (forall (m n : nat) c c', (m <= n)%nat ->
     Pacer.sink (Sys.pacer s) !! m = Some c -> Pacer.sink (Sys.pacer s) !! n = Some c' ->
     (length (SimpleBlock c) <= length (SimpleBlock c'))%nat) /\
  (Pacer.prevFrame (Sys.pacer s) = None ->
   forall (n : nat) c, Pacer.sink (Sys.pacer s) !! n = Some c ->
     SimpleBlock c = [129; 0; 0; 128]) /\
  (held s = None <-> received = 0%nat) /\
  (forall s', step fps s ESendFrame = Some s' ->
     exists c,
       Pacer.sink (Sys.pacer s') = Pacer.sink (Sys.pacer s) ++ [c] /\
       SimpleBlock c = [129; 0; 0; 128] ++ sliceBytes (Data (Sys.buf s)) (held s) /\
       (received = 0%nat -> SimpleBlock c = [129; 0; 0; 128]) /\
       (received <> 0%nat ->
        Z.of_nat (length (SimpleBlock c)) = 4 + W * H * 4 /\
        exists slot, (slot = 0 \/ slot = 1) /\
          held s = Some (pageView (Sys.buf s) slot))).
Proof.
  intros Hlen Hrun received.
  pose proof (initial_Inv W H W_uint16 H_uint16 data shmID pix0 Hlen) as HInv0.
  assert (HF0 : wholeFrames W H (initial W H data shmID pix0)).
  { unfold wholeFrames, initial. cbn. repeat split.
    - left. reflexivity.
    - intros x Hx. discriminate.
    - intros n c Hc. destruct n; discriminate.
    - intros _ n c Hc. destruct n; discriminate.
    - intros m n c c' _ Hc. destruct m; discriminate. }
  destruct (run_wholeFrames es _ _ HInv0 HF0 Hrun) as (_ & _ & Hshape & Hnone & Hmono).
  pose proof (run_Inv fps W H W_uint16 H_uint16 es _ _ HInv0 Hrun) as HInv.
  assert (Hheld : held s = None <-> received = 0%nat).
  { rewrite (run_held_None fps es _ _ Hrun). subst received.
    change (held (initial W H data shmID pix0)) with (@None Slice). tauto. }
  split; [exact Hshape|]. split; [exact Hmono|]. split; [exact Hnone|].
  split; [exact Hheld|].
  intros s' Hstep.
  destruct HInv as (HW & HH & Hlen' & Hi & _ & _ & Hview).
  assert (Hslot : heldSlot s = 0 \/ heldSlot s = 1).
  { unfold heldSlot. destruct (Sys.pc s); lia. }
  clearbody received. clear Hlen Hrun HInv0 HF0 data.
  apply step_Step in Hstep. remember ESendFrame as e eqn:He.
  revert Hheld Hview Hslot. unfold held, heldSlot.
  step_rules Hstep; try discriminate. intros Hheld Hview Hslot.
  apply sendFrame_prevFrame in Esend as (Hprev & c0 & Hsink & Hblock).
  assert (Hb : Pacer.prevFrame pa' = match x with Some v => Some v | None => Pacer.prevFrame pa end)
    by exact Hprev.
  assert (Hsame : Pacer.prevFrame pa'
                  = match Some x with Some (Some v) => Some v | _ => Pacer.prevFrame pa end).
  { rewrite Hb. destruct x; reflexivity. }
  exists c0. split; [exact Hsink|]. rewrite Hblock, Hsame. split; [reflexivity|]. split.
  - intros H0. apply Hheld in H0. rewrite H0. reflexivity.
  - intros Hpos.
    destruct Hview as [Hn | Hv]; [apply Hheld in Hn; contradiction|].
    assert (Hsz0 : 0 <= W * H * 4) by nia.
    rewrite Hv. split.
    + rewrite length_app. cbn [sliceBytes base size blockHeader length].
      rewrite length_take, length_drop. unfold Go.len in Hlen'.
      destruct Hslot as [-> | ->]; lia.
    + exists (match pc with Sent => Capture.i c | _ => 1 - Capture.i c end).
      split; [exact Hslot|]. f_equal. symmetry. apply pageView_dims; assumption.
Qed.

End Frames.

Lemma emitted_frames_whole_witness :
  let s0 := initial 1 1 [1; 2; 3; 4; 5; 6; 7; 8] 0 0 in
  let es := firstMoves ++ take 3 nextMoves in
  exists s,
    run 60 s0 es = Some s /\
    let received := snd (counts 60 s0 es) in
    (forall (n : nat) c, Pacer.sink (Sys.pacer s) !! n = Some c ->
       exists frame, SimpleBlock c = [129; 0; 0; 128] ++ frame /\
         (frame = [] \/ Z.of_nat (length frame) = 1 * 1 * 4)) /\
    (forall (m n : nat) c c', (m <= n)%nat ->
       Pacer.sink (Sys.pacer s) !! m = Some c -> Pacer.sink (Sys.pacer s) !! n = Some c' ->
       (length (SimpleBlock c) <= length (SimpleBlock c'))%nat) /\
    (Pacer.prevFrame (Sys.pacer s) = None ->
     forall (n : nat) c, Pacer.sink (Sys.pacer s) !! n = Some c ->
       SimpleBlock c = [129; 0; 0; 128]) /\
    (held s = None <-> received = 0%nat) /\
    (forall s', step 60 s ESendFrame = Some s' ->
       exists c,
         Pacer.sink (Sys.pacer s') = Pacer.sink (Sys.pacer s) ++ [c] /\
         SimpleBlock c = [129; 0; 0; 128] ++ sliceBytes (Data (Sys.buf s)) (held s) /\
         (received = 0%nat -> SimpleBlock c = [129; 0; 0; 128]) /\
         (received <> 0%nat ->
          Z.of_nat (length (SimpleBlock c)) = 4 + 1 * 1 * 4 /\
          exists slot, (slot = 0 \/ slot = 1) /\
            held s = Some (pageView (Sys.buf s) slot))).
Proof.
  intros s0 es. eexists. split; [vm_compute; reflexivity|].
  apply (emitted_frames_whole 60 1 1 ltac:(lia) ltac:(lia)
           [1; 2; 3; 4; 5; 6; 7; 8] 0 0 es).
  - reflexivity.
  - vm_compute. reflexivity.
Defined.

(** The block that [sendFrame] emits after the moves of the witness: the
    pacer has received page 0, and the block is the header followed by
    the four bytes of that page. *)
Example emitted_block_after_reception :
  option_map (fun s => SimpleBlock <$> Pacer.sink (Sys.pacer s))
    (run 60 (initial 1 1 [1; 2; 3; 4; 5; 6; 7; 8] 0 0)
       (firstMoves ++ take 3 nextMoves ++ [ESendFrame]))
  = Some [[129; 0; 0; 128]; [129; 0; 0; 128; 9; 9; 9; 9]].
Proof. vm_compute. reflexivity. Qed.

(** ** The codec header *)

Lemma leValue_littleEndian (n : nat) :
  forall x, leValue (littleEndian n x) = x mod 2 ^ (8 * Z.of_nat n).
Proof.
  induction n as [|n IH]; intros x; cbn [littleEndian leValue].
  - change (2 ^ (8 * Z.of_nat 0)) with 1. rewrite Z.mod_1_r. reflexivity.
  - rewrite IH. replace (2 ^ (8 * Z.of_nat (S n))) with (256 * 2 ^ (8 * Z.of_nat n)).
    + rewrite Z.rem_mul_r by lia. reflexivity.
    + replace (8 * Z.of_nat (S n)) with (8 + 8 * Z.of_nat n) by lia.
      rewrite Z.pow_add_r by lia. reflexivity.
Qed.

Lemma toInt32_small (x : Z) : - 2 ^ 31 <= x < 2 ^ 31 -> toInt32 x = x.
Proof. intros Hx. unfold toInt32. rewrite Z.mod_small by lia. lia. Qed.

Lemma leInt32_littleEndian (x : Z) :
  - 2 ^ 31 <= x < 2 ^ 31 -> leInt32 (littleEndian 4 x) = x.
Proof.
  intros Hx. unfold leInt32. rewrite leValue_littleEndian.
  change (2 ^ (8 * Z.of_nat 4)) with (2 ^ 32). unfold toInt32.
  rewrite Zplus_mod_idemp_l. rewrite Z.mod_small by lia. lia.
Qed.

(** X15.  The codec data [main] writes into the track header is a bitmap
    header of 40 little-endian bytes.  Its width field holds the width of
    the window.  Its height field holds [65536 - height], a positive
    number: the negation in [int32(-height)] is taken on the [uint16]
    value, so the field is never negative.  Planes is 1, the bit count is
    32, and every other field, the size field included, is zero. *)
Theorem codecPrivate_fields (width height : Z) :
  0 <= width < 2 ^ 16 -> 0 < height < 2 ^ 16 ->
  let header := codecPrivate width height in
  length header = 40%nat /\
  leValue (take 4 header) = 0 /\
  leInt32 (take 4 (drop 4 header)) = width /\
  leInt32 (take 4 (drop 8 header)) = 65536 - height /\
  0 < leInt32 (take 4 (drop 8 header)) /\
  leValue (take 2 (drop 12 header)) = 1 /\
  leValue (take 2 (drop 14 header)) = 32 /\
  drop 16 header = replicate 24 0.
Proof.
  intros Hw Hh header. subst header.
  unfold codecPrivate, binaryWrite, bitmapInfoHeader.
  cbn [BitmapInfoHeader.Size BitmapInfoHeader.Width BitmapInfoHeader.Height
       BitmapInfoHeader.Planes BitmapInfoHeader.BitCount BitmapInfoHeader.Compression
       BitmapInfoHeader.SizeImage BitmapInfoHeader.XPelsPerMeter
       BitmapInfoHeader.YPelsPerMeter BitmapInfoHeader.ClrUsed
       BitmapInfoHeader.ClrImportant].
  cbn [littleEndian app drop take length].
  assert (Hneg : toInt32 (Go.uint16 (- height)) = 65536 - height).
  { unfold Go.uint16. change (2 ^ 16) with 65536.
    replace (- height) with (65536 - height + (-1) * 65536) by lia.
    rewrite Z.mod_add by lia. rewrite Z.mod_small by lia.
    apply toInt32_small. lia. }
  assert (Hwid : toInt32 width = width) by (apply toInt32_small; lia).
  split; [reflexivity|]. split; [reflexivity|].
  assert (HH : leInt32 (littleEndian 4 (toInt32 (Go.uint16 (- height)))) = 65536 - height).
  { rewrite Hneg. apply leInt32_littleEndian. lia. }
  assert (HWd : leInt32 (littleEndian 4 (toInt32 width)) = width).
  { rewrite Hwid. apply leInt32_littleEndian. lia. }
  cbn [littleEndian] in HH, HWd.
  split; [exact HWd|]. split; [exact HH|]. split; [rewrite HH; lia|].
  split; [reflexivity|]. split; reflexivity.
Qed.

Lemma codecPrivate_fields_witness :
  let header := codecPrivate 800 600 in
  length header = 40%nat /\
  leValue (take 4 header) = 0 /\
  leInt32 (take 4 (drop 4 header)) = 800 /\
  leInt32 (take 4 (drop 8 header)) = 65536 - 600 /\
  0 < leInt32 (take 4 (drop 8 header)) /\
  leValue (take 2 (drop 12 header)) = 1 /\
  leValue (take 2 (drop 14 header)) = 32 /\
  drop 16 header = replicate 24 0.
Proof.
  apply (codecPrivate_fields 800 600); lia.
Defined.

(** The header of an 800 x 600 window, byte by byte: the height field is
    [0x0000fda8] = 64936. *)
Example codecPrivate_800x600 :
  codecPrivate 800 600
  = [0; 0; 0; 0;  32; 3; 0; 0;  168; 253; 0; 0;  1; 0;  32; 0;
     0; 0; 0; 0;  0; 0; 0; 0;  0; 0; 0; 0;  0; 0; 0; 0;  0; 0; 0; 0;  0; 0; 0; 0].
Proof. vm_compute. reflexivity. Qed.

(** ** The store along a run *)

Lemma configureCase_length (c : Capture.t) (evW evH : Z) (np : option Z) (c' : Capture.t) :
  configureCase c evW evH np = Some c' ->
  length (Capture.scratch c') = length (Capture.scratch c).
Proof.
  unfold configureCase.
  destruct (negb (evW =? Capture.width c) || negb (evH =? Capture.height c));
    destruct np as [pix'|]; cbn [mbind option_bind]; try discriminate;
    intros [= <-]; reflexivity.
Qed.

Lemma Step_store (fps : Z) (s : Sys.t) (e : Event) (s' : Sys.t) :
  Step fps s e s' ->
  Width (Sys.buf s') = Width (Sys.buf s) /\
  Height (Sys.buf s') = Height (Sys.buf s) /\
  Pages (Sys.buf s') = Pages (Sys.buf s) /\
  ShmID (Sys.buf s') = ShmID (Sys.buf s) /\
  length (Data (Sys.buf s')) = length (Data (Sys.buf s)) /\
  length (Capture.scratch (Sys.capture s')) = length (Capture.scratch (Sys.capture s)).
Proof.
  intros HS. step_rules HS; repeat split; auto.
  - apply configureCase_length in Ec. exact Ec.
  - apply xshmStore_length.
  - apply storePage_length.
  - cbn [Capture.scratch]. apply reconcile_length in Erec. tauto.
  - apply storePage_length.
Qed.

(** X16.  The store is never resized: along every interleaving, whatever
    resize notifications arrive, the width, the height, the page count and
    the segment identifier of the store, the length of the segment and the
    length of the scratch buffer stay what they were. *)
Theorem store_never_resized (fps : Z) (es : list Event) (s s' : Sys.t) :
  run fps s es = Some s' ->
  Width (Sys.buf s') = Width (Sys.buf s) /\
  Height (Sys.buf s') = Height (Sys.buf s) /\
  Pages (Sys.buf s') = Pages (Sys.buf s) /\
  ShmID (Sys.buf s') = ShmID (Sys.buf s) /\
  length (Data (Sys.buf s')) = length (Data (Sys.buf s)) /\
  length (Capture.scratch (Sys.capture s')) = length (Capture.scratch (Sys.capture s)).
Proof.
  revert s. induction es as [|e es IH]; intros s Hrun; cbn [run] in Hrun.
  - injection Hrun as <-. repeat split.
  - destruct (step fps s e) as [s1|] eqn:E1; cbn [mbind option_bind] in Hrun; [|discriminate].
    apply step_Step, Step_store in E1 as (E1 & E2 & E3 & E4 & E5 & E6).
    destruct (IH s1 Hrun) as (H1 & H2 & H3 & H4 & H5 & H6).
    repeat split; congruence.
Qed.

Lemma store_never_resized_witness :
  exists s',
    run 60 (initial 1 1 [1; 2; 3; 4; 5; 6; 7; 8] 0 0) (firstMoves ++ nextMoves) = Some s' /\
    Width (Sys.buf s') = 1 /\ Height (Sys.buf s') = 1 /\ Pages (Sys.buf s') = 2 /\
    ShmID (Sys.buf s') = 0 /\ length (Data (Sys.buf s')) = 8%nat /\
    length (Capture.scratch (Sys.capture s')) = 4%nat.
Proof.
  eexists. split; [vm_compute; reflexivity|].
  apply (store_never_resized 60 (firstMoves ++ nextMoves)
           (initial 1 1 [1; 2; 3; 4; 5; 6; 7; 8] 0 0)).
  vm_compute. reflexivity.
Defined.

(** X17.  What the scratch buffer held before a reconciliation never
    reaches the page: two reconciliations of the same page that start from
    different scratch buffers (of the length of a page) leave the same
    page. *)
Theorem reconcile_ignores_scratch (buf : Buffer) (w h : Z) (scratch1 scratch2 page : list Z) :
  length scratch1 = length page -> length scratch2 = length page ->
  snd <$> reconcile buf w h scratch1 page = snd <$> reconcile buf w h scratch2 page.
Proof.
  intros H1 H2. unfold reconcile.
  destruct ((w <? Width buf) || (h <? Height buf)); [|reflexivity].
  rewrite !copy_full by assumption. reflexivity.
Qed.

Lemma reconcile_ignores_scratch_witness :
  snd <$> reconcile smallBuf 1 1 (replicate 16 0) (Z.of_nat <$> seq 1 16)
  = snd <$> reconcile smallBuf 1 1 (replicate 16 255) (Z.of_nat <$> seq 1 16).
Proof.
  apply (reconcile_ignores_scratch smallBuf 1 1 (replicate 16 0) (replicate 16 255)
           (Z.of_nat <$> seq 1 16)); reflexivity.
Defined.

Lemma Step_sink (fps : Z) (s : Sys.t) (e : Event) (s' : Sys.t) :
  Step fps s e s' ->
  exists more,
    Pacer.sink (Sys.pacer s') = Pacer.sink (Sys.pacer s) ++ more /\
    length more = sendFrameMoves [e].
Proof.
  intros HS. step_rules HS; try (exists []; rewrite app_nil_r; split; reflexivity).
  apply sendFrame_prevFrame in Esend as (_ & c0 & -> & _).
  exists [c0]. split; reflexivity.
Qed.

(** X18.  The sequence of clusters handed to the encoder only grows, by
    one cluster for each call of [sendFrame]: along every interleaving the
    clusters emitted earlier stay in place, in their order, and no move of
    the capture loop adds or removes one. *)
Theorem sink_append_only (fps : Z) (es : list Event) (s s' : Sys.t) :
  run fps s es = Some s' ->
  exists more,
    Pacer.sink (Sys.pacer s') = Pacer.sink (Sys.pacer s) ++ more /\
    length more = sendFrameMoves es.
Proof.
  revert s. induction es as [|e es IH]; intros s Hrun; cbn [run] in Hrun.
  - injection Hrun as <-. exists []. rewrite app_nil_r. split; reflexivity.
  - destruct (step fps s e) as [s1|] eqn:E1; cbn [mbind option_bind] in Hrun; [|discriminate].
    apply step_Step, Step_sink in E1 as (m1 & Hm1 & Hl1).
    destruct (IH s1 Hrun) as (m2 & Hm2 & Hl2).
    exists (m1 ++ m2). rewrite Hm2, Hm1, <- app_assoc. split; [reflexivity|].
    rewrite length_app, Hl1, Hl2. unfold sendFrameMoves.
    change (e :: es) with ([e] ++ es). rewrite List.filter_app, length_app. reflexivity.
Qed.

Lemma sink_append_only_witness :
  exists s' more,
    run 60 (initial 1 1 [1; 2; 3; 4; 5; 6; 7; 8] 0 0) (firstMoves ++ nextMoves) = Some s' /\
    Pacer.sink (Sys.pacer s') = [] ++ more /\
    length more = sendFrameMoves (firstMoves ++ nextMoves).
Proof.
  eexists.
  refine ((fun H => match H with ex_intro _ more P => ex_intro _ more (conj _ P) end)
            (sink_append_only 60 (firstMoves ++ nextMoves)
               (initial 1 1 [1; 2; 3; 4; 5; 6; 7; 8] 0 0) _ _)).
  - vm_compute. reflexivity.
  - vm_compute. reflexivity.
Defined.
